(** * Quantum-Job-Tracker: the advisory and history subsystem

    A shallow embedding of [utils/queue_predictor.py],
    [utils/backend_recommender.py], [utils/notification_manager.py] and
    [utils/historical_analyzer.py], and the properties of these modules.

    Conventions of the embedding.
    - A Python [int] is an integer [Z] of any size.  A Python [float] is an
      IEEE 754 double: a finite one is the rational it denotes, and every
      floating-point operation rounds its exact result to the nearest
      double ([PyNum.round64]), overflows to an infinity, or raises as
      Python does ([OverflowError] when an [int] too large for a double
      meets a float, [ZeroDivisionError]).  [sum] adds from left to right
      and rounds each addition, as CPython does up to version 3.11.
    - A Python [dict] whose iteration order is never observed is a [gmap];
      a [dict] that the code iterates over is an insertion-ordered
      association list.
    - A value whose Python type is not fixed by the code (a field of a status
      snapshot, the payload of an event) is a [pyval].
    - A call that can raise returns an [outcome]: [Returns v] or [Raises e].
    - The wall clock is an explicit argument [now] (seconds, as a rational);
      the renderings [datetime.isoformat], [datetime.strftime] and the parser
      [datetime.fromisoformat] are parameters of the sections that use them.
      [timedelta] has microsecond resolution and at most 999999999 days, and
      a [datetime] lies in the years 1 to 9999; arithmetic that leaves these
      ranges raises [OverflowError].  The durations that
      [historical_analyzer.py] adds up stay exact rationals: every property
      of them below is about a total that is zero.
    - [save_history] / [save_notifications] only write a file and swallow
      every exception; they leave the in-memory store unchanged and so do not
      appear in the state transformers below. *)

From Stdlib Require Import ZArith QArith Qminmax Qround Qpower Lia Lqa String Ascii.
From stdpp Require Import gmap strings list fin_maps pretty sorting.

Local Open Scope Z_scope.

(* ===================================================================== *)
(** * Python values, exceptions, and a few built-ins                      *)
(* ===================================================================== *)

Module Py.

Inductive exn : Type :=
| NameError
| TypeError
| KeyError
| ValueError
| OverflowError
| ZeroDivisionError.

Inductive outcome (A : Type) : Type :=
| Returns (a : A)
| Raises (e : exn).
Arguments Returns {A} a.
Arguments Raises {A} e.

Global Instance outcome_ret : MRet outcome := λ A a, Returns a.
Global Instance outcome_bind : MBind outcome := λ A B k m,
  match m with
  | Returns a => k a
  | Raises e => Raises e
  end.

Definition raises {A} (m : outcome A) : Prop := ∃ e, m = Raises e.

(** The scalar values that travel through status snapshots and event
    payloads: [None], [bool], [int] and [str]. *)
Inductive pyval : Type :=
| PNone
| PBool (b : bool)
| PInt (z : Z)
| PStr (s : string).

Global Instance pyval_eq_dec : EqDecision pyval.
Proof. solve_decision. Defined.

(** [isinstance(v, int)]; [bool] is a subclass of [int]. *)
Definition isinstance_int (v : pyval) : bool :=
  match v with
  | PInt _ | PBool _ => true
  | _ => false
  end.

(** The integer an [int] instance denotes in arithmetic. *)
Definition as_int (v : pyval) : option Z :=
  match v with
  | PInt z => Some z
  | PBool b => Some (if b then 1 else 0)
  | _ => None
  end.

(** [bool(v)]. *)
Definition truthy (v : pyval) : bool :=
  match v with
  | PNone => false
  | PBool b => b
  | PInt z => negb (z =? 0)
  | PStr s => negb (String.eqb s "")
  end.

(** [v == w] on scalars: numbers compare by value across [bool] and [int]. *)
Definition py_eqb (v w : pyval) : bool :=
  match as_int v, as_int w with
  | Some a, Some b => a =? b
  | _, _ =>
      match v, w with
      | PNone, PNone => true
      | PStr s, PStr t => String.eqb s t
      | _, _ => false
      end
  end.

(** [str(v)], as an f-string renders it. *)
Definition py_str (v : pyval) : string :=
  match v with
  | PNone => "None"
  | PBool true => "True"
  | PBool false => "False"
  | PInt z => pretty z
  | PStr s => s
  end.

(** Strict order on rationals as a boolean. *)
Definition Qltb (x y : Q) : bool :=
  Qnum x * QDen y <? Qnum y * QDen x.

(** [xs[-n:]] for a positive [n]: the last [n] elements, or all of [xs]
    when it has fewer. *)
Definition slice_last {A} (n : nat) (xs : list A) : list A :=
  drop (length xs - n)%nat xs.

(** [", ".join(xs)]. *)
Fixpoint join (sep : string) (xs : list string) : string :=
  match xs with
  | [] => ""
  | [x] => x
  | x :: rest => x +:+ sep +:+ join sep rest
  end.

(** [d.get(k, dflt)] on a dictionary of scalars. *)
Definition dict_get_default (k : string) (dflt : pyval)
    (d : gmap string pyval) : pyval :=
  default dflt (d !! k).

(** [xs.sort(key=key, reverse=True)]: a stable sort into descending order
    of the keys, which are compared with [<] only.  An element moves past
    those with a strictly larger key and stops at the first other one, so
    elements with equal keys keep their relative order. *)
Fixpoint insert_desc {A K} (ltb : K → K → bool) (key : A → K)
    (x : A) (xs : list A) : list A :=
  match xs with
  | [] => [x]
  | y :: rest =>
      if ltb (key x) (key y) then y :: insert_desc ltb key x rest
      else x :: y :: rest
  end.

Definition sort_reverse {A K} (ltb : K → K → bool) (key : A → K)
    (xs : list A) : list A :=
  foldr (insert_desc ltb key) [] xs.

(** An insertion-ordered [dict] with string keys: [d.get(k)] and
    [d[k] = v].  Assigning to a key that is present keeps its position;
    a new key goes to the end. *)
Fixpoint odict_get {V} (k : string) (d : list (string * V)) : option V :=
  match d with
  | [] => None
  | (k', v) :: rest => if decide (k = k') then Some v else odict_get k rest
  end.

Fixpoint odict_set {V} (k : string) (v : V) (d : list (string * V))
  : list (string * V) :=
  match d with
  | [] => [(k, v)]
  | (k', v') :: rest =>
      if decide (k = k') then (k', v) :: rest
      else (k', v') :: odict_set k v rest
  end.

(** A [dict] of counters keyed by scalars, which Python identifies up to
    [==]: [d.get(k, 0)] and [d[k] = n]. *)
Fixpoint counter_get (k : pyval) (d : list (pyval * Z)) : Z :=
  match d with
  | [] => 0
  | (k', n) :: rest => if py_eqb k k' then n else counter_get k rest
  end.

Fixpoint counter_set (k : pyval) (n : Z) (d : list (pyval * Z))
  : list (pyval * Z) :=
  match d with
  | [] => [(k, n)]
  | (k', n') :: rest =>
      if py_eqb k k' then (k', n) :: rest
      else (k', n') :: counter_set k n rest
  end.

(** The store update that [record_job_completion] and [send_notification]
    share: append under a key, then keep the last [cap] entries. *)
Definition capped_push {A} (cap : nat) (k : string) (x : A)
    (m : gmap string (list A)) : gmap string (list A) :=
  <[k := slice_last cap (default [] (m !! k) ++ [x])]> m.

(** [needle in hay] on strings. *)
Definition contains (needle hay : string) : Prop :=
  ∃ pre post, hay = pre +:+ needle +:+ post.

(** Whether a character occurs in a string. *)
Fixpoint occurs (c : ascii) (s : string) : bool :=
  match s with
  | EmptyString => false
  | String a rest => Ascii.eqb c a || occurs c rest
  end.

End Py.
Import Py.

(* ===================================================================== *)
(** * Python numbers: [int] and [float]                                   *)
(* ===================================================================== *)

Module PyNum.

(** ** Rounding to double precision

    A finite [float] is the rational it denotes.  [round64 x] is the
    double nearest to the real [x], ties going to the even significand
    (IEEE 754 binary64, round-to-nearest-even): 53 significant bits, the
    exponent bounded below at the subnormal range.  Overflow is decided
    by [to_float] further down. *)

Definition pow2 (e : Z) : Q := (2 ^ e)%Q.

(** The integer nearest to [x], a tie going to the even one. *)
Definition rne (x : Q) : Z :=
  let f := Qfloor x in
  match (x - inject_Z f ?= 1 # 2)%Q with
  | Lt => f
  | Gt => f + 1
  | Eq => if Z.even f then f else f + 1
  end.

(** The binary exponent of a positive [x]: [2^e <= x < 2^(e+1)]. *)
Definition expo (x : Q) : Z :=
  if Qltb x 1 then - Z.log2_up (Qceiling (/ x)) else Z.log2 (Qfloor x).

(** The exponent of the least normal double. *)
Definition emin : Z := -1022.

(** The gap between the doubles around a positive [x]. *)
Definition ulp (x : Q) : Q := pow2 (Z.max (expo x) emin - 52).

Definition round_pos (x : Q) : Q :=
  Qred (inject_Z (rne (x / ulp x)) * ulp x).

Definition round64 (x : Q) : Q :=
  match (x ?= 0)%Q with
  | Eq => 0%Q
  | Gt => round_pos x
  | Lt => (- round_pos (- x))%Q
  end.

(** The least magnitude that rounds to an infinity: halfway between the
    largest double, [2^1024 - 2^971], and [2^1024]. *)
Definition float_limit : Z := 2 ^ 1024 - 2 ^ 970.

(** ** Floats *)

(** A [float]: a finite double, an infinity or a NaN.  The sign of a zero
    is not kept: nothing in the modules below can tell [-0.0] from
    [0.0]. *)
Inductive pyfloat : Type :=
| Finite (x : Q)
| PosInf
| NegInf
| NaN.

(** The float that a real result rounds to. *)
Definition to_float (x : Q) : pyfloat :=
  if Qltb x (inject_Z float_limit)
  then if Qltb (inject_Z (- float_limit)) x then Finite (round64 x) else NegInf
  else PosInf.

(** [a < b] on floats: false as soon as a NaN is involved. *)
Definition flt (a b : pyfloat) : bool :=
  match a, b with
  | NaN, _ | _, NaN => false
  | Finite x, Finite y => Qltb x y
  | NegInf, NegInf => false
  | NegInf, _ => true
  | Finite _, PosInf => true
  | Finite _, NegInf => false
  | PosInf, _ => false
  end.

(** [a + b] on floats. *)
Definition fadd (a b : pyfloat) : pyfloat :=
  match a, b with
  | NaN, _ | _, NaN => NaN
  | Finite x, Finite y => to_float (x + y)
  | PosInf, NegInf | NegInf, PosInf => NaN
  | PosInf, _ | _, PosInf => PosInf
  | NegInf, _ | _, NegInf => NegInf
  end.

(** An infinity times the finite [x]. *)
Definition scale_inf (negative : bool) (x : Q) : pyfloat :=
  if Qeq_bool x 0 then NaN
  else if xorb negative (Qltb x 0) then NegInf else PosInf.

(** [a * b] on floats. *)
Definition fmul (a b : pyfloat) : pyfloat :=
  match a, b with
  | NaN, _ | _, NaN => NaN
  | Finite x, Finite y => to_float (x * y)
  | Finite x, PosInf | PosInf, Finite x => scale_inf false x
  | Finite x, NegInf | NegInf, Finite x => scale_inf true x
  | PosInf, PosInf | NegInf, NegInf => PosInf
  | PosInf, NegInf | NegInf, PosInf => NegInf
  end.

(** [a / b] on floats; a zero divisor raises. *)
Definition fdiv (a b : pyfloat) : outcome pyfloat :=
  match b with
  | Finite y =>
      if Qeq_bool y 0 then Raises ZeroDivisionError
      else
        match a with
        | Finite x => Returns (to_float (x / y))
        | PosInf => Returns (if Qltb y 0 then NegInf else PosInf)
        | NegInf => Returns (if Qltb y 0 then PosInf else NegInf)
        | NaN => Returns NaN
        end
  | NaN => Returns NaN
  | PosInf | NegInf =>
      match a with
      | Finite _ => Returns (Finite 0)
      | _ => Returns NaN
      end
  end.

(** [int(a)] for a float: truncation toward zero. *)
Definition int_of_float (a : pyfloat) : outcome Z :=
  match a with
  | Finite x => Returns (Z.quot (Qnum x) (Zpos (Qden x)))
  | PosInf | NegInf => Raises OverflowError
  | NaN => Raises ValueError
  end.

(** ** Numbers *)

(** A number: an [int] of any size, or a [float]. *)
Inductive num : Type :=
| Int (z : Z)
| Float (f : pyfloat).

(** [float(z)]: the nearest double, or [OverflowError] when [z] rounds
    past the largest one. *)
Definition float_of_int (z : Z) : outcome pyfloat :=
  match to_float (inject_Z z) with
  | Finite x => Returns (Finite x)
  | _ => Raises OverflowError
  end.

(** The float operand that mixed arithmetic makes of a number. *)
Definition as_float (a : num) : outcome pyfloat :=
  match a with
  | Int z => float_of_int z
  | Float f => Returns f
  end.

(** The value of a number on the extended real line; comparisons between
    [int] and [float] are exact. *)
Definition exact (a : num) : pyfloat :=
  match a with
  | Int z => Finite (inject_Z z)
  | Float f => f
  end.

(** [a < b]. *)
Definition num_lt (a b : num) : bool := flt (exact a) (exact b).

(** [a + b]: exact on two [int]s, in floating point otherwise. *)
Definition num_add (a b : num) : outcome num :=
  match a, b with
  | Int x, Int y => Returns (Int (x + y))
  | _, _ => x ← as_float a; y ← as_float b; Returns (Float (fadd x y))
  end.

(** [a * b]. *)
Definition num_mul (a b : num) : outcome num :=
  match a, b with
  | Int x, Int y => Returns (Int (x * y))
  | _, _ => x ← as_float a; y ← as_float b; Returns (Float (fmul x y))
  end.

(** [a / b]: always a float.  The quotient of two [int]s is rounded once,
    from the exact quotient, and raises [OverflowError] when it rounds past
    the largest double. *)
Definition num_truediv (a b : num) : outcome pyfloat :=
  match a, b with
  | Int x, Int y =>
      if y =? 0 then Raises ZeroDivisionError
      else
        match to_float (inject_Z x / inject_Z y) with
        | Finite r => Returns (Finite r)
        | _ => Raises OverflowError
        end
  | _, _ => x ← as_float a; y ← as_float b; fdiv x y
  end.

(** [sum(xs)]: the items are added to the [int] 0 from left to right,
    each addition rounded on its own. *)
Fixpoint sum_from (acc : num) (xs : list num) : outcome num :=
  match xs with
  | [] => Returns acc
  | x :: rest => acc ← num_add acc x; sum_from acc rest
  end.

Definition num_sum (xs : list num) : outcome num := sum_from (Int 0) xs.

(** [sum(xs) / len(xs)]. *)
Definition mean (xs : list num) : outcome pyfloat :=
  total ← num_sum xs;
  num_truediv total (Int (Z.of_nat (length xs))).

(** [min(a, b)] and [max(a, b)]: the first argument is kept unless the
    second is strictly smaller (respectively larger). *)
Definition num_min (a b : num) : num := if num_lt b a then b else a.
Definition num_max (a b : num) : num := if num_lt a b then b else a.

(** The rational a finite number denotes (0 for the values that denote
    none). *)
Definition value (a : num) : Q :=
  match exact a with
  | Finite x => x
  | _ => 0%Q
  end.

(** The double a decimal literal denotes. *)
Definition literal (x : Q) : num := Float (to_float x).

(** ** Vocabulary for the properties *)

(** A float that is zero, positive or the positive infinity. *)
Definition nonneg (a : pyfloat) : Prop :=
  match a with
  | Finite x => (0 <= x)%Q
  | PosInf => True
  | _ => False
  end.

(** The order of the extended real line; a NaN is not in it. *)
Definition fle (a b : pyfloat) : Prop :=
  match a, b with
  | NaN, _ | _, NaN => False
  | NegInf, _ | _, PosInf => True
  | Finite x, Finite y => (x <= y)%Q
  | _, _ => False
  end.

(** A finite number between [2^a] and [2^b]. *)
Definition between (a b : Z) (x : num) : Prop :=
  match exact x with
  | Finite v => (pow2 a <= v)%Q ∧ (v <= pow2 b)%Q
  | _ => False
  end.

(** [max(0, min(a, 100))] of a float, as a rational: an infinity is cut
    to the nearer bound, and a NaN, which no comparison finds larger than
    0, gives 0. *)
Definition clamp_float (a : pyfloat) : Q :=
  match a with
  | Finite x => Qmax 0 (Qmin x 100)
  | PosInf => 100%Q
  | NegInf | NaN => 0%Q
  end.

(** ** [datetime] arithmetic

    An instant is a number of seconds since the epoch, a [timedelta] a
    number of microseconds. *)

(** [timedelta(seconds=w)] for a float [w]: the whole seconds are taken
    exactly, the fraction is scaled to microseconds in floating point, and
    the total is rounded to a whole number of microseconds, a tie going to
    the even one.  More than 999999999 days either way raise. *)
Definition timedelta_seconds (w : pyfloat) : outcome Z :=
  match w with
  | NaN => Raises ValueError
  | PosInf | NegInf => Raises OverflowError
  | Finite x =>
      let whole := Z.quot (Qnum x) (Zpos (Qden x)) in
      let fraction := (x - inject_Z whole)%Q in
      let microseconds :=
        rne (inject_Z (whole * 1000000) + round64 (1000000 * fraction)) in
      let days := microseconds / 86400000000 in
      if (days <? -999999999) || (999999999 <? days)
      then Raises OverflowError
      else Returns microseconds
  end.

(** The first instant of year 1 and the first instant after year 9999. *)
Definition datetime_min : Z := -62135596800.
Definition datetime_end : Z := 253402300800.

(** [now + delta]: an instant outside the years 1 to 9999 raises. *)
Definition datetime_add (now : Q) (delta : Z) : outcome Q :=
  let t := (now + inject_Z delta / 1000000)%Q in
  if Qltb t (inject_Z datetime_min) || negb (Qltb t (inject_Z datetime_end))
  then Raises OverflowError
  else Returns t.

End PyNum.
Import PyNum.

(* ===================================================================== *)
(** * utils/queue_predictor.py                                            *)
(* ===================================================================== *)

Module QueuePredictor.

(** One entry of [self.history[backend_name]]. *)
Record sample : Type := Sample {
  timestamp : string;
  job_id : string;
  queue_time : num;
  run_time : num
}.

Section WithClock.

(** [datetime.isoformat] and [datetime.strftime("%Y-%m-%d %H:%M:%S")] of the
    instant that lies the given number of seconds after the epoch. *)
Variable isoformat : Q → string.
Variable strftime : Q → string.

(** [record_job_completion(job_id, backend_name, queue_time, run_time)],
    called when the clock reads [now]. *)
Definition record_job_completion (now : Q) (jid backend_name : string)
    (qt rt : num) (history : gmap string (list sample))
  : gmap string (list sample) :=
  let history :=
    match history !! backend_name with
    | None => <[backend_name := []]> history
    | Some _ => history
    end in
  let history :=
    <[backend_name :=
        default [] (history !! backend_name)
        ++ [Sample (isoformat now) jid qt rt]]> history in
  if (1000 <? length (default [] (history !! backend_name)))%nat
  then <[backend_name :=
           slice_last 1000 (default [] (history !! backend_name))]> history
  else history.

(** [current_queue_length * avg_run_time], the right operand a [float]:
    an [int] is converted to a float first, anything else but a number is
    a type error. *)
Definition mul_float (v : pyval) (x : pyfloat) : outcome pyfloat :=
  match as_int v with
  | Some z => y ← float_of_int z; Returns (fmul y x)
  | None => Raises TypeError
  end.

(** [(datetime.now() + timedelta(seconds=wait)).strftime(...)]. *)
Definition start_after (now : Q) (wait : pyfloat) : outcome string :=
  delta ← timedelta_seconds wait;
  start ← datetime_add now delta;
  Returns (strftime start).

(** [estimate_start_time(job_id, backend_name, current_queue_length)]. *)
Definition estimate_start_time (now : Q) (jid backend_name : string)
    (current_queue_length : pyval) (history : gmap string (list sample))
  : outcome (option string) :=
  match history !! backend_name with
  | None => Returns None
  | Some [] => Returns None
  | Some entries =>
      let run_times :=
        run_time <$> List.filter (λ entry, num_lt (Int 0) (run_time entry)) entries in
      match run_times with
      | [] => Returns None
      | _ =>
          avg_run_time ← mean run_times;
          estimated_wait ← mul_float current_queue_length avg_run_time;
          if flt (Finite 0) estimated_wait
          then start ← start_after now estimated_wait; Returns (Some start)
          else Returns None
      end
  end.

(** [estimate_average_wait(backend_name)]. *)
Definition estimate_average_wait (backend_name : string)
    (history : gmap string (list sample)) : outcome string :=
  match history !! backend_name with
  | None => Returns "Unknown"
  | Some [] => Returns "Unknown"
  | Some entries =>
      let queue_times :=
        queue_time <$> List.filter (λ entry, num_lt (Int 0) (queue_time entry)) entries in
      match queue_times with
      | [] => Returns "Unknown"
      | _ =>
          avg_queue_time ← mean queue_times;
          if num_lt (Float avg_queue_time) (Int 60)
          then
            seconds ← int_of_float avg_queue_time;
            Returns (pretty seconds +:+ " seconds")
          else if num_lt (Float avg_queue_time) (Int 3600)
          then
            quotient ← num_truediv (Float avg_queue_time) (Int 60);
            minutes ← int_of_float quotient;
            Returns (pretty minutes +:+ " minutes")
          else
            quotient ← num_truediv (Float avg_queue_time) (Int 3600);
            hours ← int_of_float quotient;
            Returns (pretty hours +:+ " hours")
      end
  end.

(** ** Vocabulary for the properties *)

(** The arguments of one [record_job_completion] call and the clock
    reading at the call. *)
Record completion : Type := Completion {
  at_time : Q;
  of_job : string;
  on_backend : string;
  queued_for : num;
  ran_for : num
}.

Definition run (calls : list completion)
    (history : gmap string (list sample)) : gmap string (list sample) :=
  fold_left
    (λ h c, record_job_completion (at_time c) (of_job c) (on_backend c)
              (queued_for c) (ran_for c) h)
    calls history.

(** The samples a sequence of calls records for one backend, oldest
    first. *)
Definition recorded (backend_name : string) (calls : list completion)
  : list sample :=
  (λ c, Sample (isoformat (at_time c)) (of_job c) (queued_for c) (ran_for c))
    <$> List.filter (λ c, bool_decide (on_backend c = backend_name)) calls.

End WithClock.

(** [self.history.get(backend_name, [])]. *)
Definition samples (backend_name : string)
    (history : gmap string (list sample)) : list sample :=
  default [] (history !! backend_name).

(** [x > 0]. *)
Definition positive (x : num) : bool := num_lt (Int 0) x.

Definition positive_run_times (backend_name : string)
    (history : gmap string (list sample)) : list num :=
  run_time <$> List.filter (λ e, positive (run_time e)) (samples backend_name history).

Definition positive_queue_times (backend_name : string)
    (history : gmap string (list sample)) : list num :=
  queue_time <$> List.filter (λ e, positive (queue_time e)) (samples backend_name history).

(** A finite mean as [estimate_average_wait] shows it: whole seconds below
    a minute, whole minutes below an hour, whole hours from there on, the
    quotients rounded to a double before they are cut. *)
Definition shown_wait (m : Q) : string :=
  if Qlt_le_dec m 60 then pretty (Qfloor m) +:+ " seconds"
  else if Qlt_le_dec m 3600
  then pretty (Qfloor (round64 (m / 60))) +:+ " minutes"
  else pretty (Qfloor (round64 (m / 3600))) +:+ " hours".

(** A clock rendering for the examples: whole seconds since the epoch. *)
Definition epoch_seconds (t : Q) : string := pretty (Qfloor t).

End QueuePredictor.

(* ===================================================================== *)
(** * utils/backend_recommender.py                                        *)
(* ===================================================================== *)

Module BackendRecommender.

(** One element of the list [get_recommendations] returns. *)
Record recommendation : Type := Recommendation {
  name : string;
  service_type : pyval;
  qubits : pyval;
  queue_length : pyval;
  score : Q;
  recommendation_reason : string
}.

(** [v * n] for an [int] literal [n]: product of integers, or repetition of
    a string; [None * n] is a type error. *)
Definition mul_int (v : pyval) (n : Z) : outcome pyval :=
  match v with
  | PInt z => Returns (PInt (z * n))
  | PBool b => Returns (PInt ((if b then 1 else 0) * n))
  | PStr s => Returns (PStr (join "" (replicate (Z.to_nat n) s)))
  | PNone => Raises TypeError
  end.

(** [min(v, n)] for an [int] literal [n]: evaluates [n < v], which is a
    type error unless [v] is a number. *)
Definition min_int (v : pyval) (n : Z) : outcome Z :=
  match as_int v with
  | Some z => Returns (if n <? z then n else z)
  | None => Raises TypeError
  end.

(** [v < n] for an [int] literal [n]. *)
Definition lt_int (v : pyval) (n : Z) : outcome bool :=
  match as_int v with
  | Some z => Returns (z <? n)
  | None => Raises TypeError
  end.

(** [calculate_backend_score(backend_name, backend_info)].  The score is
    an [int] until the qubit bonus, a float quotient unless it is capped,
    is added; the clamp returns 0, 100 or a finite score between them, and
    the result is given as the rational it denotes. *)
Definition calculate_backend_score (backend_name : string)
    (backend_info : gmap string pyval) : outcome Q :=
  let score := 100 in
  let queue_length := dict_get_default "pending_jobs" (PInt 0) backend_info in
  doubled ← mul_int queue_length 2;
  penalty ← min_int doubled 50;
  let score := score - penalty in
  let score :=
    if truthy (dict_get_default "simulator" (PBool false) backend_info)
    then score + 10 else score in
  let qubits := dict_get_default "qubits" (PInt 0) backend_info in
  score ←
    match as_int qubits with
    | Some q =>
        quotient ← num_truediv (Int q) (Int 5);
        num_add (Int score) (num_min (Float quotient) (Int 20))
    | None => Returns (Int score)
    end;
  Returns (value (num_max (Int 0) (num_min score (Int 100)))).

(** [get_recommendation_reason(backend_name, backend_info, score)]. *)
Definition get_recommendation_reason (backend_name : string)
    (backend_info : gmap string pyval) (score : Q) : outcome string :=
  let reasons : list string := [] in
  let queue_length := dict_get_default "pending_jobs" (PInt 0) backend_info in
  reasons ←
    (if py_eqb queue_length (PInt 0)
     then Returns (reasons ++ ["No jobs in queue"])
     else
       short ← lt_int queue_length 5;
       if short : bool then Returns (reasons ++ ["Short queue"])
       else Returns (reasons ++ [py_str queue_length +:+ " jobs in queue"]));
  let reasons :=
    if truthy (dict_get_default "simulator" (PBool false) backend_info)
    then reasons ++ ["Simulator (good for testing)"] else reasons in
  let qubits := dict_get_default "qubits" (PInt 0) backend_info in
  let reasons :=
    match as_int qubits with
    | Some q => if 10 <? q then reasons ++ ["High qubit count"] else reasons
    | None => reasons
    end in
  Returns (join ", " reasons).

(** The loop of [get_recommendations] over
    [backend_status_cache.items()]. *)
Fixpoint collect (items : list (string * gmap string pyval))
  : outcome (list recommendation) :=
  match items with
  | [] => Returns []
  | (backend_name, backend_info) :: rest =>
      if negb (truthy (dict_get_default "operational" (PBool false) backend_info))
      then collect rest
      else
        score ← calculate_backend_score backend_name backend_info;
        reason ← get_recommendation_reason backend_name backend_info score;
        recommendations ← collect rest;
        Returns
          (Recommendation backend_name
             (dict_get_default "service_type" (PStr "unknown") backend_info)
             (dict_get_default "qubits" (PStr "Unknown") backend_info)
             (dict_get_default "pending_jobs" (PInt 0) backend_info)
             score reason
           :: recommendations)
  end.

(** [get_recommendations(user_id, backend_status_cache)]; the snapshot is
    the dictionary's items in iteration order. *)
Definition get_recommendations (user_id : string)
    (backend_status_cache : list (string * gmap string pyval))
  : outcome (list recommendation) :=
  recommendations ← collect backend_status_cache;
  Returns (take 3 (sort_reverse Qltb score recommendations)).

(** ** Vocabulary for the properties *)

(** The fields of a status that carry numbers are integers (a missing
    field reads as the integer 0). *)
Definition integer_valued (backend_info : gmap string pyval) : Prop :=
  (∃ p, dict_get_default "pending_jobs" (PInt 0) backend_info = PInt p) ∧
  (∃ q, dict_get_default "qubits" (PInt 0) backend_info = PInt q).

(** Every integer that the scorer's float arithmetic meets, the doubled
    queue length and the qubit count, has at most 1000 bits: a float can
    hold it. *)
Definition float_safe (backend_info : gmap string pyval) : Prop :=
  match as_int (dict_get_default "pending_jobs" (PInt 0) backend_info) with
  | Some p => - 2 ^ 1000 ≤ p
  | None => True
  end ∧
  match as_int (dict_get_default "qubits" (PInt 0) backend_info) with
  | Some q => - 2 ^ 1000 ≤ q ≤ 2 ^ 1000
  | None => True
  end.

(** The score before the qubit bonus:
    [100 - min(pending_jobs * 2, 50) + (10 if simulator else 0)]. *)
Definition base_score (pending_jobs : Z) (simulator : bool) : Z :=
  100 - Z.min (pending_jobs * 2) 50 + (if simulator then 10 else 0).

(** The rest of the scorer, from the score before the bonus and the
    [qubits] field. *)
Definition score_with (base : Z) (qubits : pyval) : outcome Q :=
  score ←
    match as_int qubits with
    | Some q =>
        quotient ← num_truediv (Int q) (Int 5);
        num_add (Int base) (num_min (Float quotient) (Int 20))
    | None => Returns (Int base)
    end;
  Returns (value (num_max (Int 0) (num_min score (Int 100)))).

(** The clamp [max(0, min(x, 100))] on rationals. *)
Definition clamp (x : Q) : Q := Qmax 0 (Qmin x 100).

(** Scores do not increase along the list. *)
Definition by_score_descending (recs : list recommendation) : Prop :=
  StronglySorted (λ a b, score b <= score a)%Q recs.

End BackendRecommender.

(* ===================================================================== *)
(** * utils/notification_manager.py                                       *)
(* ===================================================================== *)

Module NotificationManager.

Record notification : Type := Notification {
  user_id : string;
  title : string;
  message : string;
  timestamp : string;
  job_info : option (gmap string pyval);
  read : bool
}.

Definition set_read (n : notification) : notification :=
  Notification (user_id n) (title n) (message n) (timestamp n) (job_info n) true.

Section WithClock.

Variable isoformat : Q → string.

(** [send_notification(user_id, title, message, job_info)] on
    [self.notifications].  The delivery to Slack that follows the update
    reads no field of the store and catches every exception. *)
Definition send_notification (now : Q) (uid ttl msg : string)
    (info : option (gmap string pyval))
    (notifications : gmap string (list notification))
  : gmap string (list notification) :=
  let entry := Notification uid ttl msg (isoformat now) info false in
  let notifications :=
    match notifications !! uid with
    | None => <[uid := []]> notifications
    | Some _ => notifications
    end in
  let notifications :=
    <[uid := default [] (notifications !! uid) ++ [entry]]> notifications in
  if (100 <? length (default [] (notifications !! uid)))%nat
  then <[uid := slice_last 100 (default [] (notifications !! uid))]> notifications
  else notifications.

(** ** Vocabulary for the properties *)

(** The arguments of one [send_notification] call and the clock reading
    at the call. *)
Record sending : Type := Sending {
  at_time : Q;
  to_user : string;
  with_title : string;
  with_message : string;
  with_job_info : option (gmap string pyval)
}.

Definition run (calls : list sending)
    (notifications : gmap string (list notification))
  : gmap string (list notification) :=
  fold_left
    (λ store c, send_notification (at_time c) (to_user c) (with_title c)
                  (with_message c) (with_job_info c) store)
    calls notifications.

(** The notifications a sequence of calls sends to one user, oldest
    first. *)
Definition sent (uid : string) (calls : list sending) : list notification :=
  (λ c, Notification (to_user c) (with_title c) (with_message c)
          (isoformat (at_time c)) (with_job_info c) false)
    <$> List.filter (λ c, bool_decide (to_user c = uid)) calls.

(** The calls that assign to [self.notifications]. *)
Inductive call : Type :=
| SendNotification (c : sending)
| MarkAsRead (uid : string) (notification_index : option Z).

End WithClock.

(** [self.notifications.get(user_id, [])]. *)
Definition log (uid : string)
    (notifications : gmap string (list notification)) : list notification :=
  default [] (notifications !! uid).

(** [get_user_notifications(user_id, unread_only)]. *)
Definition get_user_notifications (uid : string) (unread_only : bool)
    (notifications : gmap string (list notification)) : list notification :=
  let user_notifications := default [] (notifications !! uid) in
  if unread_only then List.filter (λ n, negb (read n)) user_notifications
  else user_notifications.

(** [mark_as_read(user_id, notification_index)]. *)
Definition mark_as_read (uid : string) (notification_index : option Z)
    (notifications : gmap string (list notification))
  : gmap string (list notification) :=
  match notifications !! uid with
  | None => notifications
  | Some log =>
      match notification_index with
      | Some i =>
          if (0 <=? i) && (i <? Z.of_nat (length log))
          then <[uid := alter set_read (Z.to_nat i) log]> notifications
          else notifications
      | None => <[uid := set_read <$> log]> notifications
      end
  end.

Section WithClock.

Variable isoformat : Q → string.

Definition after (c : call) (notifications : gmap string (list notification))
  : gmap string (list notification) :=
  match c with
  | SendNotification c =>
      send_notification isoformat (at_time c) (to_user c) (with_title c)
        (with_message c) (with_job_info c) notifications
  | MarkAsRead uid notification_index =>
      mark_as_read uid notification_index notifications
  end.

Definition run_calls (calls : list call)
    (notifications : gmap string (list notification))
  : gmap string (list notification) :=
  fold_left (λ store c, after c store) calls notifications.

End WithClock.

End NotificationManager.

(* ===================================================================== *)
(** * utils/historical_analyzer.py                                        *)
(* ===================================================================== *)

Module HistoricalAnalyzer.

(** One element of [self.history[job_id]]. *)
Record event : Type := Event {
  event_type : string;   (* the key 'type' *)
  timestamp : string;
  data : gmap string pyval
}.

(** One element of [analytics['recent_activity']]. *)
Record activity : Type := Activity {
  job_id : string;
  last_event : string;
  activity_timestamp : string   (* the key 'timestamp' *)
}.

(** The dictionary [get_analytics] returns. *)
Record analytics : Type := Analytics {
  total_jobs : Z;
  jobs_by_status : list (pyval * Z);
  jobs_by_backend : list (pyval * Z);
  average_queue_time : Q;
  success_rate : Q;
  recent_activity : list activity
}.

(** What [datetime.fromisoformat] yields: an instant, and whether it
    carries a UTC offset. *)
Record datetime : Type := Datetime {
  seconds : Q;
  aware : bool
}.

(** [(a - b).total_seconds()]; a naive and an aware instant do not
    subtract. *)
Definition total_seconds_between (a b : datetime) : outcome Q :=
  if eqb (aware a) (aware b) then Returns (seconds a - seconds b)%Q
  else Raises TypeError.

(** The variables that [get_analytics] mutates across loop iterations. *)
Record locals : Type := Locals {
  by_status : list (pyval * Z);
  by_backend : list (pyval * Z);
  completed_jobs : Z;
  total_queue_time : Q;
  recent : list activity
}.

(** Loading a numeric local variable by name, in the frame that holds
    them; a name that is bound nowhere raises [NameError]. *)
Definition load_name (n : string) (frame : list (string * Q)) : outcome Q :=
  match odict_get n frame with
  | Some v => Returns v
  | None => Raises NameError
  end.

Section WithClock.

Variable isoformat : Q → string.
(** [datetime.fromisoformat]; [None] stands for its [ValueError]. *)
Variable fromisoformat : string → option datetime.

Definition parse (s : string) : outcome datetime :=
  match fromisoformat s with
  | Some d => Returns d
  | None => Raises ValueError
  end.

(** [record_job_event(job_id, event_type, timestamp, data)], called when
    the clock reads [now]. *)
Definition record_job_event (now : Q) (jid ety : string)
    (ts : option string) (payload : option (gmap string pyval))
    (history : list (string * list event)) : list (string * list event) :=
  let history :=
    match odict_get jid history with
    | None => odict_set jid [] history
    | Some _ => history
    end in
  let ev :=
    Event ety
      (match ts with
       | Some t => if decide (t = "") then isoformat now else t
       | None => isoformat now
       end)
      (default ∅ payload) in
  odict_set jid (default [] (odict_get jid history) ++ [ev]) history.

(** [get_job_timeline(job_id)]. *)
Definition get_job_timeline (jid : string)
    (history : list (string * list event)) : list event :=
  default [] (odict_get jid history).

(** [if user_id:] holds, and no event of the job carries that user. *)
Definition filtered_out (user_id : option string) (events : list event) : bool :=
  match user_id with
  | Some u =>
      if decide (u = "") then false
      else
        match List.filter
                (λ e, py_eqb (dict_get_default "user_id" PNone (data e)) (PStr u))
                events with
        | [] => true
        | _ => false
        end
  | None => false
  end.

(** One iteration of the loop over [self.history.items()]. *)
Definition visit (user_id : option string) (jid : string)
    (events : list event) (st : locals) : outcome locals :=
  if filtered_out user_id events then Returns st
  else
    let status_events :=
      List.filter (λ e, String.eqb (event_type e) "status_change") events in
    let '(by_status', completed') :=
      match last status_events with
      | Some e =>
          let latest_status :=
            dict_get_default "status" (PStr "unknown") (data e) in
          (counter_set latest_status
             (counter_get latest_status (by_status st) + 1) (by_status st),
           if py_eqb latest_status (PStr "COMPLETED")
           then completed_jobs st + 1 else completed_jobs st)
      | None => (by_status st, completed_jobs st)
      end in
    let backend_events :=
      List.filter (λ e, String.eqb (event_type e) "backend_assigned") events in
    let by_backend' :=
      match head backend_events with
      | Some e =>
          let backend := dict_get_default "backend" (PStr "unknown") (data e) in
          counter_set backend (counter_get backend (by_backend st) + 1)
            (by_backend st)
      | None => by_backend st
      end in
    let queue_events :=
      List.filter (λ e, String.eqb (event_type e) "queued") events in
    let start_events :=
      List.filter (λ e, String.eqb (event_type e) "running") events in
    total' ←
      match head queue_events, head start_events with
      | Some q, Some r =>
          started ← parse (timestamp r);
          queued ← parse (timestamp q);
          queue_time ← total_seconds_between started queued;
          Returns (total_queue_time st + queue_time)%Q
      | _, _ => Returns (total_queue_time st)
      end;
    let recent' :=
      match last events with
      | Some e => recent st ++ [Activity jid (event_type e) (timestamp e)]
      | None => recent st
      end in
    Returns (Locals by_status' by_backend' completed' total' recent').

Fixpoint visit_all (user_id : option string)
    (items : list (string * list event)) (st : locals) : outcome locals :=
  match items with
  | [] => Returns st
  | (jid, events) :: rest =>
      st' ← visit user_id jid events st;
      visit_all user_id rest st'
  end.

(** [get_analytics(user_id)].  Line 108 tests the name [completed_jops];
    the numeric variables in scope are [completed_jobs] and
    [total_queue_time]. *)
Definition get_analytics (user_id : option string)
    (history : list (string * list event)) : outcome analytics :=
  st ← visit_all user_id history (Locals [] [] 0 0%Q []);
  let frame :=
    [("completed_jobs", inject_Z (completed_jobs st));
     ("total_queue_time", total_queue_time st)] in
  rates ←
    (if 0 <? completed_jobs st
     then
       let rate :=
         (inject_Z (completed_jobs st)
          / inject_Z (Z.of_nat (length history)) * 100)%Q in
       guard ← load_name "completed_jops" frame;
       if Qltb 0 guard
       then Returns (rate,
                     (total_queue_time st / inject_Z (completed_jobs st))%Q)
       else Returns (rate, 0%Q)
     else Returns (0%Q, 0%Q));
  Returns
    (Analytics (Z.of_nat (length history)) (by_status st) (by_backend st)
       rates.2 rates.1
       (take 10 (sort_reverse String.ltb activity_timestamp (recent st)))).

(** The calls that reach the store of a [HistoricalAnalyzer]. *)
Inductive call : Type :=
| RecordJobEvent (now : Q) (jid ety : string) (ts : option string)
    (payload : option (gmap string pyval))
| GetJobTimeline (jid : string)
| GetAnalytics (user_id : option string)
| SaveHistory.

(** The store after a call: only [record_job_event] assigns to
    [self.history] or to one of its lists. *)
Definition after (c : call) (history : list (string * list event))
  : list (string * list event) :=
  match c with
  | RecordJobEvent now jid ety ts payload =>
      record_job_event now jid ety ts payload history
  | GetJobTimeline _ | GetAnalytics _ | SaveHistory => history
  end.

Definition run (calls : list call) (history : list (string * list event))
  : list (string * list event) :=
  fold_left (λ h c, after c h) calls history.

(** ** Vocabulary for the properties *)

(** The events a sequence of calls records for one job, in call order,
    one per [record_job_event] call. *)
Definition recorded (jid : string) (calls : list call) : list event :=
  calls ≫= λ c,
    match c with
    | RecordJobEvent now j ety ts payload =>
        if decide (j = jid)
        then [Event ety
                (match ts with
                 | Some t => if decide (t = "") then isoformat now else t
                 | None => isoformat now
                 end)
                (default ∅ payload)]
        else []
    | _ => []
    end.

(** The latest [status_change] event of a job reports COMPLETED. *)
Definition latest_completed (events : list event) : bool :=
  match last (List.filter (λ e, String.eqb (event_type e) "status_change")
                events) with
  | Some e =>
      py_eqb (dict_get_default "status" (PStr "unknown") (data e))
        (PStr "COMPLETED")
  | None => false
  end.

(** The two timestamps that the loop subtracts for a job, those of its
    first [queued] and first [running] event, parse and are both naive or
    both aware; a job that lacks one of the events has nothing to
    subtract. *)
Definition timestamps_subtract (events : list event) : Prop :=
  match head (List.filter (λ e, String.eqb (event_type e) "queued") events),
        head (List.filter (λ e, String.eqb (event_type e) "running") events)
  with
  | Some q, Some r =>
      ∃ a b, fromisoformat (timestamp r) = Some a ∧
             fromisoformat (timestamp q) = Some b ∧ aware a = aware b
  | _, _ => True
  end.

End WithClock.

(** Timestamps do not increase along the list (as strings). *)
Definition newest_first (acts : list activity) : Prop :=
  StronglySorted
    (λ a b, String.leb (activity_timestamp b) (activity_timestamp a) = true)
    acts.

(** A parser for the examples: it accepts no string. *)
Definition rejects_all (s : string) : option datetime := None.

End HistoricalAnalyzer.

(* ===================================================================== *)
(** * app.py: the callers of the four modules                             *)
(* ===================================================================== *)

Module App.

(** [needle in hay] on strings, as a test. *)
Fixpoint str_in (needle hay : string) : bool :=
  String.prefix needle hay ||
  match hay with
  | EmptyString => false
  | String _ rest => str_in needle rest
  end.

(** One row of [user_backends[user_id]], as [get_backends_for_user] builds
    it; [queue] and [qubits] are what the status lookup gave, a number or
    the string "Unknown". *)
Record backend_row : Type := BackendRow {
  row_name : string;
  row_qubits : pyval;
  row_queue : pyval;
  row_status : string;
  row_service_type : string;
  row_simulator : pyval
}.

(** The dictionary that [dashboard] builds for one row (lines 797-803). *)
Definition status_of_row (backend : backend_row) : gmap string pyval :=
  {[ "operational" := PBool (str_in "Available" (row_status backend));
     "pending_jobs" :=
       (if negb (py_eqb (row_queue backend) (PStr "Unknown"))
        then row_queue backend else PInt 0);
     "qubits" := row_qubits backend;
     "service_type" := PStr (row_service_type backend);
     "simulator" := row_simulator backend ]}.

(** [backend_status_dict] after the loop over [backends]. *)
Definition backend_status_dict (backends : list backend_row)
  : list (string * gmap string pyval) :=
  fold_left (λ d backend, odict_set (row_name backend) (status_of_row backend) d)
    backends [].

(** The recommendation block of [dashboard] (lines 790-810):
    [recommendations] starts as the empty list and stays so without a
    session user or when anything in the [try] raises. *)
Definition dashboard_recommendations (user_id : option string)
    (backends : list backend_row) : list BackendRecommender.recommendation :=
  match user_id with
  | Some u =>
      if decide (u = "") then []
      else
        match BackendRecommender.get_recommendations u
                (backend_status_dict backends) with
        | Returns recommendations => recommendations
        | Raises _ => []
        end
  | None => []
  end.

(** One element of [user_jobs[user_id]], as [process_job_for_display]
    builds it; the analytics route reads these four keys. *)
Record job_row : Type := JobRow {
  job_id : string;
  backend : string;
  status : string;
  creation_time : string
}.

Section Analytics.

(** [str.upper]. *)
Variable upper : string → string.
Variable fromisoformat : string → option HistoricalAnalyzer.datetime.

(** The loop [d[key(job)] = d.get(key(job), 0) + 1] over the jobs that
    pass [keep]. *)
Definition tally (keep : job_row → bool) (key : job_row → string)
    (jobs : list job_row) : list (pyval * Z) :=
  fold_left
    (λ d job,
       if keep job
       then counter_set (PStr (key job)) (counter_get (PStr (key job)) d + 1) d
       else d)
    jobs [].

(** [analytics_data] of the [analytics] route (lines 945-992), from the
    jobs shown on the jobs page and, when there are none, from the history
    store. *)
Definition analytics_data (user_id : option string) (jobs : list job_row)
    (history : list (string * list HistoricalAnalyzer.event))
  : outcome HistoricalAnalyzer.analytics :=
  match jobs with
  | _ :: _ =>
      let total_jobs := Z.of_nat (length jobs) in
      let success_count :=
        Z.of_nat (length
          (List.filter
             (λ j, bool_decide (upper (status j) ∈ ["DONE"; "COMPLETED"]))
             jobs)) in
      let success_rate :=
        if 0 <? total_jobs
        then round64 (round64 (inject_Z success_count / inject_Z total_jobs)
                      * 100)
        else 0%Q in
      let jobs_by_status := tally (λ _, true) (λ j, upper (status j)) jobs in
      let jobs_by_backend :=
        tally (λ j, negb (String.eqb (backend j) "Unknown")) backend jobs in
      Returns
        (HistoricalAnalyzer.Analytics total_jobs jobs_by_status jobs_by_backend
           0 success_rate
           ((λ j, HistoricalAnalyzer.Activity (job_id j) (status j)
                    (creation_time j)) <$> take 10 jobs))
  | [] =>
      (* a dictionary with six keys is never falsy: the [if not
         analytics_data] that follows the call has no effect *)
      HistoricalAnalyzer.get_analytics fromisoformat user_id history
  end.

End Analytics.

(** The two places that call [record_job_event] (lines 352-366 and
    405-417): a job submitted through the estimator, and one submitted
    through the sampler fallback. *)
Inductive submission : Type :=
| Estimator (now : Q) (jid backend_name circuit_type : string)
    (shots : pyval) (observable : string)
| EstimatorFallback (now : Q) (jid backend_name circuit_type : string)
    (shots : pyval).

Section WithClock.

Variable isoformat : Q → string.

Definition record_submission (s : submission)
    (history : list (string * list HistoricalAnalyzer.event))
  : list (string * list HistoricalAnalyzer.event) :=
  match s with
  | Estimator now jid backend_name circuit_type shots observable =>
      HistoricalAnalyzer.record_job_event isoformat now jid
        "submitted_estimator" None
        (Some {[ "backend" := PStr backend_name;
                 "circuit_type" := PStr circuit_type;
                 "shots" := shots;
                 "observable" := PStr observable;
                 "job_type" := PStr "estimator" ]})
        history
  | EstimatorFallback now jid backend_name circuit_type shots =>
      HistoricalAnalyzer.record_job_event isoformat now jid
        "submitted_estimator_fallback" None
        (Some {[ "backend" := PStr backend_name;
                 "circuit_type" := PStr circuit_type;
                 "shots" := shots;
                 "job_type" := PStr "sampler_fallback" ]})
        history
  end.

Definition run_submissions (subs : list submission)
    (history : list (string * list HistoricalAnalyzer.event))
  : list (string * list HistoricalAnalyzer.event) :=
  fold_left (λ h s, record_submission s h) subs history.

End WithClock.

(** An event as the application records it: one of the two submission
    events, its payload without a [user_id]. *)
Definition submission_event (e : HistoricalAnalyzer.event) : Prop :=
  (HistoricalAnalyzer.event_type e = "submitted_estimator" ∨
   HistoricalAnalyzer.event_type e = "submitted_estimator_fallback") ∧
  HistoricalAnalyzer.data e !! "user_id" = None.

(** A stand-in for [str.upper] in the examples: it leaves the text as it
    is, which is what [upper] does to text in capitals. *)
Definition already_upper (s : string) : string := s.

End App.

(* ===================================================================== *)
(** * Properties of the built-ins                                         *)
(* ===================================================================== *)

Lemma Qltb_lt (x y : Q) : Qltb x y = true ↔ (x < y)%Q.
Proof. unfold Qltb, Qlt. apply Z.ltb_lt. Qed.

Lemma Qltb_ge (x y : Q) : Qltb x y = false ↔ (y <= x)%Q.
Proof. unfold Qltb, Qle. apply Z.ltb_ge. Qed.

Lemma length_slice_last {A} (n : nat) (xs : list A) :
  length (slice_last n xs) = (length xs `min` n)%nat.
Proof. unfold slice_last. rewrite length_drop. lia. Qed.

Lemma slice_last_short {A} (n : nat) (xs : list A) :
  (length xs ≤ n)%nat → slice_last n xs = xs.
Proof.
  intros Hle. unfold slice_last.
  replace (length xs - n)%nat with 0%nat by lia. done.
Qed.

Lemma slice_last_app {A} (n : nat) (xs ys : list A) :
  (n ≤ length ys)%nat → slice_last n (xs ++ ys) = slice_last n ys.
Proof.
  intros Hle. unfold slice_last.
  rewrite length_app, drop_app.
  rewrite drop_ge by lia. simpl. f_equal. lia.
Qed.

(** Trimming before an append is absorbed by trimming after it. *)
Lemma slice_last_snoc {A} (n : nat) (xs : list A) (x : A) :
  slice_last n (slice_last n xs ++ [x]) = slice_last n (xs ++ [x]).
Proof.
  destruct (decide (length xs ≤ n)%nat) as [Hle|Hgt].
  - by rewrite (slice_last_short n xs).
  - unfold slice_last.
    rewrite !length_app, length_drop, !drop_app, drop_drop, length_drop.
    simpl. f_equal; f_equal; lia.
Qed.

Lemma capped_push_lookup {A} cap (k k' : string) (x : A) m :
  default [] (capped_push cap k x m !! k') =
  if decide (k = k') then slice_last cap (default [] (m !! k) ++ [x])
  else default [] (m !! k').
Proof.
  unfold capped_push. destruct (decide (k = k')) as [->|Hne].
  - by rewrite lookup_insert_eq.
  - by rewrite lookup_insert_ne.
Qed.

(* ===================================================================== *)
(** * Properties of the numbers                                           *)
(* ===================================================================== *)

(** ** Rounding to double precision *)

Lemma pow2_pos e : (0 < pow2 e)%Q.
Proof. apply Qpower_0_lt. reflexivity. Qed.

Lemma pow2_add a b : (pow2 (a + b) == pow2 a * pow2 b)%Q.
Proof. apply Qpower_plus. discriminate. Qed.

Lemma pow2_Z e : 0 <= e → (pow2 e == inject_Z (2 ^ e))%Q.
Proof. intros. unfold pow2. rewrite Zpower_Qpower by done. reflexivity. Qed.

Lemma pow2_le a b : a <= b → (pow2 a <= pow2 b)%Q.
Proof. intros. apply Qpower_le_compat_l; [done|]. discriminate. Qed.

Lemma pow2_lt a b : a < b → (pow2 a < pow2 b)%Q.
Proof. intros. apply Qpower_lt_compat_l; [done|]. reflexivity. Qed.

Lemma pow2_lt_inv a b : (pow2 a < pow2 b)%Q → a < b.
Proof. intros. eapply Qpower_lt_compat_l_inv; [eassumption|]. reflexivity. Qed.


Lemma rne_proper (x y : Q) : (x == y)%Q → rne x = rne y.
Proof.
  intros E. unfold rne. rewrite (Qfloor_comp _ _ E).
  assert (Ec : (x - inject_Z (Qfloor y) ?= 1 # 2)%Q = (y - inject_Z (Qfloor y) ?= 1 # 2)%Q).
  { apply Qcompare_comp; [|reflexivity]. rewrite E. reflexivity. }
  rewrite Ec. reflexivity.
Qed.

Lemma rne_floor x : Qfloor x <= rne x <= Qfloor x + 1.
Proof. unfold rne. destruct (_ ?= _)%Q; [destruct (Z.even _)|..]; lia. Qed.

Lemma rne_ceiling x : rne x <= Qceiling x.
Proof.
  pose proof (Qle_floor_ceiling x) as Hfc.
  destruct (Z.eq_dec (Qfloor x) (Qceiling x)) as [E|N].
  - (* x is an integer *)
    assert (Hx : (x == inject_Z (Qfloor x))%Q).
    { apply Qle_antisym; [|apply Qfloor_le]. rewrite E. apply Qle_ceiling. }
    rewrite (rne_proper _ _ Hx). unfold rne. rewrite Qfloor_Z.
    assert (Hc : (inject_Z (Qfloor x) - inject_Z (Qfloor x) ?= 1 # 2)%Q = Lt).
    { apply (proj1 (Qlt_alt _ _)). ring_simplify. reflexivity. }
    rewrite Hc, <- E. apply Z.le_refl.
  - pose proof (rne_floor x) as Hr. rewrite <- Zle_Qle in Hfc. lia.
Qed.

Lemma rne_Z z : rne (inject_Z z) = z.
Proof.
  unfold rne. rewrite Qfloor_Z.
  assert (Hc : (inject_Z z - inject_Z z ?= 1 # 2)%Q = Lt).
  { apply (proj1 (Qlt_alt _ _)). ring_simplify. reflexivity. }
  rewrite Hc. reflexivity.
Qed.

Lemma rne_mono x y : (x <= y)%Q → rne x <= rne y.
Proof.
  intros Hxy. pose proof (Qfloor_resp_le _ _ Hxy) as Hf.
  destruct (Z.eq_dec (Qfloor x) (Qfloor y)) as [E|N].
  - unfold rne. rewrite E.
    assert (Hr : (x - inject_Z (Qfloor y) <= y - inject_Z (Qfloor y))%Q).
    { apply Qplus_le_l. done. }
    destruct (x - inject_Z (Qfloor y) ?= 1 # 2)%Q eqn:Cx;
      destruct (y - inject_Z (Qfloor y) ?= 1 # 2)%Q eqn:Cy;
      try (destruct (Z.even _); lia); try lia.
    + apply (proj2 (Qeq_alt _ _)) in Cx. apply (proj2 (Qlt_alt _ _)) in Cy. rewrite Cx in Hr.
      exfalso. eapply Qlt_irrefl, Qle_lt_trans; eassumption.
    + apply (proj2 (Qgt_alt _ _)) in Cx. apply (proj2 (Qeq_alt _ _)) in Cy. rewrite Cy in Hr.
      exfalso. eapply Qlt_irrefl, Qle_lt_trans; eassumption.
    + apply (proj2 (Qgt_alt _ _)) in Cx. apply (proj2 (Qlt_alt _ _)) in Cy.
      exfalso. eapply Qlt_irrefl, Qlt_trans; [|exact Cx].
      eapply Qle_lt_trans; eassumption.
  - pose proof (rne_floor x). pose proof (rne_floor y). lia.
Qed.

Lemma expo_spec x : (0 < x)%Q → (pow2 (expo x) <= x ∧ x < pow2 (expo x + 1))%Q.
Proof.
  intros Hx. unfold expo. destruct (Qltb x 1) eqn:C.
  - apply Qltb_lt in C.
    assert (Hy : (1 < / x)%Q).
    { apply Qlt_shift_inv_l; [done|]. rewrite Qmult_1_l. done. }
    set (c := Qceiling (/ x)).
    assert (Hc : 1 < c).
    { assert (H1 : (inject_Z 1 < inject_Z c)%Q).
      { eapply Qlt_le_trans; [exact Hy|apply Qle_ceiling]. }
      rewrite <- Zlt_Qlt in H1. done. }
    pose proof (Z.log2_up_spec c Hc) as [Hlo Hhi].
    pose proof (Z.log2_up_nonneg c) as Hk.
    set (k := Z.log2_up c) in *.
    assert (Hk1 : 1 <= k).
    { destruct (Z.eq_dec k 0) as [E|]; [|lia]. rewrite E in Hhi. simpl in Hhi. lia. }
    split.
    + (* pow2 (-k) <= x *)
      unfold pow2. rewrite Qpower_opp. fold (pow2 k). rewrite pow2_Z by lia.
      apply Qle_shift_inv_r.
      * rewrite <- (pow2_Z k) by lia. apply pow2_pos.
      * assert (H2 : (/ x <= inject_Z (2 ^ k))%Q).
        { eapply Qle_trans; [apply Qle_ceiling|]. rewrite <- Zle_Qle. exact Hhi. }
        apply (Qmult_le_l _ _ x) in H2; [|done].
        rewrite Qmult_inv_r in H2 by (intros E; rewrite E in Hx; discriminate).
        exact H2.
    + replace (- k + 1) with (- (k - 1)) by lia.
      unfold pow2. rewrite Qpower_opp. fold (pow2 (k - 1)). rewrite pow2_Z by lia.
      assert (H2 : (inject_Z (2 ^ (k - 1)) < / x)%Q).
      { eapply Qle_lt_trans; [|apply Qceiling_lt]. rewrite <- Zle_Qle.
        fold c. replace (Z.pred k) with (k - 1) in Hlo by lia. lia. }
      apply Qlt_shift_inv_l.
      * rewrite <- (pow2_Z (k - 1)) by lia. apply pow2_pos.
      * apply (Qmult_lt_l _ _ x) in H2; [|done].
        rewrite Qmult_inv_r in H2 by (intros E; rewrite E in Hx; discriminate).
        exact H2.
  - apply Qltb_ge in C.
    assert (Hf : 0 < Qfloor x).
    { assert (H1 : Qfloor (inject_Z 1) <= Qfloor x) by (apply Qfloor_resp_le; done).
      rewrite Qfloor_Z in H1. lia. }
    pose proof (Z.log2_spec _ Hf) as [Hlo Hhi].
    pose proof (Z.log2_nonneg (Qfloor x)) as Hk.
    set (k := Z.log2 (Qfloor x)) in *.
    split.
    + rewrite pow2_Z by lia. eapply Qle_trans; [|apply Qfloor_le].
      rewrite <- Zle_Qle. done.
    + rewrite pow2_Z by lia. eapply Qlt_le_trans; [apply Qlt_floor|].
      rewrite <- Zle_Qle. replace (Z.succ k) with (k + 1) in Hhi by lia. lia.
Qed.

Lemma ulp_pos x : (0 < ulp x)%Q.
Proof. apply pow2_pos. Qed.

Lemma expo_mono x y : (0 < x)%Q → (x <= y)%Q → expo x <= expo y.
Proof.
  intros Hx Hxy.
  assert (Hy : (0 < y)%Q) by (eapply Qlt_le_trans; eassumption).
  destruct (expo_spec x Hx) as [Hlo _]. destruct (expo_spec y Hy) as [_ Hhi].
  assert (H : (pow2 (expo x) < pow2 (expo y + 1))%Q).
  { eapply Qle_lt_trans; [exact Hlo|]. eapply Qle_lt_trans; eassumption. }
  apply pow2_lt_inv in H. lia.
Qed.

Lemma scaled_upper x :
  (0 < x)%Q → (x / ulp x < inject_Z (2 ^ 53))%Q.
Proof.
  intros Hx. apply Qlt_shift_div_r; [apply ulp_pos|].
  destruct (expo_spec x Hx) as [_ Hhi].
  eapply Qlt_le_trans; [exact Hhi|].
  unfold ulp. rewrite <- (pow2_Z 53) by lia. rewrite <- pow2_add.
  apply pow2_le. lia.
Qed.

Lemma scaled_lower x :
  (0 < x)%Q → emin <= expo x → (inject_Z (2 ^ 52) <= x / ulp x)%Q.
Proof.
  intros Hx He. apply Qle_shift_div_l; [apply ulp_pos|].
  destruct (expo_spec x Hx) as [Hlo _].
  eapply Qle_trans; [|exact Hlo].
  unfold ulp. rewrite <- (pow2_Z 52) by lia. rewrite <- pow2_add.
  apply pow2_le. lia.
Qed.

Lemma round_pos_eq x : (round_pos x == inject_Z (rne (x / ulp x)) * ulp x)%Q.
Proof. unfold round_pos. apply Qred_correct. Qed.

Lemma round_pos_nonneg x : (0 < x)%Q → (0 <= round_pos x)%Q.
Proof.
  intros Hx. rewrite round_pos_eq. apply Qmult_le_0_compat.
  - change 0%Q with (inject_Z 0). rewrite <- Zle_Qle.
    etrans; [|apply rne_floor].
    assert (H : Qfloor (inject_Z 0) <= Qfloor (x / ulp x)).
    { apply Qfloor_resp_le. apply Qle_shift_div_l; [apply ulp_pos|].
      rewrite Qmult_0_l. apply Qlt_le_weak; done. }
    rewrite Qfloor_Z in H. done.
  - apply Qlt_le_weak, ulp_pos.
Qed.

Lemma round_pos_upper x :
  (0 < x)%Q → (round_pos x <= pow2 (Z.max (expo x) emin + 1))%Q.
Proof.
  intros Hx. rewrite round_pos_eq.
  assert (H : rne (x / ulp x) <= 2 ^ 53).
  { etrans; [apply rne_ceiling|].
    assert (H1 : Qceiling (x / ulp x) <= Qceiling (inject_Z (2 ^ 53))).
    { apply Qceiling_resp_le, Qlt_le_weak, scaled_upper; done. }
    rewrite Qceiling_Z in H1. done. }
  rewrite Zle_Qle in H.
  apply (Qmult_le_r _ _ (ulp x)) in H; [|apply ulp_pos].
  eapply Qle_trans; [exact H|].
  unfold ulp. rewrite <- (pow2_Z 53) by lia. rewrite <- pow2_add.
  apply pow2_le. lia.
Qed.

Lemma round_pos_lower x :
  (0 < x)%Q → emin <= expo x → (pow2 (expo x) <= round_pos x)%Q.
Proof.
  intros Hx He. rewrite round_pos_eq.
  assert (H : 2 ^ 52 <= rne (x / ulp x)).
  { etrans; [|apply rne_floor].
    assert (H1 : Qfloor (inject_Z (2 ^ 52)) <= Qfloor (x / ulp x)).
    { apply Qfloor_resp_le, scaled_lower; done. }
    rewrite Qfloor_Z in H1. done. }
  rewrite Zle_Qle in H.
  apply (Qmult_le_r _ _ (ulp x)) in H; [|apply ulp_pos].
  eapply Qle_trans; [|exact H].
  unfold ulp. rewrite <- (pow2_Z 52) by lia. rewrite <- pow2_add.
  apply pow2_le. lia.
Qed.

Lemma round_pos_mono x y :
  (0 < x)%Q → (x <= y)%Q → (round_pos x <= round_pos y)%Q.
Proof.
  intros Hx Hxy.
  assert (Hy : (0 < y)%Q) by (eapply Qlt_le_trans; eassumption).
  pose proof (expo_mono x y Hx Hxy) as He.
  destruct (Z.eq_dec (Z.max (expo x) emin) (Z.max (expo y) emin)) as [E|N].
  - assert (Eu : ulp x = ulp y) by (unfold ulp; rewrite E; reflexivity).
    rewrite !round_pos_eq, Eu.
    apply Qmult_le_r; [apply ulp_pos|]. rewrite <- Zle_Qle.
    apply rne_mono. apply Qmult_le_r; [apply Qinv_lt_0_compat, ulp_pos|done].
  - eapply Qle_trans; [apply round_pos_upper; done|].
    eapply Qle_trans; [|apply round_pos_lower; [done|lia]].
    apply pow2_le. lia.
Qed.

Lemma round_pos_exact x n :
  (0 < x)%Q → (x / ulp x == inject_Z n)%Q → (round_pos x == x)%Q.
Proof.
  intros Hx Hn. rewrite round_pos_eq, (rne_proper _ _ Hn), rne_Z, <- Hn.
  field. intros E. pose proof (ulp_pos x) as H. rewrite E in H. discriminate.
Qed.

Lemma round_pos_Z z :
  0 < z < 2 ^ 53 → (round_pos (inject_Z z) == inject_Z z)%Q.
Proof.
  intros [Hz Hb].
  assert (Hx : (0 < inject_Z z)%Q).
  { change 0%Q with (inject_Z 0). rewrite <- Zlt_Qlt. done. }
  destruct (expo_spec _ Hx) as [Hlo _].
  assert (He : expo (inject_Z z) < 53).
  { apply pow2_lt_inv. eapply Qle_lt_trans; [exact Hlo|].
    rewrite pow2_Z by lia. rewrite <- Zlt_Qlt. done. }
  set (e := Z.max (expo (inject_Z z)) emin).
  assert (Hu : (ulp (inject_Z z) == / inject_Z (2 ^ (52 - e)))%Q).
  { unfold ulp. fold e. replace (e - 52) with (- (52 - e)) by lia.
    unfold pow2. rewrite Qpower_opp. fold (pow2 (52 - e)).
    rewrite pow2_Z by (unfold e, emin; lia). reflexivity. }
  apply (round_pos_exact _ (z * 2 ^ (52 - e))); [done|].
  rewrite Hu, inject_Z_mult. unfold Qdiv. rewrite Qinv_involutive. reflexivity.
Qed.

Lemma round64_0 : round64 0 = 0%Q.
Proof. reflexivity. Qed.

Lemma round64_pos x : (0 < x)%Q → round64 x = round_pos x.
Proof.
  intros H. unfold round64. apply (proj1 (Qgt_alt _ _)) in H. rewrite H. done.
Qed.

Lemma round64_neg x : (x < 0)%Q → round64 x = (- round_pos (- x))%Q.
Proof.
  intros H. unfold round64. apply (proj1 (Qlt_alt _ _)) in H. rewrite H. done.
Qed.

Lemma round64_zero x : (x == 0)%Q → round64 x = 0%Q.
Proof.
  intros H. unfold round64. apply (proj1 (Qeq_alt _ _)) in H. rewrite H. done.
Qed.

Lemma round64_nonneg x : (0 <= x)%Q → (0 <= round64 x)%Q.
Proof.
  intros H. destruct (Qlt_le_dec 0 x) as [Hp|Hn].
  - rewrite round64_pos by done. apply round_pos_nonneg; done.
  - rewrite round64_zero; [apply Qle_refl|]. apply Qle_antisym; done.
Qed.

Lemma round64_nonpos x : (x <= 0)%Q → (round64 x <= 0)%Q.
Proof.
  intros H. destruct (Qlt_le_dec x 0) as [Hp|Hn].
  - rewrite round64_neg by done.
    assert (H0 : (0 <= round_pos (- x))%Q).
    { apply round_pos_nonneg. apply (Qopp_lt_compat x 0) in Hp. exact Hp. }
    apply (Qopp_le_compat 0) in H0. exact H0.
  - rewrite round64_zero; [apply Qle_refl|]. apply Qle_antisym; done.
Qed.

Lemma round64_mono x y : (x <= y)%Q → (round64 x <= round64 y)%Q.
Proof.
  intros Hxy.
  destruct (Qlt_le_dec 0 x) as [Hx|Hx].
  - assert (Hy : (0 < y)%Q) by (eapply Qlt_le_trans; eassumption).
    rewrite !round64_pos by done. apply round_pos_mono; done.
  - destruct (Qlt_le_dec 0 y) as [Hy|Hy].
    + eapply Qle_trans; [apply round64_nonpos; done|].
      apply round64_nonneg, Qlt_le_weak; done.
    + destruct (Qlt_le_dec y 0) as [Hy'|Hy'].
      * assert (Hx' : (x < 0)%Q) by (apply (Qle_lt_trans _ y); done).
        rewrite !round64_neg by done. apply Qopp_le_compat.
        apply round_pos_mono.
        -- apply (Qopp_lt_compat y 0) in Hy'. exact Hy'.
        -- apply Qopp_le_compat; done.
      * rewrite (round64_zero y) by (apply Qle_antisym; done).
        apply round64_nonpos; done.
Qed.

Lemma round64_Z z :
  - 2 ^ 53 < z < 2 ^ 53 → (round64 (inject_Z z) == inject_Z z)%Q.
Proof.
  intros [Hlo Hhi].
  destruct (Z.lt_trichotomy z 0) as [Hz|[->|Hz]].
  - rewrite round64_neg by (change 0%Q with (inject_Z 0); rewrite <- Zlt_Qlt; done).
    change (- inject_Z z)%Q with (inject_Z (- z)).
    rewrite round_pos_Z by lia.
    rewrite inject_Z_opp. apply Qopp_involutive.
  - reflexivity.
  - rewrite round64_pos by (change 0%Q with (inject_Z 0); rewrite <- Zlt_Qlt; done).
    apply round_pos_Z. lia.
Qed.

Lemma Qltb_proper x x' y y' : (x == x')%Q → (y == y')%Q → Qltb x y = Qltb x' y'.
Proof.
  intros Ex Ey. destruct (Qltb x' y') eqn:C.
  - apply Qltb_lt. apply Qltb_lt in C. rewrite Ex, Ey. done.
  - apply Qltb_ge. apply Qltb_ge in C. rewrite Ex, Ey. done.
Qed.

Lemma expo_proper (x y : Q) : (x == y)%Q → expo x = expo y.
Proof.
  intros E. unfold expo.
  rewrite (Qltb_proper x y 1 1 E) by reflexivity.
  rewrite (Qfloor_comp _ _ E).
  assert (Ei : (/ x == / y)%Q) by (rewrite E; reflexivity).
  rewrite (Qceiling_comp _ _ Ei). reflexivity.
Qed.

Lemma round_pos_proper (x y : Q) : (x == y)%Q → round_pos x = round_pos y.
Proof.
  intros E. unfold round_pos, ulp. rewrite (expo_proper _ _ E).
  assert (Ed : (x / pow2 (Z.max (expo y) emin - 52)
                == y / pow2 (Z.max (expo y) emin - 52))%Q)
    by (rewrite E; reflexivity).
  rewrite (rne_proper _ _ Ed). reflexivity.
Qed.

Lemma round64_proper (x y : Q) : (x == y)%Q → round64 x = round64 y.
Proof.
  intros E. unfold round64.
  assert (Ec : (x ?= 0)%Q = (y ?= 0)%Q) by (apply Qcompare_comp; [done|reflexivity]).
  rewrite Ec.
  assert (En : (- x == - y)%Q) by (rewrite E; reflexivity).
  rewrite (round_pos_proper _ _ E), (round_pos_proper _ _ En). reflexivity.
Qed.

Lemma round_pos_dyadic j e :
  0 < j < 2 ^ 53 → -1074 ≤ e →
  (round_pos (inject_Z j * pow2 e) == inject_Z j * pow2 e)%Q.
Proof.
  intros [Hj Hb] He.
  set (x := (inject_Z j * pow2 e)%Q).
  assert (Hx : (0 < x)%Q).
  { apply Qmult_lt_0_compat; [|apply pow2_pos].
    change 0%Q with (inject_Z 0). rewrite <- Zlt_Qlt. done. }
  destruct (expo_spec _ Hx) as [Hlo _].
  assert (Hexp : expo x < 53 + e).
  { apply pow2_lt_inv. eapply Qle_lt_trans; [exact Hlo|].
    rewrite pow2_add, (pow2_Z 53) by lia. unfold x.
    apply Qmult_lt_r; [apply pow2_pos|]. rewrite <- Zlt_Qlt. done. }
  set (u := Z.max (expo x) emin - 52).
  assert (Hu : u ≤ e) by (unfold u, emin; lia).
  apply (round_pos_exact _ (j * 2 ^ (e - u))); [done|].
  unfold ulp. fold u. unfold x.
  replace e with ((e - u) + u) at 1 by lia.
  rewrite pow2_add, (pow2_Z (e - u)) by lia. rewrite inject_Z_mult.
  field. intros E. pose proof (pow2_pos u) as H. rewrite E in H. discriminate.
Qed.

Lemma round64_opp x : (round64 (- x) == - round64 x)%Q.
Proof.
  destruct (Q_dec x 0) as [[Hn|Hp]|Hz].
  - rewrite (round64_neg x) by done.
    rewrite round64_pos by (apply (Qopp_lt_compat x 0) in Hn; exact Hn).
    symmetry. apply Qopp_involutive.
  - rewrite (round64_pos x) by done.
    rewrite round64_neg by (apply (Qopp_lt_compat 0 x) in Hp; exact Hp).
    rewrite (round_pos_proper _ _ (Qopp_involutive x)). reflexivity.
  - rewrite (round64_zero x) by done.
    rewrite round64_zero; [reflexivity|]. rewrite Hz. reflexivity.
Qed.

Lemma round64_dyadic j e :
  - 2 ^ 53 < j < 2 ^ 53 → -1074 ≤ e →
  (round64 (inject_Z j * pow2 e) == inject_Z j * pow2 e)%Q.
Proof.
  intros [Hlo Hhi] He.
  assert (Hpos : ∀ k, 0 < k < 2 ^ 53 →
            (round64 (inject_Z k * pow2 e) == inject_Z k * pow2 e)%Q).
  { intros k Hk. rewrite round64_pos; [by apply round_pos_dyadic|].
    apply Qmult_lt_0_compat; [|apply pow2_pos].
    change 0%Q with (inject_Z 0). rewrite <- Zlt_Qlt. lia. }
  destruct (Z.lt_trichotomy j 0) as [Hj|[->|Hj]].
  - assert (E : (inject_Z j * pow2 e == - (inject_Z (- j) * pow2 e))%Q).
    { rewrite inject_Z_opp. ring. }
    rewrite (round64_proper _ _ E), round64_opp, Hpos by lia.
    rewrite inject_Z_opp. ring.
  - rewrite round64_zero; ring.
  - apply Hpos. lia.
Qed.

(** ** Floats and numbers *)

Lemma float_limit_pos : (0 < inject_Z float_limit)%Q.
Proof. reflexivity. Qed.

Lemma to_float_cases x :
  (to_float x = PosInf ∧ (inject_Z float_limit <= x)%Q) ∨
  (to_float x = NegInf ∧ (x <= inject_Z (- float_limit))%Q) ∨
  (to_float x = Finite (round64 x) ∧
   (inject_Z (- float_limit) < x)%Q ∧ (x < inject_Z float_limit)%Q).
Proof.
  unfold to_float. destruct (Qltb x (inject_Z float_limit)) eqn:Hhi.
  - destruct (Qltb (inject_Z (- float_limit)) x) eqn:Hlo.
    + right. right. apply Qltb_lt in Hhi, Hlo. done.
    + right. left. apply Qltb_ge in Hlo. done.
  - left. apply Qltb_ge in Hhi. done.
Qed.

Lemma to_float_finite x :
  (inject_Z (- float_limit) < x)%Q → (x < inject_Z float_limit)%Q →
  to_float x = Finite (round64 x).
Proof.
  intros Hlo Hhi. unfold to_float.
  apply Qltb_lt in Hlo, Hhi. by rewrite Hhi, Hlo.
Qed.

Lemma to_float_nonneg x : (0 <= x)%Q → nonneg (to_float x).
Proof.
  intros Hx. destruct (to_float_cases x) as [[-> _]|[[_ Hneg]|[-> _]]]; simpl.
  - done.
  - exfalso. apply (Qlt_irrefl 0).
    eapply Qle_lt_trans; [exact Hx|]. eapply Qle_lt_trans; [exact Hneg|]. reflexivity.
  - by apply round64_nonneg.
Qed.

(** A result that is not positive does not round to something positive. *)
Lemma to_float_nonpos x : (x <= 0)%Q → flt (Finite 0) (to_float x) = false.
Proof.
  intros Hx. destruct (to_float_cases x) as [[_ Hpos]|[[-> _]|[-> _]]]; simpl.
  - exfalso. apply (Qlt_irrefl 0).
    eapply Qlt_le_trans; [apply float_limit_pos|]. eapply Qle_trans; eassumption.
  - done.
  - apply Qltb_ge. by apply round64_nonpos.
Qed.

Lemma to_float_mono x y : (x <= y)%Q → fle (to_float x) (to_float y).
Proof.
  intros Hxy.
  destruct (to_float_cases x) as [[-> Hx]|[[-> Hx]|[-> [Hx1 Hx2]]]];
    destruct (to_float_cases y) as [[-> Hy]|[[-> Hy]|[-> [Hy1 Hy2]]]];
    simpl; try done.
  - apply (Qlt_irrefl (inject_Z float_limit)).
    eapply Qle_lt_trans; [exact Hx|].
    eapply Qle_lt_trans; [exact Hxy|]. eapply Qle_lt_trans; [exact Hy|]. reflexivity.
  - apply (Qlt_irrefl y).
    eapply Qlt_le_trans; [exact Hy2|]. eapply Qle_trans; eassumption.
  - apply (Qlt_irrefl x).
    eapply Qle_lt_trans; [exact Hxy|]. eapply Qle_lt_trans; eassumption.
  - by apply round64_mono.
Qed.

Lemma to_float_Finite_rounded x r : to_float x = Finite r → r = round64 x.
Proof.
  destruct (to_float_cases x) as [[-> _]|[[-> _]|[-> _]]]; congruence.
Qed.

Lemma float_of_int_Returns z f :
  float_of_int z = Returns f →
  f = Finite (round64 (inject_Z z)) ∧
  (inject_Z (- float_limit) < inject_Z z)%Q ∧ (inject_Z z < inject_Z float_limit)%Q.
Proof.
  unfold float_of_int.
  destruct (to_float_cases (inject_Z z)) as [[-> _]|[[-> _]|[-> H]]]; try done.
  intros [= <-]. done.
Qed.

Lemma float_of_int_Raises z e : float_of_int z = Raises e → e = OverflowError.
Proof.
  unfold float_of_int. destruct (to_float _); congruence.
Qed.

Lemma float_of_int_within z :
  - float_limit < z < float_limit →
  float_of_int z = Returns (Finite (round64 (inject_Z z))).
Proof.
  intros [Hlo Hhi]. unfold float_of_int.
  rewrite to_float_finite; [done|by rewrite <- Zlt_Qlt..].
Qed.

Lemma as_float_Raises a e : as_float a = Raises e → e = OverflowError.
Proof. destruct a; simpl; [apply float_of_int_Raises|done]. Qed.

Lemma as_float_nonneg a f :
  nonneg (exact a) → as_float a = Returns f → nonneg f.
Proof.
  destruct a as [z|g]; simpl; [|by intros ? [= <-]].
  intros Hz Hf. apply float_of_int_Returns in Hf as [-> _]. simpl.
  by apply round64_nonneg.
Qed.

Lemma fadd_nonneg a b : nonneg a → nonneg b → nonneg (fadd a b).
Proof.
  destruct a as [x| | |], b as [y| | |]; simpl; try done.
  intros Hx Hy. apply to_float_nonneg.
  replace 0%Q with (0 + 0)%Q by reflexivity. by apply Qplus_le_compat.
Qed.

Lemma num_add_Raises a b e : num_add a b = Raises e → e = OverflowError.
Proof.
  destruct a as [x|f], b as [y|g]; simpl; try done.
  - destruct (float_of_int x) eqn:H; simpl; [done|].
    intros [= <-]. by apply float_of_int_Raises in H.
  - destruct (float_of_int y) eqn:H; simpl; [done|].
    intros [= <-]. by apply float_of_int_Raises in H.
Qed.

Lemma num_add_nonneg a b c :
  nonneg (exact a) → nonneg (exact b) → num_add a b = Returns c →
  nonneg (exact c).
Proof.
  intros Ha Hb. unfold num_add.
  destruct a as [x|f], b as [y|g].
  - intros [= <-]. simpl in *.
    rewrite inject_Z_plus.
    replace 0%Q with (0 + 0)%Q by reflexivity. by apply Qplus_le_compat.
  - destruct (as_float (Int x)) as [fx|] eqn:Hx; [|done]. simpl.
    intros [= <-]. simpl. apply fadd_nonneg; [|done].
    by apply (as_float_nonneg (Int x)).
  - simpl. destruct (float_of_int y) as [fy|] eqn:Hy; [|done]. simpl.
    intros [= <-]. simpl. apply fadd_nonneg; [done|].
    by apply (as_float_nonneg (Int y)).
  - simpl. intros [= <-]. simpl. by apply fadd_nonneg.
Qed.

Lemma sum_from_nonneg xs : ∀ acc s,
  nonneg (exact acc) → Forall (λ x, nonneg (exact x)) xs →
  sum_from acc xs = Returns s → nonneg (exact s).
Proof.
  induction xs as [|x xs IH]; intros acc s Hacc Hxs; simpl.
  - by intros [= <-].
  - inversion Hxs as [|? ? Hx Hrest]; subst.
    destruct (num_add acc x) as [acc'|] eqn:Hadd; [|done]. simpl.
    apply IH; [|done]. by apply (num_add_nonneg acc x).
Qed.

Lemma sum_from_Raises xs : ∀ acc e,
  sum_from acc xs = Raises e → e = OverflowError.
Proof.
  induction xs as [|x xs IH]; intros acc e; simpl; [done|].
  destruct (num_add acc x) as [acc'|e'] eqn:Hadd; simpl.
  - apply IH.
  - intros [= <-]. by apply num_add_Raises in Hadd.
Qed.

(** The double of a positive whole number is at least 1. *)
Lemma round64_Z_ge_1 n : 1 ≤ n → (1 <= round64 (inject_Z n))%Q.
Proof.
  intros Hn. assert (H1 : (round64 (inject_Z 1) == 1)%Q) by reflexivity.
  rewrite <- H1 at 1. apply round64_mono. rewrite <- Zle_Qle. done.
Qed.

Lemma Qeq_bool_pos d : (0 < d)%Q → Qeq_bool d 0 = false.
Proof.
  intros Hd. destruct (Qeq_bool d 0) eqn:E; [|done].
  apply Qeq_bool_iff in E. rewrite E in Hd. discriminate.
Qed.

Lemma Qdiv_nonneg (x y : Q) : (0 <= x)%Q → (0 < y)%Q → (0 <= x / y)%Q.
Proof.
  intros Hx Hy. apply Qle_shift_div_l; [done|]. by rewrite Qmult_0_l.
Qed.

Lemma inject_Z_pos n : 0 < n → (0 < inject_Z n)%Q.
Proof. intros. change 0%Q with (inject_Z 0). by rewrite <- Zlt_Qlt. Qed.

Lemma inject_Z_nonneg n : 0 ≤ n → (0 <= inject_Z n)%Q.
Proof. intros. change 0%Q with (inject_Z 0). by rewrite <- Zle_Qle. Qed.

Lemma num_truediv_nonneg a n f :
  nonneg (exact a) → 1 ≤ n → num_truediv a (Int n) = Returns f → nonneg f.
Proof.
  intros Ha Hn. unfold num_truediv. destruct a as [x|g].
  - simpl in Ha. destruct (n =? 0) eqn:Hn0; [done|].
    pose proof (to_float_nonneg (inject_Z x / inject_Z n)) as Hq.
    destruct (to_float _) as [r| | |]; try done.
    intros [= <-]. apply Hq.
    apply Qdiv_nonneg; [done|]. apply inject_Z_pos. lia.
  - simpl. destruct (float_of_int n) as [fn|] eqn:Hfn; [|done]. simpl.
    apply float_of_int_Returns in Hfn as [-> _].
    pose proof (round64_Z_ge_1 n Hn) as H1.
    set (d := round64 (inject_Z n)) in *.
    assert (Hd : (0 < d)%Q) by (eapply Qlt_le_trans; [|exact H1]; reflexivity).
    unfold fdiv. rewrite (Qeq_bool_pos d Hd).
    assert (Hneg : Qltb d 0 = false) by (apply Qltb_ge, Qlt_le_weak; done).
    simpl in Ha. destruct g as [x| | |]; try done.
    + intros [= <-]. apply to_float_nonneg. by apply Qdiv_nonneg.
    + rewrite Hneg. by intros [= <-].
Qed.

Lemma num_truediv_Raises a n e :
  1 ≤ n → num_truediv a (Int n) = Raises e → e = OverflowError.
Proof.
  intros Hn. unfold num_truediv. destruct a as [x|g].
  - destruct (n =? 0) eqn:Hn0; [apply Z.eqb_eq in Hn0; lia|].
    destruct (to_float _); congruence.
  - simpl. destruct (float_of_int n) as [fn|] eqn:Hfn; simpl.
    + apply float_of_int_Returns in Hfn as [-> _].
      pose proof (round64_Z_ge_1 n Hn) as H1.
      assert (Hd : (0 < round64 (inject_Z n))%Q)
        by (eapply Qlt_le_trans; [|exact H1]; reflexivity).
      unfold fdiv. rewrite (Qeq_bool_pos _ Hd). by destruct g.
    + intros [= <-]. by apply float_of_int_Raises in Hfn.
Qed.

(** [x > 0] on the extended real line. *)
Lemma positive_exact x :
  num_lt (Int 0) x = true →
  match exact x with
  | Finite v => (0 < v)%Q
  | PosInf => True
  | _ => False
  end.
Proof.
  unfold num_lt. simpl. destruct (exact x); simpl; try done.
  apply Qltb_lt.
Qed.

Lemma positive_nonneg x : num_lt (Int 0) x = true → nonneg (exact x).
Proof.
  intros H. apply positive_exact in H. destruct (exact x); simpl; try done.
  by apply Qlt_le_weak.
Qed.

(** The mean of positive numbers is a float that is not negative, and the
    only error on the way is an overflow. *)
Lemma mean_nonneg xs f :
  Forall (λ x, num_lt (Int 0) x = true) xs → xs ≠ [] →
  mean xs = Returns f → nonneg f.
Proof.
  intros Hpos Hne. unfold mean, num_sum.
  destruct (sum_from (Int 0) xs) as [s|] eqn:Hs; [|done]. simpl.
  apply num_truediv_nonneg.
  - apply (sum_from_nonneg xs (Int 0)); [simpl; apply Qle_refl| |done].
    eapply Forall_impl; [exact Hpos|]. intros x. apply positive_nonneg.
  - destruct xs; [done|]. simpl. lia.
Qed.

Lemma mean_Raises xs e : xs ≠ [] → mean xs = Raises e → e = OverflowError.
Proof.
  intros Hne. unfold mean, num_sum.
  destruct (sum_from (Int 0) xs) as [s|e'] eqn:Hs; simpl.
  - apply num_truediv_Raises. destruct xs; [done|]. simpl. lia.
  - intros [= <-]. by apply sum_from_Raises in Hs.
Qed.

Lemma to_float_proper (x y : Q) : (x == y)%Q → to_float x = to_float y.
Proof.
  intros E. unfold to_float.
  rewrite (Qltb_proper x y _ _ E) by reflexivity.
  rewrite (Qltb_proper _ _ x y (Qeq_refl _) E).
  by rewrite (round64_proper _ _ E).
Qed.

Lemma round64_pow2 e : -1074 ≤ e → (round64 (pow2 e) == pow2 e)%Q.
Proof.
  intros He. pose proof (round64_dyadic 1 e) as H.
  rewrite (round64_proper (pow2 e) (inject_Z 1 * pow2 e)%Q) by ring.
  rewrite H; [ring|done|done].
Qed.

(** On numbers that are not negative, truncation is the floor. *)
Lemma trunc_floor (x : Q) :
  (0 <= x)%Q → Z.quot (Qnum x) (Zpos (Qden x)) = Qfloor x.
Proof.
  destruct x as [n d]. unfold Qle, Qfloor. simpl. intros Hn.
  apply Z.quot_div_nonneg; lia.
Qed.

Lemma Qfloor_nonneg (x : Q) : (0 <= x)%Q → 0 ≤ Qfloor x.
Proof.
  intros Hx. rewrite <- (Qfloor_Z 0). by apply Qfloor_resp_le.
Qed.

Lemma rne_nonneg x : (0 <= x)%Q → 0 ≤ rne x.
Proof.
  intros Hx. rewrite <- (rne_Z 0). by apply rne_mono.
Qed.

(** ** Means of numbers of ordinary size *)

Lemma round64_between j j' a b x :
  0 ≤ j < 2 ^ 53 → 0 ≤ j' < 2 ^ 53 → -1074 ≤ a → -1074 ≤ b →
  (inject_Z j * pow2 a <= x)%Q → (x <= inject_Z j' * pow2 b)%Q →
  (inject_Z j * pow2 a <= round64 x)%Q ∧ (round64 x <= inject_Z j' * pow2 b)%Q.
Proof.
  intros Hj Hj' Ha Hb Hlo Hhi. split.
  - rewrite <- (round64_dyadic j a) by lia. by apply round64_mono.
  - rewrite <- (round64_dyadic j' b) by lia. by apply round64_mono.
Qed.

Lemma dyadic_lt_limit j b :
  0 ≤ j < 2 ^ 53 → b ≤ 900 → (inject_Z j * pow2 b < inject_Z float_limit)%Q.
Proof.
  intros Hj Hb.
  apply Qle_lt_trans with (inject_Z (2 ^ 53) * pow2 900)%Q.
  - apply Qle_trans with (inject_Z (2 ^ 53) * pow2 b)%Q.
    + apply Qmult_le_compat_r; [rewrite <- Zle_Qle; lia|].
      apply Qlt_le_weak, pow2_pos.
    + apply Qmult_le_l; [reflexivity|by apply pow2_le].
  - rewrite (pow2_Z 900) by lia. rewrite <- inject_Z_mult, <- Zlt_Qlt.
    reflexivity.
Qed.

Lemma dyadic_nonneg j a : 0 ≤ j → (0 <= inject_Z j * pow2 a)%Q.
Proof.
  intros Hj. apply Qmult_le_0_compat; [by apply inject_Z_nonneg|].
  apply Qlt_le_weak, pow2_pos.
Qed.

Lemma to_float_between j j' a b x :
  0 ≤ j < 2 ^ 53 → 0 ≤ j' < 2 ^ 53 → -1074 ≤ a → -1074 ≤ b ≤ 900 →
  (inject_Z j * pow2 a <= x)%Q → (x <= inject_Z j' * pow2 b)%Q →
  to_float x = Finite (round64 x) ∧
  (inject_Z j * pow2 a <= round64 x)%Q ∧ (round64 x <= inject_Z j' * pow2 b)%Q.
Proof.
  intros Hj Hj' Ha Hb Hlo Hhi. split; [|apply round64_between; done || lia].
  apply to_float_finite.
  - apply Qlt_le_trans with 0%Q; [reflexivity|].
    eapply Qle_trans; [|exact Hlo]. apply dyadic_nonneg. lia.
  - eapply Qle_lt_trans; [exact Hhi|]. apply dyadic_lt_limit; lia.
Qed.

(** Adding a number between [2^a] and [2^b] to a sum of [j] such numbers
    gives a sum of [j + 1] of them. *)
Lemma num_add_between a b j acc x :
  -1074 ≤ a → a ≤ b → b ≤ 900 → 0 ≤ j → j + 1 < 2 ^ 53 →
  match exact acc with
  | Finite v => (inject_Z j * pow2 a <= v)%Q ∧ (v <= inject_Z j * pow2 b)%Q
  | _ => False
  end →
  between a b x →
  ∃ acc', num_add acc x = Returns acc' ∧
    match exact acc' with
    | Finite v =>
        (inject_Z (j + 1) * pow2 a <= v)%Q ∧ (v <= inject_Z (j + 1) * pow2 b)%Q
    | _ => False
    end.
Proof.
  intros Ha Hab Hb Hj Hj1 Hacc Hx. unfold between in Hx.
  assert (Hstep : ∀ v w : Q,
    (inject_Z j * pow2 a <= v)%Q ∧ (v <= inject_Z j * pow2 b)%Q →
    (pow2 a <= w)%Q ∧ (w <= pow2 b)%Q →
    (inject_Z (j + 1) * pow2 a <= v + w)%Q ∧
    (v + w <= inject_Z (j + 1) * pow2 b)%Q).
  { intros v w [Hv0 Hv1] [Hw0 Hw1]. rewrite inject_Z_plus.
    change (inject_Z 1) with 1%Q. split.
    - rewrite Qmult_plus_distr_l, Qmult_1_l. by apply Qplus_le_compat.
    - rewrite Qmult_plus_distr_l, Qmult_1_l. by apply Qplus_le_compat. }
  unfold num_add.
  destruct acc as [z|[v| | |]], x as [y|[w| | |]]; simpl in Hacc, Hx; try done.
  - (* int + int *)
    eexists. split; [reflexivity|]. simpl.
    rewrite (inject_Z_plus z y). by apply Hstep.
  - (* int + float *)
    destruct (to_float_between j j a b (inject_Z z)) as (Ez & Hz);
      [lia|lia|lia|lia|apply Hacc|apply Hacc|].
    cbn [as_float]. unfold float_of_int. rewrite Ez.
    cbn [mbind outcome_bind fadd].
    destruct (to_float_between (j + 1) (j + 1) a b
                (round64 (inject_Z z) + w)) as (Es & Hs);
      [lia|lia|lia|lia|by apply Hstep|by apply Hstep|].
    rewrite Es. eexists. split; [reflexivity|]. exact Hs.
  - (* float + int *)
    assert (Hy : (inject_Z 1 * pow2 a <= inject_Z y)%Q ∧
                 (inject_Z y <= inject_Z 1 * pow2 b)%Q).
    { change (inject_Z 1) with 1%Q. rewrite !Qmult_1_l. exact Hx. }
    destruct (to_float_between 1 1 a b (inject_Z y)) as (Ey & Hy');
      [vm_compute; split; [discriminate|reflexivity]
      |vm_compute; split; [discriminate|reflexivity]
      |lia|lia|apply Hy|apply Hy|].
    cbn [as_float mbind outcome_bind]. unfold float_of_int. rewrite Ey.
    cbn [mbind outcome_bind fadd].
    change (inject_Z 1) with 1%Q in Hy'. rewrite !Qmult_1_l in Hy'.
    destruct (to_float_between (j + 1) (j + 1) a b
                (v + round64 (inject_Z y))) as (Es & Hs);
      [lia|lia|lia|lia|by apply Hstep|by apply Hstep|].
    rewrite Es. eexists. split; [reflexivity|]. exact Hs.
  - (* float + float *)
    cbn [as_float mbind outcome_bind fadd].
    destruct (to_float_between (j + 1) (j + 1) a b (v + w)) as (Es & Hs);
      [lia|lia|lia|lia|by apply Hstep|by apply Hstep|].
    rewrite Es. eexists. split; [reflexivity|]. exact Hs.
Qed.

Lemma sum_from_between a b xs : ∀ j acc,
  -1074 ≤ a → a ≤ b → b ≤ 900 → 0 ≤ j →
  j + Z.of_nat (length xs) < 2 ^ 53 →
  match exact acc with
  | Finite v => (inject_Z j * pow2 a <= v)%Q ∧ (v <= inject_Z j * pow2 b)%Q
  | _ => False
  end →
  Forall (between a b) xs →
  ∃ s, sum_from acc xs = Returns s ∧
    match exact s with
    | Finite v =>
        (inject_Z (j + Z.of_nat (length xs)) * pow2 a <= v)%Q ∧
        (v <= inject_Z (j + Z.of_nat (length xs)) * pow2 b)%Q
    | _ => False
    end.
Proof.
  induction xs as [|x xs IH]; intros j acc Ha Hab Hb Hj Hlen Hacc Hxs.
  - simpl. rewrite Z.add_0_r. by eexists.
  - inversion Hxs as [|? ? Hx Hrest]; subst.
    rewrite length_cons, Nat2Z.inj_succ in *.
    destruct (num_add_between a b j acc x) as (acc' & Hadd & Hacc');
      [lia|lia|lia|lia|lia|done|done|].
    cbn [sum_from]. rewrite Hadd. cbn [mbind outcome_bind].
    destruct (IH (j + 1) acc') as (s & Hs & Hbound);
      [lia|lia|lia|lia|lia|done|done|].
    exists s. split; [done|].
    by replace (j + Z.succ (Z.of_nat (length xs)))
      with (j + 1 + Z.of_nat (length xs)) by lia.
Qed.

(** Fewer than [2^53] numbers between [2^a] and [2^b] have a finite mean
    between [2^a] and [2^b]. *)
Lemma mean_between a b xs :
  -1074 ≤ a → a ≤ b → b ≤ 900 →
  xs ≠ [] → Z.of_nat (length xs) < 2 ^ 53 →
  Forall (between a b) xs →
  ∃ avg, mean xs = Returns (Finite avg) ∧
         (pow2 a <= avg)%Q ∧ (avg <= pow2 b)%Q.
Proof.
  intros Ha Hab Hb Hne Hlen Hxs. unfold mean, num_sum.
  set (n := Z.of_nat (length xs)) in *.
  assert (Hn : 1 ≤ n) by (unfold n; destruct xs; [done|simpl; lia]).
  destruct (sum_from_between a b xs 0 (Int 0)) as (s & -> & Hs);
    [lia|lia|lia|lia|fold n; lia| |done|].
  { simpl. rewrite !Qmult_0_l. split; apply Qle_refl. }
  rewrite Z.add_0_l in Hs. fold n in Hs. cbn [mbind outcome_bind].
  assert (Hpos : (0 < inject_Z n)%Q) by (apply inject_Z_pos; lia).
  assert (Hquot : ∀ v : Q,
    (inject_Z n * pow2 a <= v)%Q ∧ (v <= inject_Z n * pow2 b)%Q →
    (inject_Z 1 * pow2 a <= v / inject_Z n)%Q ∧
    (v / inject_Z n <= inject_Z 1 * pow2 b)%Q).
  { intros v [Hv0 Hv1]. change (inject_Z 1) with 1%Q. rewrite !Qmult_1_l.
    split.
    - apply Qle_shift_div_l; [done|]. by rewrite Qmult_comm.
    - apply Qle_shift_div_r; [done|]. by rewrite Qmult_comm. }
  assert (H1 : 0 ≤ 1 < 2 ^ 53) by (vm_compute; split; [discriminate|reflexivity]).
  assert (Hfinish : ∀ x : Q,
    (inject_Z 1 * pow2 a <= x)%Q ∧ (x <= inject_Z 1 * pow2 b)%Q →
    to_float x = Finite (round64 x) ∧
    (pow2 a <= round64 x)%Q ∧ (round64 x <= pow2 b)%Q).
  { intros x [Hx0 Hx1].
    destruct (to_float_between 1 1 a b x) as (E & Hr);
      [done|done|lia|lia|done|done|].
    change (inject_Z 1) with 1%Q in Hr. rewrite !Qmult_1_l in Hr. done. }
  unfold num_truediv. destruct s as [z|[v| | |]]; simpl in Hs; try done.
  - destruct (n =? 0) eqn:Hn0; [apply Z.eqb_eq in Hn0; lia|].
    destruct (Hfinish (inject_Z z / inject_Z n)%Q) as (-> & Hr);
      [by apply Hquot|].
    by eexists.
  - cbn [as_float mbind outcome_bind].
    rewrite float_of_int_within; cycle 1.
    { assert (H53 : 2 ^ 53 < float_limit) by reflexivity. lia. }
    cbn [mbind outcome_bind fdiv].
    assert (En : (round64 (inject_Z n) == inject_Z n)%Q)
      by (apply round64_Z; lia).
    rewrite Qeq_bool_pos by (rewrite En; done).
    rewrite (to_float_proper _ (v / inject_Z n)%Q) by (by rewrite En).
    destruct (Hfinish (v / inject_Z n)%Q) as (-> & Hr); [by apply Hquot|].
    by eexists.
Qed.

(* ===================================================================== *)
(** * The queue predictor's sample store                                  *)
(* ===================================================================== *)

Section QueueSamples.

Import QueuePredictor.
Variable isoformat : Q → string.

Lemma record_job_completion_capped now jid b qt rt h :
  record_job_completion isoformat now jid b qt rt h =
  capped_push 1000 b (Sample (isoformat now) jid qt rt) h.
Proof.
  unfold record_job_completion, capped_push.
  destruct (h !! b) as [l|] eqn:Hb; simpl.
  - rewrite Hb, lookup_insert_eq. simpl.
    destruct (1000 <? length (l ++ _))%nat eqn:Hlen.
    + by rewrite insert_insert_eq.
    + apply Nat.ltb_ge in Hlen. by rewrite slice_last_short.
  - rewrite !lookup_insert_eq. simpl.
    by rewrite !insert_insert_eq.
Qed.

Lemma samples_record_job_completion now jid b qt rt h t :
  samples t (record_job_completion isoformat now jid b qt rt h) =
  if decide (b = t)
  then slice_last 1000 (samples b h ++ [Sample (isoformat now) jid qt rt])
  else samples t h.
Proof.
  rewrite record_job_completion_capped. apply capped_push_lookup.
Qed.

Lemma recorded_snoc t calls c :
  recorded isoformat t (calls ++ [c]) =
  recorded isoformat t calls ++
  (if decide (on_backend c = t)
   then [Sample (isoformat (at_time c)) (of_job c) (queued_for c) (ran_for c)]
   else []).
Proof.
  unfold recorded. rewrite List.filter_app, fmap_app. f_equal.
  simpl. destruct (decide (on_backend c = t)) as [Heq|Hne].
  - by rewrite bool_decide_eq_true_2.
  - by rewrite bool_decide_eq_false_2.
Qed.

Lemma run_snoc calls c h :
  run isoformat (calls ++ [c]) h =
  record_job_completion isoformat (at_time c) (of_job c) (on_backend c)
    (queued_for c) (ran_for c) (run isoformat calls h).
Proof. unfold run. by rewrite fold_left_app. Qed.

(** After any sequence of calls the list under a backend is the last 1000
    of what was there before followed by what the calls recorded, once at
    least one call named the backend, and is untouched otherwise. *)
Lemma samples_run t calls h :
  samples t (run isoformat calls h) =
  match recorded isoformat t calls with
  | [] => samples t h
  | _ => slice_last 1000 (samples t h ++ recorded isoformat t calls)
  end.
Proof.
  induction calls as [|c calls IH] using rev_ind; [done|].
  rewrite run_snoc, samples_record_job_completion, recorded_snoc.
  destruct (decide (on_backend c = t)) as [->|Hne].
  - rewrite IH. destruct (recorded isoformat t calls) as [|s0 rest]; simpl.
    + done.
    + rewrite slice_last_snoc, <- app_assoc. done.
  - rewrite app_nil_r. apply IH.
Qed.

End QueueSamples.

(** C7.  On a store whose list for a backend is within the cap (a fresh
    store in particular), every sequence of [record_job_completion] calls
    leaves at most 1000 samples under that backend; once the calls have
    recorded more than 1000 samples for it, exactly 1000 are kept and they
    are the last 1000 recorded, in recording order: the oldest went
    first. *)
Theorem sample_store_bounded_fifo
    (isoformat : Q → string)
    (h0 : gmap string (list QueuePredictor.sample))
    (calls : list QueuePredictor.completion) (t : string) :
  (length (QueuePredictor.samples t h0) ≤ 1000)%nat →
  let kept := QueuePredictor.samples t (QueuePredictor.run isoformat calls h0) in
  (length kept ≤ 1000)%nat ∧
  ((1000 < length (QueuePredictor.recorded isoformat t calls))%nat →
   length kept = 1000%nat ∧
   kept = slice_last 1000 (QueuePredictor.recorded isoformat t calls)).
Proof.
  intros Hinit kept. subst kept. rewrite samples_run.
  destruct (QueuePredictor.recorded isoformat t calls) as [|s0 rest] eqn:Hrec.
  - split; [done|]. simpl. lia.
  - rewrite <- Hrec. split.
    + rewrite length_slice_last. lia.
    + intros Hmany. rewrite slice_last_app by lia.
      split; [|done]. rewrite length_slice_last. lia.
Qed.

Lemma sample_store_bounded_fifo_witness :
  let c := QueuePredictor.Completion 0 "job" "ibm_q" (Int 30) (Int 10) in
  let calls := replicate 1001 c in
  (length (QueuePredictor.samples "ibm_q" ∅) ≤ 1000)%nat ∧
  length (QueuePredictor.samples "ibm_q"
            (QueuePredictor.run QueuePredictor.epoch_seconds calls ∅))
  = 1000%nat.
Proof.
  intros c calls.
  assert (H0 : (length (QueuePredictor.samples "ibm_q" ∅) ≤ 1000)%nat)
    by (vm_compute; lia).
  split; [exact H0|].
  destruct (sample_store_bounded_fifo QueuePredictor.epoch_seconds ∅ calls
              "ibm_q" H0) as [_ Hfull].
  apply Hfull. vm_compute. lia.
Defined.

(* ===================================================================== *)
(** * The notification log                                                *)
(* ===================================================================== *)

Section NotificationLog.

Import NotificationManager.
Variable isoformat : Q → string.

Lemma send_notification_capped now uid ttl msg info store :
  send_notification isoformat now uid ttl msg info store =
  capped_push 100 uid (Notification uid ttl msg (isoformat now) info false) store.
Proof.
  unfold send_notification, capped_push.
  destruct (store !! uid) as [l|] eqn:Hu; simpl.
  - rewrite Hu, lookup_insert_eq. simpl.
    destruct (100 <? length (l ++ _))%nat eqn:Hlen.
    + by rewrite insert_insert_eq.
    + apply Nat.ltb_ge in Hlen. by rewrite slice_last_short.
  - rewrite !lookup_insert_eq. simpl.
    by rewrite !insert_insert_eq.
Qed.

Lemma sent_snoc uid calls c :
  sent isoformat uid (calls ++ [c]) =
  sent isoformat uid calls ++
  (if decide (to_user c = uid)
   then [Notification (to_user c) (with_title c) (with_message c)
           (isoformat (at_time c)) (with_job_info c) false]
   else []).
Proof.
  unfold sent. rewrite List.filter_app, fmap_app. f_equal.
  simpl. destruct (decide (to_user c = uid)) as [Heq|Hne].
  - by rewrite bool_decide_eq_true_2.
  - by rewrite bool_decide_eq_false_2.
Qed.

Lemma log_run uid calls store :
  log uid (run isoformat calls store) =
  match sent isoformat uid calls with
  | [] => log uid store
  | _ => slice_last 100 (log uid store ++ sent isoformat uid calls)
  end.
Proof.
  induction calls as [|c calls IH] using rev_ind; [done|].
  unfold run. rewrite fold_left_app. simpl. fold (run isoformat calls store).
  rewrite send_notification_capped, sent_snoc.
  unfold log at 1. rewrite capped_push_lookup. fold (log (to_user c)).
  destruct (decide (to_user c = uid)) as [->|Hne].
  - fold (log uid (run isoformat calls store)). rewrite IH.
    destruct (sent isoformat uid calls) as [|n0 rest]; simpl.
    + done.
    + rewrite slice_last_snoc, <- app_assoc. done.
  - rewrite app_nil_r. apply IH.
Qed.

(** The other mutator of the store, [mark_as_read], flips flags in place:
    no log changes its length. *)
Lemma mark_as_read_length uid idx uid' store :
  length (log uid' (mark_as_read uid idx store)) = length (log uid' store).
Proof.
  unfold mark_as_read, log.
  destruct (store !! uid) as [l|] eqn:Hl; [|done].
  destruct (decide (uid = uid')) as [<-|Hne].
  - rewrite Hl. destruct idx as [i|].
    + destruct ((0 <=? i) && (i <? Z.of_nat (length l))); [|by rewrite Hl].
      rewrite lookup_insert_eq. simpl. apply length_alter.
    + rewrite lookup_insert_eq. simpl. apply length_fmap.
  - destruct idx as [i|].
    + destruct ((0 <=? i) && (i <? Z.of_nat (length l))); [|done].
      by rewrite lookup_insert_ne.
    + by rewrite lookup_insert_ne.
Qed.

End NotificationLog.

(** C9.  On a store whose log for a user is within the cap (a fresh store
    in particular), every sequence of [send_notification] calls leaves at
    most 100 entries in that user's log; once more than 100 were sent to
    the user, the log holds exactly the last 100 sent, in sending order:
    the oldest went first. *)
Theorem notification_log_bounded_fifo
    (isoformat : Q → string)
    (store : gmap string (list NotificationManager.notification))
    (calls : list NotificationManager.sending) (uid : string) :
  (length (NotificationManager.log uid store) ≤ 100)%nat →
  let kept :=
    NotificationManager.log uid (NotificationManager.run isoformat calls store) in
  (length kept ≤ 100)%nat ∧
  ((100 < length (NotificationManager.sent isoformat uid calls))%nat →
   length kept = 100%nat ∧
   kept = slice_last 100 (NotificationManager.sent isoformat uid calls)).
Proof.
  intros Hinit kept. subst kept. rewrite log_run.
  destruct (NotificationManager.sent isoformat uid calls) as [|n0 rest] eqn:Hsent.
  - split; [done|]. simpl. lia.
  - rewrite <- Hsent. split.
    + rewrite length_slice_last. lia.
    + intros Hmany. rewrite slice_last_app by lia.
      split; [|done]. rewrite length_slice_last. lia.
Qed.

Lemma notification_log_bounded_fifo_witness :
  let c := NotificationManager.Sending 0 "alice" "Job done" "finished" None in
  let calls := replicate 101 c in
  (length (NotificationManager.log "alice" ∅) ≤ 100)%nat ∧
  length (NotificationManager.log "alice"
            (NotificationManager.run QueuePredictor.epoch_seconds calls ∅))
  = 100%nat.
Proof.
  intros c calls.
  assert (H0 : (length (NotificationManager.log "alice" ∅) ≤ 100)%nat)
    by (vm_compute; lia).
  split; [exact H0|].
  destruct (notification_log_bounded_fifo QueuePredictor.epoch_seconds ∅ calls
              "alice" H0) as [_ Hfull].
  apply Hfull. vm_compute. lia.
Defined.

(* ===================================================================== *)
(** * The queue predictor's estimates                                     *)
(* ===================================================================== *)

Lemma Forall_filter_fmap {A} (f : A → num) (xs : list A) :
  Forall (λ x, num_lt (Int 0) x = true)
    (f <$> List.filter (λ e, QueuePredictor.positive (f e)) xs).
Proof.
  induction xs as [|x xs IH]; simpl; [constructor|].
  destruct (QueuePredictor.positive (f x)) eqn:Hx; [|done].
  rewrite fmap_cons. constructor; done.
Qed.

Lemma positive_run_times_pos t h :
  Forall (λ x, num_lt (Int 0) x = true) (QueuePredictor.positive_run_times t h).
Proof. apply Forall_filter_fmap. Qed.

Lemma positive_queue_times_pos t h :
  Forall (λ x, num_lt (Int 0) x = true) (QueuePredictor.positive_queue_times t h).
Proof. apply Forall_filter_fmap. Qed.

(** The estimate depends on the store only through the positive run times
    of the backend. *)
Lemma estimate_start_time_unfold strftime now jid t v h :
  QueuePredictor.estimate_start_time strftime now jid t v h =
  match QueuePredictor.positive_run_times t h with
  | [] => Returns None
  | rts =>
      avg ← mean rts;
      w ← QueuePredictor.mul_float v avg;
      if flt (Finite 0) w
      then start ← QueuePredictor.start_after strftime now w; Returns (Some start)
      else Returns None
  end.
Proof.
  unfold QueuePredictor.estimate_start_time, QueuePredictor.positive_run_times,
    QueuePredictor.samples, QueuePredictor.positive.
  destruct (h !! t) as [[|e l]|]; simpl default; [done| |done].
  by destruct (_ <$> _).
Qed.

Lemma fmul_nonpos_nonneg r a :
  (r <= 0)%Q → nonneg a → flt (Finite 0) (fmul (Finite r) a) = false.
Proof.
  intros Hr Ha. destruct a as [x| | |]; simpl in *; try done.
  - apply to_float_nonpos.
    rewrite <- (Qmult_0_l x). apply Qmult_le_compat_r; done.
  - unfold scale_inf. destruct (Qeq_bool r 0) eqn:E; [done|].
    assert (Hneg : Qltb r 0 = true).
    { apply Qltb_lt. apply Qle_lt_or_eq in Hr as [Hlt|Heq]; [done|].
      apply Qeq_bool_neq in E. contradiction. }
    by rewrite Hneg.
Qed.

(** A queue length that is not positive gives a wait that is not
    positive. *)
Lemma mul_float_nonpos v q avg w :
  as_int v = Some q → q ≤ 0 → nonneg avg →
  QueuePredictor.mul_float v avg = Returns w → flt (Finite 0) w = false.
Proof.
  intros Hv Hq Havg. unfold QueuePredictor.mul_float. rewrite Hv.
  destruct (float_of_int q) as [y|] eqn:Hy; [|done]. simpl.
  apply float_of_int_Returns in Hy as [-> _]. intros [= <-].
  apply fmul_nonpos_nonneg; [|done].
  apply round64_nonpos. change 0%Q with (inject_Z 0). by rewrite <- Zle_Qle.
Qed.

(** C5, as the code has it.  A negative queue length (one that a float can
    hold) is not rejected: once the average run time is computed, the wait
    is not positive and the call returns none.  The only error the call can
    end in is the [OverflowError] of an average that cannot be computed. *)
Theorem estimate_start_time_negative_queue
    (strftime : Q → string) (now : Q) (jid t : string) (q : Z)
    (h : gmap string (list QueuePredictor.sample)) :
  q < 0 → - float_limit < q →
  QueuePredictor.estimate_start_time strftime now jid t (PInt q) h =
  match QueuePredictor.positive_run_times t h with
  | [] => Returns None
  | rts => avg ← mean rts; Returns None
  end.
Proof.
  intros Hneg Hfit. rewrite estimate_start_time_unfold.
  pose proof (positive_run_times_pos t h) as Hpos.
  destruct (QueuePredictor.positive_run_times t h) as [|r rts]; [done|].
  destruct (mean (r :: rts)) as [avg|] eqn:Havg; [|done].
  cbn [mbind outcome_bind].
  apply mean_nonneg in Havg; [|done|done].
  destruct (QueuePredictor.mul_float (PInt q) avg) as [w|e] eqn:Hw;
    cbn [mbind outcome_bind].
  - rewrite (mul_float_nonpos (PInt q) q avg w); [done|done|lia|done|done].
  - unfold QueuePredictor.mul_float in Hw. simpl in Hw.
    rewrite float_of_int_within in Hw by (unfold float_limit in *; lia). done.
Qed.

Lemma estimate_start_time_negative_queue_witness :
  -1 < 0 ∧ - float_limit < -1 ∧
  QueuePredictor.estimate_start_time QueuePredictor.epoch_seconds 1000 "j2" "A"
    (PInt (-1))
    {[ "A" := [QueuePredictor.Sample "t1" "j1" (Int 30) (Int 10)] ]}
  = Returns None.
Proof.
  assert (Hneg : -1 < 0) by lia.
  assert (Hfit : - float_limit < -1) by reflexivity.
  split; [exact Hneg|]. split; [exact Hfit|].
  rewrite (estimate_start_time_negative_queue QueuePredictor.epoch_seconds 1000
             "j2" "A" (-1) _ Hneg Hfit).
  vm_compute. reflexivity.
Defined.

(** C5 as stated fails: with a queue length of -1 the call does not raise
    (no validation error, nor any other); it returns none. *)
Lemma estimate_start_time_no_validation_counterexample :
  let result :=
    QueuePredictor.estimate_start_time QueuePredictor.epoch_seconds 1000 "j2" "A"
      (PInt (-1))
      {[ "A" := [QueuePredictor.Sample "t1" "j1" (Int 30) (Int 10)] ]} in
  result = Returns None ∧ ¬ raises result.
Proof.
  intros result.
  assert (Hnone : result = Returns None) by (vm_compute; reflexivity).
  split; [exact Hnone|].
  intros [e He]. rewrite Hnone in He. discriminate.
Qed.

(** The microseconds of a wait that is not negative. *)
Lemma timedelta_seconds_bounds (w : Q) (b : Z) :
  (0 <= w)%Q → (w <= inject_Z b)%Q → b ≤ 2 ^ 46 →
  ∃ us, timedelta_seconds (Finite w) = Returns us ∧
        0 ≤ us ≤ (b + 1) * 1000000.
Proof.
  intros Hw Hb Hsmall. unfold timedelta_seconds.
  rewrite (trunc_floor w Hw).
  set (whole := Qfloor w).
  assert (Hwhole : 0 ≤ whole ≤ b).
  { split; [by apply Qfloor_nonneg|].
    rewrite <- (Qfloor_Z b). by apply Qfloor_resp_le. }
  set (fraction := (w - inject_Z whole)%Q).
  assert (Hfrac : (0 <= fraction)%Q ∧ (fraction <= 1)%Q).
  { unfold fraction. split.
    - rewrite <- (Qplus_opp_r (inject_Z whole)).
      apply Qplus_le_l. apply Qfloor_le.
    - pose proof (Qlt_floor w) as H. rewrite inject_Z_plus in H.
      fold whole in H. change (inject_Z 1) with 1%Q in H. lra. }
  set (r := round64 (1000000 * fraction)).
  assert (Hr : (0 <= r)%Q ∧ (r <= inject_Z 1000000)%Q).
  { unfold r. split.
    - apply round64_nonneg. apply Qmult_le_0_compat; [done|apply Hfrac].
    - assert (E : (round64 (inject_Z 1000000) == inject_Z 1000000)%Q)
        by reflexivity.
      rewrite <- E. apply round64_mono.
      rewrite <- (Qmult_1_r (inject_Z 1000000)).
      apply Qmult_le_l; [reflexivity|apply Hfrac]. }
  set (us := rne (inject_Z (whole * 1000000) + r)).
  assert (Hus : whole * 1000000 ≤ us ≤ whole * 1000000 + 1000000).
  { unfold us. split.
    - rewrite <- (rne_Z (whole * 1000000)) at 1. apply rne_mono.
      rewrite <- (Qplus_0_r (inject_Z (whole * 1000000))) at 1.
      apply Qplus_le_r. apply Hr.
    - rewrite <- (rne_Z (whole * 1000000 + 1000000)). apply rne_mono.
      rewrite inject_Z_plus. apply Qplus_le_r. apply Hr. }
  assert (Hdays : 0 ≤ us / 86400000000 ≤ 999999999).
  { split; [apply Z.div_pos; lia|].
    apply Z.div_le_upper_bound; [lia|].
    assert (H46 : 2 ^ 46 = 70368744177664) by reflexivity. lia. }
  destruct (us / 86400000000 <? -999999999) eqn:H1;
    [apply Z.ltb_lt in H1; lia|].
  destruct (999999999 <? us / 86400000000) eqn:H2;
    [apply Z.ltb_lt in H2; lia|].
  simpl. exists us. split; [done|]. lia.
Qed.

Lemma datetime_add_within (now : Q) (us : Z) :
  (inject_Z datetime_min <= now + inject_Z us / 1000000)%Q →
  (now + inject_Z us / 1000000 < inject_Z datetime_end)%Q →
  datetime_add now us = Returns (now + inject_Z us / 1000000)%Q.
Proof.
  intros Hlo Hhi. unfold datetime_add.
  apply Qltb_ge in Hlo. apply Qltb_lt in Hhi. by rewrite Hlo, Hhi.
Qed.

(** C2, as the code has it.  The average run time between [2^-20] and
    [2^20] seconds (as it is by [mean_between] when every positive sample
    is), the queue length an integer from 0 to [2^16], the clock
    between the epoch and [2^36] seconds after it: the result is none
    exactly when the backend has no positive run-time sample or the queue
    length is 0 (the guard [estimated_wait > 0]); in every other case it
    is the rendering of [now] plus the wait, which is the double nearest to
    [current_queue_length * avg_run_time] taken to whole microseconds. *)
Theorem estimate_start_time_spec
    (strftime : Q → string) (now : Q) (jid t : string) (q : Z)
    (h : gmap string (list QueuePredictor.sample)) :
  let rts := QueuePredictor.positive_run_times t h in
  0 ≤ q ≤ 2 ^ 16 →
  (0 <= now)%Q → (now <= inject_Z (2 ^ 36))%Q →
  (rts ≠ [] →
   ∃ avg, mean rts = Returns (Finite avg) ∧
          (pow2 (-20) <= avg)%Q ∧ (avg <= pow2 20)%Q) →
  (QueuePredictor.estimate_start_time strftime now jid t (PInt q) h
     = Returns None ↔ rts = [] ∨ q = 0) ∧
  (rts ≠ [] → q ≠ 0 →
   ∃ avg wait us,
     mean rts = Returns (Finite avg) ∧
     wait = round64 (inject_Z q * avg) ∧ (0 < wait)%Q ∧
     timedelta_seconds (Finite wait) = Returns us ∧
     QueuePredictor.estimate_start_time strftime now jid t (PInt q) h
       = Returns (Some (strftime (now + inject_Z us / 1000000)%Q))).
Proof.
  intros rts Hq Hnow0 Hnow1 Hmean. subst rts.
  rewrite estimate_start_time_unfold.
  destruct (QueuePredictor.positive_run_times t h) as [|r rts] eqn:Hrts.
  { split; [tauto|done]. }
  destruct Hmean as (avg & Havg & Hlo & Hhi); [done|].
  rewrite Havg. cbn [mbind outcome_bind].
  unfold QueuePredictor.mul_float. cbn [as_int].
  rewrite float_of_int_within
    by (split; [apply Z.lt_le_trans with 0; [reflexivity|lia]
               |apply Z.le_lt_trans with (2 ^ 16); [lia|reflexivity]]).
  cbn [mbind outcome_bind fmul].
  assert (Eq : (round64 (inject_Z q) == inject_Z q)%Q).
  { apply round64_Z. split.
    - apply Z.lt_le_trans with 0; [reflexivity|lia].
    - apply Z.le_lt_trans with (2 ^ 16); [lia|reflexivity]. }
  rewrite (to_float_proper _ (inject_Z q * avg)%Q) by (by rewrite Eq).
  assert (Havg0 : (0 < avg)%Q)
    by (eapply Qlt_le_trans; [apply (pow2_pos (-20))|exact Hlo]).
  destruct (Z.eq_dec q 0) as [->|Hq0].
  - rewrite (to_float_proper _ 0%Q) by ring.
    split; [|done]. split; [by right|done].
  - assert (Hq1 : (1 <= inject_Z q)%Q)
      by (change 1%Q with (inject_Z 1); rewrite <- Zle_Qle; lia).
    assert (Hq2 : (inject_Z q <= pow2 16)%Q)
      by (rewrite (pow2_Z 16) by lia; rewrite <- Zle_Qle; lia).
    assert (Hx0 : (pow2 (-20) <= inject_Z q * avg)%Q).
    { eapply Qle_trans; [exact Hlo|].
      rewrite <- (Qmult_1_l avg) at 1. apply Qmult_le_compat_r; [done|].
      by apply Qlt_le_weak. }
    assert (Hx1 : (inject_Z q * avg <= pow2 36)%Q).
    { replace 36 with (16 + 20) by reflexivity. rewrite pow2_add.
      eapply Qle_trans.
      - apply Qmult_le_compat_r; [exact Hq2|by apply Qlt_le_weak].
      - apply Qmult_le_l; [apply pow2_pos|done]. }
    set (x := (inject_Z q * avg)%Q) in *.
    rewrite to_float_finite; cycle 1.
    { eapply Qlt_le_trans; [|exact Hx0]. reflexivity. }
    { eapply Qle_lt_trans; [exact Hx1|]. reflexivity. }
    assert (Hw0 : (pow2 (-20) <= round64 x)%Q).
    { rewrite <- (round64_pow2 (-20)) by lia. by apply round64_mono. }
    assert (Hw1 : (round64 x <= inject_Z (2 ^ 36))%Q).
    { rewrite <- (pow2_Z 36) by lia.
      rewrite <- (round64_pow2 36) by lia. by apply round64_mono. }
    assert (Hwpos : (0 < round64 x)%Q)
      by (eapply Qlt_le_trans; [apply (pow2_pos (-20))|exact Hw0]).
    cbn [flt]. rewrite (proj2 (Qltb_lt 0 (round64 x)) Hwpos).
    destruct (timedelta_seconds_bounds (round64 x) (2 ^ 36))
      as (us & Hus & Hus0 & Hus1); [by apply Qlt_le_weak|done|done|].
    unfold QueuePredictor.start_after. rewrite Hus.
    cbn [mbind outcome_bind].
    assert (Hd0 : (0 <= inject_Z us / 1000000)%Q).
    { apply Qdiv_nonneg; [|reflexivity].
      change 0%Q with (inject_Z 0). by rewrite <- Zle_Qle. }
    assert (Hd1 : (inject_Z us / 1000000 <= inject_Z (2 ^ 36 + 1))%Q).
    { apply Qle_shift_div_r; [reflexivity|].
      change 1000000%Q with (inject_Z 1000000).
      rewrite <- inject_Z_mult, <- Zle_Qle. exact Hus1. }
    rewrite datetime_add_within; cycle 1.
    { apply Qle_trans with 0%Q; [done|].
      replace 0%Q with (0 + 0)%Q by reflexivity. by apply Qplus_le_compat. }
    { eapply Qle_lt_trans; [apply Qplus_le_compat; eassumption|]. reflexivity. }
    cbn [mbind outcome_bind]. split.
    + split; [done|]. intros [?|?]; done.
    + intros _ _. exists avg, (round64 x), us. done.
Qed.

Lemma estimate_start_time_spec_witness :
  let h : gmap string (list QueuePredictor.sample) :=
    {[ "A" := [QueuePredictor.Sample "t1" "j1" (Int 30) (Int 10);
               QueuePredictor.Sample "t2" "j2" (Int 90) (Int 20)] ]} in
  0 ≤ 2 ≤ 2 ^ 16 ∧ (0 <= 1000)%Q ∧ (1000 <= inject_Z (2 ^ 36))%Q ∧
  ∃ avg wait us,
    mean (QueuePredictor.positive_run_times "A" h) = Returns (Finite avg) ∧
    wait = round64 (inject_Z 2 * avg) ∧ (0 < wait)%Q ∧
    timedelta_seconds (Finite wait) = Returns us ∧
    QueuePredictor.estimate_start_time QueuePredictor.epoch_seconds 1000 "j3" "A"
      (PInt 2) h
    = Returns (Some (QueuePredictor.epoch_seconds
                       (1000 + inject_Z us / 1000000)%Q)).
Proof.
  intros h.
  assert (Hq : 0 ≤ 2 ≤ 2 ^ 16) by (vm_compute; split; discriminate).
  assert (Hn0 : (0 <= 1000)%Q) by (vm_compute; discriminate).
  assert (Hn1 : (1000 <= inject_Z (2 ^ 36))%Q) by (vm_compute; discriminate).
  split; [exact Hq|]. split; [exact Hn0|]. split; [exact Hn1|].
  destruct (estimate_start_time_spec QueuePredictor.epoch_seconds 1000 "j3" "A"
              2 h Hq Hn0 Hn1) as [_ Hsome].
  - intros _. exists 15%Q. vm_compute. repeat split; discriminate.
  - apply Hsome; vm_compute; discriminate.
Defined.

(** C2 as stated fails for a queue length of 0: samples exist and their
    mean run time is the positive number 10, yet the result is none. *)
Lemma estimate_start_time_zero_queue_counterexample :
  let h : gmap string (list QueuePredictor.sample) :=
    {[ "A" := [QueuePredictor.Sample "t1" "j1" (Int 30) (Int 10)] ]} in
  let result :=
    QueuePredictor.estimate_start_time QueuePredictor.epoch_seconds 1000 "j2" "A"
      (PInt 0) h in
  result = Returns None ∧
  mean (QueuePredictor.positive_run_times "A" h) = Returns (Finite 10) ∧
  ¬ (result = Returns None ↔
     QueuePredictor.samples "A" h = [] ∨
     ∃ avg, mean (QueuePredictor.positive_run_times "A" h) = Returns (Finite avg) ∧
            (avg <= 0)%Q).
Proof.
  intros h result.
  assert (Hnone : result = Returns None) by (vm_compute; reflexivity).
  assert (Hmean : mean (QueuePredictor.positive_run_times "A" h)
                  = Returns (Finite 10)) by (vm_compute; reflexivity).
  split; [exact Hnone|]. split; [exact Hmean|].
  intros [Hdir _]. destruct (Hdir Hnone) as [Hempty|(avg & Havg & Hle)].
  - vm_compute in Hempty. discriminate.
  - rewrite Hmean in Havg. injection Havg as <-. apply Hle. reflexivity.
Qed.

(** Past the bounds of C2 the arithmetic gives out: a wait that ends after
    the year 9999, and a queue length that no float holds. *)
Example estimate_start_time_out_of_range :
  let h : gmap string (list QueuePredictor.sample) :=
    {[ "A" := [QueuePredictor.Sample "t1" "j1" (Int 30) (Int 10)] ]} in
  QueuePredictor.estimate_start_time QueuePredictor.epoch_seconds 1700000000
    "j2" "A" (PInt (10 ^ 11)) h = Raises OverflowError ∧
  QueuePredictor.estimate_start_time QueuePredictor.epoch_seconds 1700000000
    "j2" "A" (PInt (10 ^ 400)) h = Raises OverflowError ∧
  QueuePredictor.estimate_start_time QueuePredictor.epoch_seconds 1700000000
    "j2" "A" (PInt (- 10 ^ 400)) h = Raises OverflowError.
Proof. vm_compute. repeat split. Qed.

Lemma string_length_app (s t : string) :
  String.length (s +:+ t) = (String.length s + String.length t)%nat.
Proof. induction s as [|a s IH]; simpl; [done|by rewrite IH]. Qed.

(** None of the formatted waits is the string "Unknown". *)
Lemma seconds_not_unknown (s : string) : s +:+ " seconds" ≠ "Unknown".
Proof.
  intros Heq. apply (f_equal String.length) in Heq.
  rewrite string_length_app in Heq. simpl in Heq. lia.
Qed.

Lemma minutes_not_unknown (s : string) : s +:+ " minutes" ≠ "Unknown".
Proof.
  intros Heq. apply (f_equal String.length) in Heq.
  rewrite string_length_app in Heq. simpl in Heq. lia.
Qed.

Lemma hours_not_unknown (s : string) : s +:+ " hours" ≠ "Unknown".
Proof.
  destruct s as [|a [|b s]]; simpl; [discriminate|discriminate|].
  intros Heq. apply (f_equal String.length) in Heq.
  simpl in Heq. rewrite string_length_app in Heq. simpl in Heq. lia.
Qed.

Lemma shown_wait_not_unknown m : QueuePredictor.shown_wait m ≠ "Unknown".
Proof.
  unfold QueuePredictor.shown_wait.
  destruct (Qlt_le_dec m 60); [apply seconds_not_unknown|].
  destruct (Qlt_le_dec m 3600); [apply minutes_not_unknown|apply hours_not_unknown].
Qed.

Lemma estimate_average_wait_unfold t h :
  QueuePredictor.estimate_average_wait t h =
  match QueuePredictor.positive_queue_times t h with
  | [] => Returns "Unknown"
  | qts =>
      avg ← mean qts;
      if num_lt (Float avg) (Int 60)
      then
        seconds ← int_of_float avg;
        Returns (pretty seconds +:+ " seconds")
      else if num_lt (Float avg) (Int 3600)
      then
        quotient ← num_truediv (Float avg) (Int 60);
        minutes ← int_of_float quotient;
        Returns (pretty minutes +:+ " minutes")
      else
        quotient ← num_truediv (Float avg) (Int 3600);
        hours ← int_of_float quotient;
        Returns (pretty hours +:+ " hours")
  end.
Proof.
  unfold QueuePredictor.estimate_average_wait,
    QueuePredictor.positive_queue_times, QueuePredictor.samples,
    QueuePredictor.positive.
  destruct (h !! t) as [[|e l]|]; simpl default; [done| |done].
  by destruct (_ <$> _).
Qed.

Lemma positive_queue_times_nil t h :
  QueuePredictor.positive_queue_times t h = [] ↔
  Forall (λ e, QueuePredictor.positive (QueuePredictor.queue_time e) = false)
    (QueuePredictor.samples t h).
Proof.
  unfold QueuePredictor.positive_queue_times.
  induction (QueuePredictor.samples t h) as [|e l IH]; simpl.
  - split; [constructor|done].
  - destruct (QueuePredictor.positive (QueuePredictor.queue_time e)) eqn:He.
    + split; [done|]. intros Hall. inversion Hall as [|? ? Hne _]; subst.
      congruence.
    + rewrite IH. split.
      * intros Hl. by constructor.
      * intros Hall. by inversion Hall.
Qed.

Lemma float_limit_lt_pow2 : (inject_Z float_limit < pow2 1024)%Q.
Proof. rewrite pow2_Z by lia. rewrite <- Zlt_Qlt. reflexivity. Qed.

(** A finite float is at most [2^1024]. *)
Lemma to_float_Finite_upper x r : to_float x = Finite r → (r <= pow2 1024)%Q.
Proof.
  destruct (to_float_cases x) as [[-> _]|[[-> _]|[-> [_ Hhi]]]]; try done.
  intros [= <-]. destruct (Qlt_le_dec 0 x) as [Hpos|Hneg].
  - rewrite round64_pos by done.
    eapply Qle_trans; [by apply round_pos_upper|]. apply pow2_le.
    destruct (expo_spec x Hpos) as [Hlo _].
    assert (He : expo x < 1024).
    { apply pow2_lt_inv. eapply Qle_lt_trans; [exact Hlo|].
      eapply Qlt_trans; [exact Hhi|apply float_limit_lt_pow2]. }
    unfold emin. lia.
  - eapply Qle_trans; [by apply round64_nonpos|].
    apply Qlt_le_weak, pow2_pos.
Qed.

Lemma num_truediv_Finite_upper a n m :
  1 ≤ n → num_truediv a (Int n) = Returns (Finite m) → (m <= pow2 1024)%Q.
Proof.
  intros Hn. unfold num_truediv. destruct a as [x|g].
  - destruct (n =? 0); [done|].
    destruct (to_float _) as [r| | |] eqn:Hr; try done.
    intros [= <-]. by apply to_float_Finite_upper in Hr.
  - simpl. destruct (float_of_int n) as [fn|] eqn:Hfn; [|done]. simpl.
    apply float_of_int_Returns in Hfn as [-> _]. unfold fdiv.
    destruct (Qeq_bool _ 0); [done|].
    destruct g as [x| | |].
    + intros [= Hr]. by apply to_float_Finite_upper in Hr.
    + by destruct (Qltb _ 0).
    + by destruct (Qltb _ 0).
    + done.
Qed.

Lemma mean_Finite_upper xs m :
  xs ≠ [] → mean xs = Returns (Finite m) → (m <= pow2 1024)%Q.
Proof.
  intros Hne. unfold mean.
  destruct (num_sum xs) as [s|]; [|done]. simpl.
  apply num_truediv_Finite_upper. destruct xs; [done|]. simpl. lia.
Qed.

Lemma float_of_int_60 : float_of_int 60 = Returns (Finite 60).
Proof. vm_compute. reflexivity. Qed.

Lemma float_of_int_3600 : float_of_int 3600 = Returns (Finite 3600).
Proof. vm_compute. reflexivity. Qed.

Lemma int_of_float_nonneg x :
  (0 <= x)%Q → int_of_float (Finite x) = Returns (Qfloor x).
Proof. intros Hx. simpl. by rewrite trunc_floor. Qed.

(** What [estimate_average_wait] makes of a finite mean. *)
Lemma shown_wait_finite (m : Q) :
  (0 <= m)%Q → (m <= pow2 1024)%Q →
  (if num_lt (Float (Finite m)) (Int 60)
   then
     seconds ← int_of_float (Finite m);
     Returns (pretty seconds +:+ " seconds")
   else if num_lt (Float (Finite m)) (Int 3600)
   then
     quotient ← num_truediv (Float (Finite m)) (Int 60);
     minutes ← int_of_float quotient;
     Returns (pretty minutes +:+ " minutes")
   else
     quotient ← num_truediv (Float (Finite m)) (Int 3600);
     hours ← int_of_float quotient;
     Returns (pretty hours +:+ " hours"))
  = Returns (QueuePredictor.shown_wait m).
Proof.
  intros Hm0 Hm1. unfold QueuePredictor.shown_wait, num_lt.
  cbn [exact flt]. change (inject_Z 60) with 60%Q.
  change (inject_Z 3600) with 3600%Q.
  destruct (Qlt_le_dec m 60) as [H60|H60].
  { rewrite (proj2 (Qltb_lt m 60) H60). by rewrite int_of_float_nonneg. }
  rewrite (proj2 (Qltb_ge m 60) H60).
  destruct (Qlt_le_dec m 3600) as [H3600|H3600].
  - rewrite (proj2 (Qltb_lt m 3600) H3600).
    unfold num_truediv. cbn [as_float mbind outcome_bind].
    rewrite float_of_int_60. cbn [mbind outcome_bind fdiv].
    change (Qeq_bool 60 0) with false. cbn iota.
    rewrite to_float_finite; cycle 1.
    { apply Qlt_le_trans with 0%Q; [reflexivity|]. by apply Qdiv_nonneg. }
    { apply Qlt_trans with 60%Q; [|reflexivity].
      apply Qlt_shift_div_r; [reflexivity|]. exact H3600. }
    cbn [mbind outcome_bind].
    rewrite int_of_float_nonneg; [done|].
    apply round64_nonneg. by apply Qdiv_nonneg.
  - rewrite (proj2 (Qltb_ge m 3600) H3600).
    unfold num_truediv. cbn [as_float mbind outcome_bind].
    rewrite float_of_int_3600. cbn [mbind outcome_bind fdiv].
    change (Qeq_bool 3600 0) with false. cbn iota.
    rewrite to_float_finite; cycle 1.
    { apply Qlt_le_trans with 0%Q; [reflexivity|]. by apply Qdiv_nonneg. }
    { apply Qle_lt_trans with (pow2 1024 / 3600)%Q.
      - apply Qmult_le_compat_r; [done|discriminate].
      - rewrite (pow2_Z 1024) by lia. reflexivity. }
    cbn [mbind outcome_bind].
    rewrite int_of_float_nonneg; [done|].
    apply round64_nonneg. by apply Qdiv_nonneg.
Qed.

(** An infinite mean cannot be shown. *)
Lemma shown_wait_infinite :
  (if num_lt (Float PosInf) (Int 60)
   then
     seconds ← int_of_float PosInf;
     Returns (pretty seconds +:+ " seconds")
   else if num_lt (Float PosInf) (Int 3600)
   then
     quotient ← num_truediv (Float PosInf) (Int 60);
     minutes ← int_of_float quotient;
     Returns (pretty minutes +:+ " minutes")
   else
     quotient ← num_truediv (Float PosInf) (Int 3600);
     hours ← int_of_float quotient;
     Returns (pretty hours +:+ " hours"))
  = Raises OverflowError.
Proof. vm_compute. reflexivity. Qed.

(** The wait in terms of the mean of the positive queue times. *)
Lemma estimate_average_wait_cases t h :
  QueuePredictor.estimate_average_wait t h =
  match QueuePredictor.positive_queue_times t h with
  | [] => Returns "Unknown"
  | qts =>
      match mean qts with
      | Returns (Finite m) => Returns (QueuePredictor.shown_wait m)
      | _ => Raises OverflowError
      end
  end.
Proof.
  rewrite estimate_average_wait_unfold.
  pose proof (positive_queue_times_pos t h) as Hpos.
  destruct (QueuePredictor.positive_queue_times t h) as [|x qts]; [done|].
  assert (Hne : x :: qts ≠ []) by done.
  pose proof (mean_nonneg (x :: qts)) as Hnonneg.
  pose proof (mean_Raises (x :: qts)) as Hraises.
  pose proof (mean_Finite_upper (x :: qts)) as Hupper.
  destruct (mean (x :: qts)) as [[m| | |]|e]; cbn [mbind outcome_bind].
  - apply shown_wait_finite.
    + exact (Hnonneg _ Hpos Hne eq_refl).
    + exact (Hupper m Hne eq_refl).
  - apply shown_wait_infinite.
  - by destruct (Hnonneg _ Hpos Hne eq_refl).
  - by destruct (Hnonneg _ Hpos Hne eq_refl).
  - by rewrite (Hraises e Hne eq_refl).
Qed.

(** C6, as the code has it.  The wait is "Unknown" exactly when no sample
    of the backend has a positive queue time.  Otherwise the mean of the
    positive queue times is computed in double precision; a finite mean [m]
    is shown in seconds below 60, in minutes below 3600 and in hours from
    there on, the number cut down to the integer below it; a mean that
    overflows makes the call raise [OverflowError]. *)
Theorem estimate_average_wait_spec
    (t : string) (h : gmap string (list QueuePredictor.sample)) :
  let qts := QueuePredictor.positive_queue_times t h in
  (QueuePredictor.estimate_average_wait t h = Returns "Unknown" ↔
   Forall (λ e, QueuePredictor.positive (QueuePredictor.queue_time e) = false)
     (QueuePredictor.samples t h)) ∧
  (qts ≠ [] → ∀ m, mean qts = Returns (Finite m) →
   QueuePredictor.estimate_average_wait t h =
   Returns
     (if Qlt_le_dec m 60 then pretty (Qfloor m) +:+ " seconds"
      else if Qlt_le_dec m 3600
      then pretty (Qfloor (round64 (m / 60))) +:+ " minutes"
      else pretty (Qfloor (round64 (m / 3600))) +:+ " hours")) ∧
  (qts ≠ [] → (∀ m, mean qts ≠ Returns (Finite m)) →
   QueuePredictor.estimate_average_wait t h = Raises OverflowError).
Proof.
  intros qts. subst qts.
  rewrite <- positive_queue_times_nil, estimate_average_wait_cases.
  destruct (QueuePredictor.positive_queue_times t h) as [|x qts] eqn:Hq.
  { split; [done|]. split; intros Hne; by destruct Hne. }
  destruct (mean (x :: qts)) as [[m| | |]|e].
  - split; [|split].
    + split; [|done]. intros [= Hunk]. by apply shown_wait_not_unknown in Hunk.
    + intros _ m' [= <-]. done.
    + intros _ Hnot. by destruct (Hnot m).
  - split; [done|]. split; done.
  - split; [done|]. split; done.
  - split; [done|]. split; done.
  - split; [done|]. split; done.
Qed.

Lemma estimate_average_wait_spec_witness :
  let h : gmap string (list QueuePredictor.sample) :=
    {[ "A" := [QueuePredictor.Sample "t1" "j1" (Int 3000) (Int 10);
               QueuePredictor.Sample "t2" "j2" (Int 4198) (Int 20);
               QueuePredictor.Sample "t3" "j3" (Int 0) (Int 5)] ]} in
  QueuePredictor.positive_queue_times "A" h ≠ [] ∧
  mean (QueuePredictor.positive_queue_times "A" h) = Returns (Finite 3599) ∧
  QueuePredictor.estimate_average_wait "A" h = Returns "59 minutes".
Proof.
  intros h.
  assert (Hne : QueuePredictor.positive_queue_times "A" h ≠ [])
    by (vm_compute; discriminate).
  assert (Hmean : mean (QueuePredictor.positive_queue_times "A" h)
                  = Returns (Finite 3599)) by (vm_compute; reflexivity).
  split; [exact Hne|]. split; [exact Hmean|].
  destruct (estimate_average_wait_spec "A" h) as (_ & Hfmt & _).
  rewrite (Hfmt Hne 3599%Q Hmean). vm_compute. reflexivity.
Defined.

(** C6 as stated fails when the sum of the positive samples overflows:
    two samples of 1e308 seconds are positive, and the call raises instead
    of returning a wait. *)
Lemma estimate_average_wait_overflow_counterexample :
  let big := literal (inject_Z (10 ^ 308)) in
  let h : gmap string (list QueuePredictor.sample) :=
    {[ "A" := [QueuePredictor.Sample "t1" "j1" big (Int 10);
               QueuePredictor.Sample "t2" "j2" big (Int 20)] ]} in
  QueuePredictor.positive_queue_times "A" h ≠ [] ∧
  QueuePredictor.estimate_average_wait "A" h = Raises OverflowError ∧
  ¬ ∃ s, QueuePredictor.estimate_average_wait "A" h = Returns s.
Proof.
  intros big h.
  assert (Hraise : QueuePredictor.estimate_average_wait "A" h
                   = Raises OverflowError) by (vm_compute; reflexivity).
  split; [vm_compute; discriminate|]. split; [exact Hraise|].
  intros [s Hs]. rewrite Hraise in Hs. discriminate.
Qed.

(** The thresholds on single samples of 59, 60, 3599 and 3600 seconds, and
    two means that rounding moves across the threshold of 60: the mean of
    59.99999999999999 and 60.0 rounds up to 60.0, the sum of 52.4, 67.7,
    58.8, 58.2 and 62.9 rounds to a double below 300. *)
Example estimate_average_wait_thresholds :
  let store (qts : list num) : gmap string (list QueuePredictor.sample) :=
    {[ "A" := (λ qt, QueuePredictor.Sample "t" "j" qt (Int 1)) <$> qts ]} in
  QueuePredictor.estimate_average_wait "A" (store [Int 59]) = Returns "59 seconds" ∧
  QueuePredictor.estimate_average_wait "A" (store [Int 60]) = Returns "1 minutes" ∧
  QueuePredictor.estimate_average_wait "A" (store [Int 3599]) = Returns "59 minutes" ∧
  QueuePredictor.estimate_average_wait "A" (store [Int 3600]) = Returns "1 hours" ∧
  QueuePredictor.estimate_average_wait "A" (store [Int 0]) = Returns "Unknown" ∧
  QueuePredictor.estimate_average_wait "B" (store [Int 59]) = Returns "Unknown" ∧
  QueuePredictor.estimate_average_wait "A"
    (store [literal (5999999999999999 # 100000000000000); literal 60])
  = Returns "1 minutes" ∧
  QueuePredictor.estimate_average_wait "A"
    (store [literal (524 # 10); literal (677 # 10); literal (588 # 10);
            literal (582 # 10); literal (629 # 10)])
  = Returns "59 seconds".
Proof. vm_compute. repeat split. Qed.

(* ===================================================================== *)
(** * The event history store                                             *)
(* ===================================================================== *)

Lemma odict_get_set {V} (k k' : string) (v : V) (d : list (string * V)) :
  odict_get k' (odict_set k v d) =
  if decide (k = k') then Some v else odict_get k' d.
Proof.
  induction d as [|[k0 v0] d IH]; simpl.
  - destruct (decide (k' = k)), (decide (k = k')); congruence.
  - destruct (decide (k = k0)) as [->|Hk]; simpl.
    + destruct (decide (k' = k0)), (decide (k0 = k')); congruence.
    + destruct (decide (k' = k0)) as [->|Hk']; [|done].
      by rewrite decide_False.
Qed.

Section Timeline.

Import HistoricalAnalyzer.
Variable isoformat : Q → string.

Lemma get_job_timeline_record now jid ety ts payload h t :
  get_job_timeline t (record_job_event isoformat now jid ety ts payload h) =
  if decide (jid = t)
  then get_job_timeline jid h ++
       [Event ety
          (match ts with
           | Some s => if decide (s = "") then isoformat now else s
           | None => isoformat now
           end)
          (default ∅ payload)]
  else get_job_timeline t h.
Proof.
  unfold get_job_timeline, record_job_event.
  rewrite odict_get_set.
  destruct (decide (jid = t)) as [->|Hne].
  - simpl. destruct (odict_get t h) as [l|] eqn:Ht; simpl.
    + by rewrite Ht.
    + by rewrite odict_get_set, decide_True.
  - destruct (odict_get jid h); [done|].
    by rewrite odict_get_set, decide_False.
Qed.

Lemma get_job_timeline_unknown t (h : list (string * list event)) :
  odict_get t h = None → get_job_timeline t h = [].
Proof. unfold get_job_timeline. by intros ->. Qed.

Lemma get_job_timeline_run calls h t :
  get_job_timeline t (run isoformat calls h) =
  get_job_timeline t h ++ recorded isoformat t calls.
Proof.
  induction calls as [|c calls IH] using rev_ind.
  - simpl. by rewrite app_nil_r.
  - unfold run, recorded. rewrite fold_left_app, bind_app. simpl.
    fold (run isoformat calls h). fold (recorded isoformat t calls).
    rewrite app_nil_r, app_assoc, <- IH.
    destruct c as [now j ety ts payload| | |]; simpl;
      try by rewrite app_nil_r.
    rewrite get_job_timeline_record.
    destruct (decide (j = t)) as [->|Hne]; [done|by rewrite app_nil_r].
Qed.

End Timeline.

(** C3.  After any sequence of calls on the store, the timeline of a job is
    what the store held for it at the start followed by exactly the events
    that the [record_job_event] calls for that job appended, one per call
    and in call order; the reads and the save in between change nothing.
    On a fresh store the timeline is just those events, so it is the empty
    list for a job no call recorded. *)
Theorem get_job_timeline_in_record_order
    (isoformat : Q → string) (calls : list HistoricalAnalyzer.call)
    (h0 : list (string * list HistoricalAnalyzer.event)) (t : string) :
  HistoricalAnalyzer.get_job_timeline t
    (HistoricalAnalyzer.run isoformat calls h0)
  = HistoricalAnalyzer.get_job_timeline t h0
    ++ HistoricalAnalyzer.recorded isoformat t calls
  ∧ HistoricalAnalyzer.get_job_timeline t
      (HistoricalAnalyzer.run isoformat calls [])
    = HistoricalAnalyzer.recorded isoformat t calls
  ∧ HistoricalAnalyzer.get_job_timeline t [] = [].
Proof.
  split; [apply get_job_timeline_run|].
  split; [|done]. by rewrite get_job_timeline_run.
Qed.

(** Recording the same event twice appends it twice; a job that was never
    recorded has an empty timeline. *)
Example get_job_timeline_duplicates :
  let calls :=
    [HistoricalAnalyzer.RecordJobEvent 5 "job-1" "queued" (Some "2024-01-01T00:00:00") None;
     HistoricalAnalyzer.GetAnalytics None;
     HistoricalAnalyzer.RecordJobEvent 7 "job-2" "submitted" None None;
     HistoricalAnalyzer.RecordJobEvent 5 "job-1" "queued" (Some "2024-01-01T00:00:00") None] in
  let h := HistoricalAnalyzer.run QueuePredictor.epoch_seconds calls [] in
  HistoricalAnalyzer.get_job_timeline "job-1" h =
    [HistoricalAnalyzer.Event "queued" "2024-01-01T00:00:00" ∅;
     HistoricalAnalyzer.Event "queued" "2024-01-01T00:00:00" ∅] ∧
  HistoricalAnalyzer.get_job_timeline "job-2" h =
    [HistoricalAnalyzer.Event "submitted" "7" ∅] ∧
  HistoricalAnalyzer.get_job_timeline "job-3" h = [].
Proof. vm_compute. repeat split. Qed.

(* ===================================================================== *)
(** * The recommendation scorer                                           *)
(* ===================================================================== *)

Lemma Qmin_ltb (a b : Q) : Qmin a b = if Qltb b a then b else a.
Proof.
  unfold Qmin, GenericMinMax.gmin, Qltb, Qcompare.
  rewrite Z.ltb_compare, (Z.compare_antisym (Qnum a * QDen b)).
  by destruct (Qnum a * QDen b ?= Qnum b * QDen a).
Qed.

Lemma Qmax_ltb (a b : Q) : Qmax a b = if Qltb a b then b else a.
Proof.
  unfold Qmax, GenericMinMax.gmax, Qltb, Qcompare.
  rewrite Z.ltb_compare.
  by destruct (Qnum a * QDen b ?= Qnum b * QDen a).
Qed.

Lemma clamp_bounds x :
  (0 <= BackendRecommender.clamp x)%Q ∧ (BackendRecommender.clamp x <= 100)%Q.
Proof.
  unfold BackendRecommender.clamp. split.
  - apply Q.le_max_l.
  - apply Q.max_lub; [done|apply Q.le_min_r].
Qed.

Lemma clamp_mono x y :
  (x <= y)%Q → (BackendRecommender.clamp x <= BackendRecommender.clamp y)%Q.
Proof.
  intros Hxy. unfold BackendRecommender.clamp.
  by apply Q.max_le_compat_l, Q.min_le_compat_r.
Qed.

Lemma clamp_ge_100 x : (100 <= x)%Q → (BackendRecommender.clamp x == 100)%Q.
Proof.
  intros Hx. unfold BackendRecommender.clamp.
  rewrite (Q.min_r x 100) by done. reflexivity.
Qed.

(** The clamp of the code on the two kinds of numbers. *)
Lemma clamp_Int z :
  value (num_max (Int 0) (num_min (Int z) (Int 100)))
  = BackendRecommender.clamp (inject_Z z).
Proof.
  unfold BackendRecommender.clamp. rewrite Qmax_ltb, Qmin_ltb.
  unfold num_min, num_max, num_lt. cbn [exact flt].
  change (inject_Z 100) with 100%Q. change (inject_Z 0) with 0%Q.
  destruct (Qltb 100 (inject_Z z)); [reflexivity|].
  cbn [exact flt]. change (inject_Z 0) with 0%Q.
  by destruct (Qltb 0 (inject_Z z)).
Qed.

Lemma clamp_Float f :
  value (num_max (Int 0) (num_min (Float f) (Int 100))) = clamp_float f.
Proof.
  destruct f as [x| | |]; try reflexivity.
  unfold clamp_float. rewrite Qmax_ltb, Qmin_ltb.
  unfold num_min, num_max, num_lt. cbn [exact flt].
  change (inject_Z 100) with 100%Q. change (inject_Z 0) with 0%Q.
  destruct (Qltb 100 x); [reflexivity|].
  cbn [exact flt]. change (inject_Z 0) with 0%Q.
  by destruct (Qltb 0 x).
Qed.

Lemma clamp_float_bounds f : (0 <= clamp_float f)%Q ∧ (clamp_float f <= 100)%Q.
Proof.
  destruct f as [x| | |]; simpl; try (split; discriminate).
  apply clamp_bounds.
Qed.

Lemma clamp_float_mono f g : fle f g → (clamp_float f <= clamp_float g)%Q.
Proof.
  destruct f as [x| | |], g as [y| | |]; simpl; try done;
    try discriminate.
  - apply clamp_mono.
  - intros _. apply (clamp_bounds x).
  - intros _. apply (clamp_bounds y).
Qed.

(** Whatever number the scorer has arrived at, the clamp returns a rational
    between 0 and 100. *)
Lemma clamp_num_bounds (score : num) :
  (0 <= value (num_max (Int 0) (num_min score (Int 100))))%Q ∧
  (value (num_max (Int 0) (num_min score (Int 100))) <= 100)%Q.
Proof.
  destruct score as [z|f].
  - rewrite clamp_Int. apply clamp_bounds.
  - rewrite clamp_Float. apply clamp_float_bounds.
Qed.

Lemma base_score_ge_50 p sim : 50 ≤ BackendRecommender.base_score p sim.
Proof. unfold BackendRecommender.base_score. destruct sim; lia. Qed.

(** The scorer fails on a [pending_jobs] that is not a number; on a number
    it goes on from the score before the bonus. *)
Lemma calculate_backend_score_as_int name info :
  BackendRecommender.calculate_backend_score name info =
  match as_int (dict_get_default "pending_jobs" (PInt 0) info) with
  | Some p =>
      BackendRecommender.score_with
        (BackendRecommender.base_score p
           (truthy (dict_get_default "simulator" (PBool false) info)))
        (dict_get_default "qubits" (PInt 0) info)
  | None => Raises TypeError
  end.
Proof.
  unfold BackendRecommender.calculate_backend_score,
    BackendRecommender.score_with, BackendRecommender.base_score.
  assert (Hmin : ∀ x, (if 50 <? x then 50 else x) = Z.min x 50).
  { intros x. destruct (50 <? x) eqn:Hlt;
      [apply Z.ltb_lt in Hlt|apply Z.ltb_ge in Hlt]; lia. }
  destruct (dict_get_default "pending_jobs" (PInt 0) info) as [|b|z|str];
    cbn [BackendRecommender.mul_int BackendRecommender.min_int as_int
         mbind outcome_bind]; try reflexivity.
  - rewrite Hmin. destruct (truthy _).
    + reflexivity.
    + by rewrite Z.add_0_r.
  - rewrite Hmin. destruct (truthy _).
    + reflexivity.
    + by rewrite Z.add_0_r.
Qed.

(** The rest of the scorer for an integer qubit count. *)
Lemma score_with_int b v q :
  as_int v = Some q →
  BackendRecommender.score_with b v =
  match to_float (inject_Z q / 5) with
  | Finite f =>
      if Qltb 20 f then Returns (BackendRecommender.clamp (inject_Z (b + 20)))
      else y ← float_of_int b; Returns (clamp_float (fadd y (Finite f)))
  | _ => Raises OverflowError
  end.
Proof.
  intros Hv. unfold BackendRecommender.score_with. rewrite Hv.
  set (finish := λ score : num,
         Returns (value (num_max (Int 0) (num_min score (Int 100))))).
  unfold num_truediv. change (5 =? 0) with false. cbn iota.
  change (inject_Z 5) with 5%Q.
  destruct (to_float (inject_Z q / 5)) as [f| | |]; try reflexivity.
  cbn [mbind outcome_bind]. unfold num_min, num_lt. cbn [exact flt].
  change (inject_Z 20) with 20%Q.
  destruct (Qltb 20 f).
  - cbn [num_add mbind outcome_bind]. unfold finish. by rewrite clamp_Int.
  - cbn [num_add as_float mbind outcome_bind].
    destruct (float_of_int b) as [y|]; [|done].
    cbn [mbind outcome_bind]. unfold finish. by rewrite clamp_Float.
Qed.

Lemma score_with_not_int b v :
  as_int v = None →
  BackendRecommender.score_with b v
  = Returns (BackendRecommender.clamp (inject_Z b)).
Proof.
  intros Hv. unfold BackendRecommender.score_with. rewrite Hv.
  cbn [mbind outcome_bind]. by rewrite clamp_Int.
Qed.

(** A score that is returned lies between 0 and 100. *)
Lemma score_with_bounds b v s :
  BackendRecommender.score_with b v = Returns s →
  (0 <= s)%Q ∧ (s <= 100)%Q.
Proof.
  unfold BackendRecommender.score_with.
  destruct (match as_int v with Some _ => _ | None => _ end) as [score|];
    [|done].
  cbn [mbind outcome_bind]. intros [= <-]. apply clamp_num_bounds.
Qed.

(** The only errors of the rest of the scorer are overflows, and they need
    an integer qubit count. *)
Lemma score_with_Raises b v e :
  BackendRecommender.score_with b v = Raises e →
  e = OverflowError ∧ is_Some (as_int v).
Proof.
  destruct (as_int v) as [q|] eqn:Hv.
  - rewrite (score_with_int b v q Hv).
    destruct (to_float _) as [f| | |]; try (intros [= <-]; by eauto).
    destruct (Qltb 20 f); [done|].
    destruct (float_of_int b) as [y|e'] eqn:Hy; [done|].
    cbn [mbind outcome_bind]. intros [= <-].
    apply float_of_int_Raises in Hy. by eauto.
  - by rewrite score_with_not_int.
Qed.

Lemma pow2_1000_lt_limit : 5 * 2 ^ 1000 + 200 < float_limit.
Proof. reflexivity. Qed.

(** Within 1000 bits nothing overflows. *)
Lemma score_with_returns b v :
  50 ≤ b ≤ 2 ^ 1001 + 200 →
  match as_int v with Some q => - 2 ^ 1000 ≤ q ≤ 2 ^ 1000 | None => True end →
  ∃ s, BackendRecommender.score_with b v = Returns s.
Proof.
  intros Hb Hq. destruct (as_int v) as [q|] eqn:Hv.
  - rewrite (score_with_int b v q Hv).
    pose proof pow2_1000_lt_limit as Hlim.
    assert (H2 : 2 ^ 1001 = 2 * 2 ^ 1000) by reflexivity.
    assert (Hpos : 0 < 2 ^ 1000) by reflexivity.
    rewrite to_float_finite; cycle 1.
    { apply Qlt_shift_div_l; [reflexivity|].
      change 5%Q with (inject_Z 5). rewrite <- inject_Z_mult, <- Zlt_Qlt. lia. }
    { apply Qlt_shift_div_r; [reflexivity|].
      change 5%Q with (inject_Z 5). rewrite <- inject_Z_mult, <- Zlt_Qlt. lia. }
    destruct (Qltb 20 _); [by eexists|].
    rewrite float_of_int_within by lia. cbn [mbind outcome_bind]. by eexists.
  - rewrite score_with_not_int by done. by eexists.
Qed.

Lemma base_score_upper p sim :
  - 2 ^ 1000 ≤ p → BackendRecommender.base_score p sim ≤ 2 ^ 1001 + 200.
Proof.
  intros Hp. unfold BackendRecommender.base_score.
  assert (H2 : 2 ^ 1001 = 2 * 2 ^ 1000) by reflexivity.
  destruct sim; lia.
Qed.

Lemma calculate_backend_score_returns name info :
  is_Some (as_int (dict_get_default "pending_jobs" (PInt 0) info)) →
  BackendRecommender.float_safe info →
  ∃ s, BackendRecommender.calculate_backend_score name info = Returns s.
Proof.
  intros [p Hp] [Hsafe1 Hsafe2]. rewrite calculate_backend_score_as_int.
  rewrite Hp in *. apply score_with_returns; [|done].
  split; [apply base_score_ge_50|by apply base_score_upper].
Qed.

(** The score does not go down when the score before the bonus goes up. *)
Lemma score_with_base_mono b b' v s s' :
  b ≤ b' →
  BackendRecommender.score_with b v = Returns s →
  BackendRecommender.score_with b' v = Returns s' →
  (s <= s')%Q.
Proof.
  intros Hb. destruct (as_int v) as [q|] eqn:Hv.
  - rewrite !(score_with_int _ v q Hv).
    destruct (to_float _) as [f| | |]; try done.
    destruct (Qltb 20 f).
    + intros [= <-] [= <-]. apply clamp_mono. rewrite <- Zle_Qle. lia.
    + destruct (float_of_int b) as [y|] eqn:Hy; [|done].
      destruct (float_of_int b') as [y'|] eqn:Hy'; [|done].
      cbn [mbind outcome_bind]. intros [= <-] [= <-].
      apply float_of_int_Returns in Hy as [-> _].
      apply float_of_int_Returns in Hy' as [-> _].
      apply clamp_float_mono. cbn [fadd]. apply to_float_mono.
      apply Qplus_le_l. apply round64_mono. by rewrite <- Zle_Qle.
  - rewrite !score_with_not_int by done.
    intros [= <-] [= <-]. apply clamp_mono. by rewrite <- Zle_Qle.
Qed.

Lemma to_float_Z z :
  - 2 ^ 53 < z < 2 ^ 53 → ∃ r, to_float (inject_Z z) = Finite r ∧ (r == inject_Z z)%Q.
Proof.
  intros Hz. exists (round64 (inject_Z z)). split; [|by apply round64_Z].
  assert (H53 : 2 ^ 53 < float_limit) by reflexivity.
  apply to_float_finite; rewrite <- Zlt_Qlt; lia.
Qed.

(** A float sum that is at most the small integer [b + 20] clamps to at
    most the clamp of that integer. *)
Lemma clamp_float_below b f :
  50 ≤ b < 80 → (f <= 20)%Q →
  (clamp_float (fadd (Finite (round64 (inject_Z b))) (Finite f))
   <= BackendRecommender.clamp (inject_Z (b + 20)))%Q.
Proof.
  intros Hb Hf. cbn [fadd].
  assert (H53 : 2 ^ 53 = 9007199254740992) by reflexivity.
  destruct (to_float_Z (b + 20)) as (r & Hr & Er); [lia|].
  assert (E : BackendRecommender.clamp (inject_Z (b + 20)) = clamp_float (Finite r)
              ∨ True) by (by right).
  apply Qle_trans with (clamp_float (to_float (inject_Z (b + 20)))).
  - apply clamp_float_mono, to_float_mono.
    rewrite inject_Z_plus. apply Qplus_le_compat; [|exact Hf].
    rewrite round64_Z by lia. apply Qle_refl.
  - rewrite Hr. simpl. apply clamp_mono. rewrite Er. apply Qle_refl.
Qed.

(** The score does not go down when the qubit count goes up. *)
Lemma score_with_qubits_mono b q q' s s' :
  50 ≤ b → q ≤ q' →
  BackendRecommender.score_with b (PInt q) = Returns s →
  BackendRecommender.score_with b (PInt q') = Returns s' →
  (s <= s')%Q.
Proof.
  intros Hb Hq. rewrite (score_with_int b (PInt q) q eq_refl).
  rewrite (score_with_int b (PInt q') q' eq_refl).
  assert (Hquot : (inject_Z q / 5 <= inject_Z q' / 5)%Q).
  { apply Qmult_le_compat_r; [by rewrite <- Zle_Qle|discriminate]. }
  pose proof (to_float_mono _ _ Hquot) as Hle.
  destruct (to_float (inject_Z q / 5)) as [f| | |]; try done.
  destruct (to_float (inject_Z q' / 5)) as [f'| | |]; try done.
  simpl in Hle.
  destruct (Qltb 20 f) eqn:Hf.
  - apply Qltb_lt in Hf.
    assert (Hf' : Qltb 20 f' = true)
      by (apply Qltb_lt; eapply Qlt_le_trans; eassumption).
    rewrite Hf'. intros [= <-] [= <-]. apply Qle_refl.
  - apply Qltb_ge in Hf.
    destruct (float_of_int b) as [y|] eqn:Hy; [|done].
    cbn [mbind outcome_bind]. intros [= <-].
    apply float_of_int_Returns in Hy as [-> _].
    destruct (Qltb 20 f') eqn:Hf'.
    + intros [= <-].
      destruct (Z_lt_le_dec b 80) as [Hsmall|Hlarge].
      * by apply clamp_float_below.
      * rewrite clamp_ge_100; [apply clamp_float_bounds|].
        change 100%Q with (inject_Z 100). rewrite <- Zle_Qle. lia.
    + cbn [mbind outcome_bind]. intros [= <-].
      apply clamp_float_mono. cbn [fadd]. apply to_float_mono.
      by apply Qplus_le_r.
Qed.

Lemma inject_Z_base_score p sim :
  (inject_Z (BackendRecommender.base_score p sim)
   == 100 - inject_Z (Z.min (p * 2) 50) + (if sim then 10 else 0))%Q.
Proof.
  unfold BackendRecommender.base_score, Z.sub.
  rewrite !inject_Z_plus, inject_Z_opp.
  destruct sim; [change (inject_Z 10) with 10%Q|change (inject_Z 0) with 0%Q];
    change (inject_Z 100) with 100%Q; ring.
Qed.

Lemma clamp_proper x y :
  (x == y)%Q → (BackendRecommender.clamp x == BackendRecommender.clamp y)%Q.
Proof.
  intros E. apply Qle_antisym; apply clamp_mono; rewrite E; apply Qle_refl.
Qed.

Lemma Qmin_inject_Z (k n : Z) :
  (Qmin (inject_Z k) (inject_Z n) == inject_Z (Z.min k n))%Q.
Proof.
  destruct (Z.le_gt_cases k n) as [H|H].
  - rewrite Z.min_l by done. apply Q.min_l. by rewrite <- Zle_Qle.
  - rewrite Z.min_r by lia. apply Q.min_r. rewrite <- Zle_Qle. lia.
Qed.

Lemma Qmin_proper_l x y z : (x == y)%Q → (Qmin x z == Qmin y z)%Q.
Proof.
  intros E. apply Qle_antisym; apply Q.min_le_compat_r; rewrite E; apply Qle_refl.
Qed.

(** Where the qubit bonus is a whole number: a qubit count that is a
    multiple of 5, or one of at least 100, whose bonus is 20. *)
Lemma whole_bonus q :
  - 2 ^ 51 ≤ q ≤ 2 ^ 51 → q mod 5 = 0 ∨ 100 ≤ q →
  ∃ n, - 2 ^ 51 ≤ n ≤ 20 ∧
       (Qmin (round64 (inject_Z q / 5)) 20 == inject_Z n)%Q ∧
       (Qmin (inject_Z q / 5) 20 == inject_Z n)%Q.
Proof.
  intros Hq [Hmod|Hbig].
  - set (k := q / 5).
    assert (Hk : q = 5 * k) by (unfold k; apply Z.div_exact; lia).
    assert (Hkb : - 2 ^ 51 ≤ k ≤ 2 ^ 51) by lia.
    assert (Ek : (inject_Z q / 5 == inject_Z k)%Q).
    { rewrite Hk, inject_Z_mult. change (inject_Z 5) with 5%Q. field. }
    assert (H53 : 2 ^ 53 = 4 * 2 ^ 51) by reflexivity.
    assert (Hpos : 0 < 2 ^ 51) by reflexivity.
    exists (Z.min k 20). split; [lia|]. split.
    + rewrite (round64_proper _ _ Ek).
      rewrite (Qmin_proper_l _ _ _ (round64_Z k ltac:(lia))).
      apply (Qmin_inject_Z k 20).
    + rewrite (Qmin_proper_l _ _ _ Ek). apply (Qmin_inject_Z k 20).
  - exists 20. split; [split; [|lia]; apply Z.lt_le_incl; reflexivity|].
    assert (Hge : (20 <= inject_Z q / 5)%Q).
    { apply Qle_shift_div_l; [reflexivity|].
      change (20 * 5)%Q with (inject_Z 100). by rewrite <- Zle_Qle. }
    split.
    + apply Q.min_r.
      assert (E : (round64 20 == 20)%Q) by reflexivity.
      rewrite <- E at 1. by apply round64_mono.
    + by apply Q.min_r.
Qed.

(** C4, as the code has it.  For a status whose [pending_jobs] and
    [qubits] are integers within 51 bits the scorer returns
    [100 - min(pending_jobs * 2, 50) + (10 if simulator else 0)
     + min(qubits / 5, 20)] clamped to [0, 100], where the quotient and the
    sum are floats: each is rounded to the nearest double.  When the bonus
    is a whole number (a qubit count that is a multiple of 5, or one of at
    least 100) nothing is rounded and the score is the formula in exact
    arithmetic. *)
Theorem calculate_backend_score_formula
    (name : string) (info : gmap string pyval) (p q : Z) :
  info !! "pending_jobs" = Some (PInt p) →
  info !! "qubits" = Some (PInt q) →
  - 2 ^ 51 ≤ p → - 2 ^ 51 ≤ q ≤ 2 ^ 51 →
  ∃ s, BackendRecommender.calculate_backend_score name info = Returns s ∧
       (s ==
        Qmax 0
          (Qmin
             (round64
                (100 - inject_Z (Z.min (p * 2) 50)
                 + (if truthy (dict_get_default "simulator" (PBool false) info)
                    then 10 else 0)
                 + Qmin (round64 (inject_Z q / 5)) 20))
             100))%Q ∧
       ((0 <= s)%Q ∧ (s <= 100)%Q) ∧
       (q mod 5 = 0 ∨ 100 ≤ q →
        (s ==
         Qmax 0
           (Qmin
              (100 - inject_Z (Z.min (p * 2) 50)
               + (if truthy (dict_get_default "simulator" (PBool false) info)
                  then 10 else 0)
               + Qmin (inject_Z q / 5) 20)
              100))%Q).
Proof.
  intros Hp Hq Hpb Hqb.
  rewrite calculate_backend_score_as_int. unfold dict_get_default at 1 3.
  rewrite Hp, Hq.
  change (default (PInt 0) (Some (PInt p))) with (PInt p).
  change (default (PInt 0) (Some (PInt q))) with (PInt q). cbn [as_int].
  set (sim := truthy (dict_get_default "simulator" (PBool false) info)).
  pose proof (inject_Z_base_score p sim) as Ebase.
  pose proof (base_score_ge_50 p sim) as Hb50.
  set (base := BackendRecommender.base_score p sim) in *.
  assert (H51 : 0 < 2 ^ 51) by reflexivity.
  assert (H52 : 2 ^ 52 = 2 * 2 ^ 51) by reflexivity.
  assert (H53 : 2 ^ 53 = 4 * 2 ^ 51) by reflexivity.
  assert (Hlim : 8 * 2 ^ 51 < float_limit) by reflexivity.
  assert (Hbase : base ≤ 2 ^ 52 + 110).
  { unfold base, BackendRecommender.base_score. destruct sim; lia. }
  assert (Hbig : 110 < 2 ^ 51) by reflexivity.
  assert (Hquot : (inject_Z (- 2 ^ 51) <= inject_Z q / 5)%Q ∧
                  (inject_Z q / 5 <= inject_Z (2 ^ 51))%Q).
  { split.
    - apply Qle_shift_div_l; [reflexivity|].
      change 5%Q with (inject_Z 5). rewrite <- inject_Z_mult, <- Zle_Qle. lia.
    - apply Qle_shift_div_r; [reflexivity|].
      change 5%Q with (inject_Z 5). rewrite <- inject_Z_mult, <- Zle_Qle. lia. }
  destruct Hquot as [Hquot0 Hquot1].
  set (f := round64 (inject_Z q / 5)).
  assert (Hf : (inject_Z (- 2 ^ 51) <= f)%Q ∧ (f <= inject_Z (2 ^ 51))%Q).
  { unfold f. split.
    - rewrite <- (round64_Z (- 2 ^ 51)) by lia. by apply round64_mono.
    - rewrite <- (round64_Z (2 ^ 51)) by lia. by apply round64_mono. }
  destruct Hf as [Hf0 Hf1].
  rewrite (score_with_int base (PInt q) q eq_refl).
  rewrite to_float_finite; cycle 1.
  { eapply Qlt_le_trans; [|exact Hquot0]. rewrite <- Zlt_Qlt. lia. }
  { eapply Qle_lt_trans; [exact Hquot1|]. rewrite <- Zlt_Qlt. lia. }
  fold f.
  assert (Hscore : ∃ s,
    (if Qltb 20 f
     then Returns (BackendRecommender.clamp (inject_Z (base + 20)))
     else y ← float_of_int base; Returns (clamp_float (fadd y (Finite f))))
    = Returns s ∧
    (s == BackendRecommender.clamp (round64 (inject_Z base + Qmin f 20)))%Q).
  { destruct (Qltb 20 f) eqn:H20.
    - apply Qltb_lt in H20. eexists. split; [reflexivity|].
      apply clamp_proper.
      assert (E : (inject_Z base + Qmin f 20 == inject_Z (base + 20))%Q).
      { rewrite (Q.min_r f 20) by (by apply Qlt_le_weak).
        rewrite inject_Z_plus. reflexivity. }
      rewrite (round64_proper _ _ E). symmetry. apply round64_Z. lia.
    - apply Qltb_ge in H20.
      rewrite float_of_int_within by lia. cbn [mbind outcome_bind fadd].
      rewrite to_float_finite; cycle 1.
      { apply Qlt_le_trans with (inject_Z 0 + inject_Z (- 2 ^ 51))%Q.
        - rewrite <- inject_Z_plus, <- Zlt_Qlt. lia.
        - apply Qplus_le_compat; [|done].
          apply round64_nonneg, inject_Z_nonneg. lia. }
      { apply Qle_lt_trans with (inject_Z (2 ^ 53) + 20)%Q.
        - apply Qplus_le_compat; [|done].
          apply Qle_trans with (round64 (inject_Z (2 ^ 52 + 110))).
          + apply round64_mono. rewrite <- Zle_Qle. exact Hbase.
          + rewrite round64_Z by lia. rewrite <- Zle_Qle. lia.
        - change 20%Q with (inject_Z 20).
          rewrite <- inject_Z_plus, <- Zlt_Qlt. lia. }
      eexists. split; [reflexivity|]. cbn [clamp_float].
      change (Qmax 0 (Qmin ?x 100)) with (BackendRecommender.clamp x).
      apply clamp_proper.
      assert (E : (round64 (inject_Z base) + f == inject_Z base + Qmin f 20)%Q).
      { rewrite (Q.min_l f 20) by done.
        rewrite round64_Z by lia. reflexivity. }
      rewrite (round64_proper _ _ E). reflexivity. }
  destruct Hscore as (s & -> & Es). exists s. split; [done|].
  assert (Earg :
    (100 - inject_Z (Z.min (p * 2) 50) + (if sim then 10 else 0) + Qmin f 20
     == inject_Z base + Qmin f 20)%Q) by (rewrite Ebase; reflexivity).
  split; [|split].
  - rewrite Es. rewrite (round64_proper _ _ Earg). reflexivity.
  - rewrite Es. apply clamp_bounds.
  - intros Hwhole. destruct (whole_bonus q Hqb Hwhole) as (n & Hn & En & En').
    rewrite Es.
    change (Qmax 0 (Qmin ?x 100)) with (BackendRecommender.clamp x).
    apply clamp_proper.
    assert (E1 : (inject_Z base + Qmin f 20 == inject_Z (base + n))%Q)
      by (unfold f; rewrite En, inject_Z_plus; reflexivity).
    rewrite (round64_proper _ _ E1), round64_Z by lia.
    rewrite En', <- Ebase, inject_Z_plus. reflexivity.
Qed.

Lemma calculate_backend_score_formula_witness :
  let info : gmap string pyval :=
    {[ "operational" := PBool true; "pending_jobs" := PInt 10;
       "qubits" := PInt 20; "simulator" := PBool false ]} in
  - 2 ^ 51 ≤ 10 ∧ - 2 ^ 51 ≤ 20 ≤ 2 ^ 51 ∧ (20 mod 5 = 0 ∨ 100 ≤ 20) ∧
  ∃ s, BackendRecommender.calculate_backend_score "ibm_q" info = Returns s ∧
       (s == 84)%Q.
Proof.
  intros info.
  assert (Hp : - 2 ^ 51 ≤ 10) by (vm_compute; discriminate).
  assert (Hq : - 2 ^ 51 ≤ 20 ≤ 2 ^ 51) by (vm_compute; split; discriminate).
  assert (Hw : 20 mod 5 = 0 ∨ 100 ≤ 20) by (left; reflexivity).
  split; [exact Hp|]. split; [exact Hq|]. split; [exact Hw|].
  destruct (calculate_backend_score_formula "ibm_q" info 10 20)
    as (s & Hs & _ & _ & Heq); [reflexivity|reflexivity|exact Hp|exact Hq|].
  exists s. split; [exact Hs|].
  rewrite (Heq Hw). vm_compute. reflexivity.
Defined.

(** C4 as stated fails on integers that are too large: a qubit count of
    [10^400] makes the division [qubits / 5] raise, and with
    [pending_jobs = -10^17] and [qubits = -10^18] the float sum loses the
    low digits, giving 96 where the formula gives 100. *)
Lemma calculate_backend_score_large_counterexample :
  let status (p q : Z) : gmap string pyval :=
    {[ "operational" := PBool true; "pending_jobs" := PInt p;
       "qubits" := PInt q; "simulator" := PBool false ]} in
  BackendRecommender.calculate_backend_score "ibm_q" (status 1 (10 ^ 400))
  = Raises OverflowError ∧
  BackendRecommender.calculate_backend_score "ibm_q"
    (status (- 10 ^ 17) (- 10 ^ 18)) = Returns 96%Q ∧
  (Qmax 0
     (Qmin (100 - inject_Z (Z.min (- 10 ^ 17 * 2) 50) + 0
            + Qmin (inject_Z (- 10 ^ 18) / 5) 20) 100) == 100)%Q.
Proof. intros status. vm_compute. repeat split. Qed.

Lemma get_recommendation_reason_int_pending name info sc p :
  dict_get_default "pending_jobs" (PInt 0) info = PInt p →
  BackendRecommender.get_recommendation_reason name info sc =
  Returns
    (join ", "
       ((if p =? 0 then ["No jobs in queue"]
         else if p <? 5 then ["Short queue"]
         else [pretty p +:+ " jobs in queue"])
        ++ (if truthy (dict_get_default "simulator" (PBool false) info)
            then ["Simulator (good for testing)"] else [])
        ++ (match as_int (dict_get_default "qubits" (PInt 0) info) with
            | Some q => if 10 <? q then ["High qubit count"] else []
            | None => []
            end))).
Proof.
  intros Hp. unfold BackendRecommender.get_recommendation_reason.
  rewrite Hp. unfold py_eqb. simpl.
  destruct (p =? 0); simpl.
  - destruct (truthy _), (as_int _) as [q|]; try destruct (10 <? q); done.
  - destruct (p <? 5); simpl;
      destruct (truthy _), (as_int _) as [q|]; try destruct (10 <? q); done.
Qed.

Section SortByScore.

Import BackendRecommender.

Lemma insert_desc_Forall (P : recommendation → Prop) x recs :
  P x → Forall P recs → Forall P (insert_desc Qltb score x recs).
Proof.
  intros Hx. induction 1 as [|y recs Hy Hrecs IH]; simpl.
  - by constructor.
  - destruct (Qltb (score x) (score y)); repeat constructor; done.
Qed.

Lemma insert_desc_sorted x recs :
  by_score_descending recs →
  by_score_descending (insert_desc Qltb score x recs).
Proof.
  unfold by_score_descending.
  induction 1 as [|y recs Hsorted IH Hy]; simpl.
  - repeat constructor.
  - destruct (Qltb (score x) (score y)) eqn:Hlt.
    + apply Qltb_lt in Hlt. constructor; [done|].
      apply insert_desc_Forall; [by apply Qlt_le_weak|done].
    + apply Qltb_ge in Hlt. constructor; [by constructor|].
      constructor; [done|].
      eapply Forall_impl; [exact Hy|].
      intros z Hz. simpl in Hz. by apply Qle_trans with (score y).
Qed.

Lemma sort_reverse_sorted recs :
  by_score_descending (sort_reverse Qltb score recs).
Proof.
  induction recs as [|x recs IH]; simpl; [constructor|].
  by apply insert_desc_sorted.
Qed.

(** The sort only rearranges. *)
Lemma insert_desc_perm x (recs : list recommendation) :
  insert_desc Qltb score x recs ≡ₚ x :: recs.
Proof.
  induction recs as [|y recs IH]; simpl; [done|].
  destruct (Qltb (score x) (score y)); [|done].
  rewrite IH. apply Permutation_swap.
Qed.

Lemma sort_reverse_perm (recs : list recommendation) :
  sort_reverse Qltb score recs ≡ₚ recs.
Proof.
  induction recs as [|x recs IH]; simpl; [done|].
  by rewrite insert_desc_perm, IH.
Qed.

Lemma take_sorted n recs :
  by_score_descending recs → by_score_descending (take n recs).
Proof.
  intros Hsorted. rewrite <- (take_drop n recs) in Hsorted.
  by apply StronglySorted_app_1_l in Hsorted.
Qed.

End SortByScore.

(** Within 1000 bits the loop of [get_recommendations] runs through. *)
Lemma collect_returns cache :
  Forall (λ item, BackendRecommender.integer_valued item.2 ∧
                  BackendRecommender.float_safe item.2) cache →
  ∃ recs, BackendRecommender.collect cache = Returns recs.
Proof.
  induction 1 as [|[name info] cache [[[p Hp] _] Hsafe] _ [recs IH]]; simpl.
  - by eexists.
  - destruct (negb _); [by eexists|]. simpl in Hp, Hsafe.
    destruct (calculate_backend_score_returns name info) as [s ->];
      [rewrite Hp; by eexists|done|].
    cbn [mbind outcome_bind].
    rewrite (get_recommendation_reason_int_pending _ _ _ p Hp).
    cbn [mbind outcome_bind]. rewrite IH. cbn [mbind outcome_bind].
    by eexists.
Qed.

(** C8.  Raising [pending_jobs] alone does not raise a score, and raising
    [qubits] alone does not lower it: whenever the scorer returns for both
    statuses, the scores compare as said.  Whatever [get_recommendations]
    returns is sorted by score, highest first, and has at most 3 entries.
    On a snapshot of statuses whose numeric fields are integers of at most
    1000 bits, it does return. *)
Theorem score_monotone_and_top3_sorted
    (uid name : string) (cache : list (string * gmap string pyval))
    (info : gmap string pyval) (p p' q q' : Z) :
  p ≤ p' → q ≤ q' →
  (∀ s s',
     BackendRecommender.calculate_backend_score name
       (<["pending_jobs" := PInt p]> info) = Returns s →
     BackendRecommender.calculate_backend_score name
       (<["pending_jobs" := PInt p']> info) = Returns s' →
     (s' <= s)%Q) ∧
  (∀ s s',
     BackendRecommender.calculate_backend_score name
       (<["qubits" := PInt q]> info) = Returns s →
     BackendRecommender.calculate_backend_score name
       (<["qubits" := PInt q']> info) = Returns s' →
     (s <= s')%Q) ∧
  (∀ recs,
     BackendRecommender.get_recommendations uid cache = Returns recs →
     BackendRecommender.by_score_descending recs ∧ (length recs ≤ 3)%nat) ∧
  (Forall (λ item, BackendRecommender.integer_valued item.2 ∧
                   BackendRecommender.float_safe item.2) cache →
   ∃ recs, BackendRecommender.get_recommendations uid cache = Returns recs).
Proof.
  intros Hp Hq. split; [|split; [|split]].
  - intros s s'. rewrite !calculate_backend_score_as_int.
    unfold dict_get_default. rewrite !lookup_insert_eq.
    rewrite !lookup_insert_ne by done. cbn [default as_int].
    change (default (PInt 0) (Some (PInt p))) with (PInt p).
    change (default (PInt 0) (Some (PInt p'))) with (PInt p'). cbn [as_int].
    intros Hs Hs'. eapply score_with_base_mono; [|exact Hs'|exact Hs].
    unfold BackendRecommender.base_score. destruct (truthy _); lia.
  - intros s s'. rewrite !calculate_backend_score_as_int.
    unfold dict_get_default. rewrite !lookup_insert_eq.
    rewrite !lookup_insert_ne by done.
    change (default (PInt 0) (Some (PInt q))) with (PInt q).
    change (default (PInt 0) (Some (PInt q'))) with (PInt q').
    destruct (as_int (default (PInt 0) (info !! "pending_jobs"))) as [p0|];
      [|done].
    apply score_with_qubits_mono; [apply base_score_ge_50|done].
  - intros recs. unfold BackendRecommender.get_recommendations.
    destruct (BackendRecommender.collect cache) as [all|]; [|done].
    cbn [mbind outcome_bind]. intros [= <-]. split.
    + apply take_sorted, sort_reverse_sorted.
    + rewrite length_take. lia.
  - intros Hcache. destruct (collect_returns cache Hcache) as [all Hall].
    unfold BackendRecommender.get_recommendations. rewrite Hall.
    cbn [mbind outcome_bind]. by eexists.
Qed.

Lemma score_monotone_and_top3_sorted_witness :
  let simulator : gmap string pyval :=
    {[ "operational" := PBool true; "pending_jobs" := PInt 0;
       "qubits" := PInt 5; "simulator" := PBool true ]} in
  let hardware : gmap string pyval :=
    {[ "operational" := PBool true; "pending_jobs" := PInt 10;
       "qubits" := PInt 20; "simulator" := PBool false ]} in
  let cache := [("aer", simulator); ("ibm_a", hardware);
                ("ibm_b", hardware); ("ibm_c", hardware)] in
  0 ≤ 10 ∧ 5 ≤ 20 ∧
  ∃ recs,
    BackendRecommender.get_recommendations "alice" cache = Returns recs ∧
    BackendRecommender.by_score_descending recs ∧
    (length recs ≤ 3)%nat.
Proof.
  intros simulator hardware cache.
  assert (H1 : 0 ≤ 10) by lia.
  assert (H2 : 5 ≤ 20) by lia.
  split; [exact H1|]. split; [exact H2|].
  destruct (score_monotone_and_top3_sorted "alice" "ibm_a" cache hardware
              0 10 5 20 H1 H2) as (_ & _ & Hsorted & Hreturns).
  assert (Hsafe : ∀ info : gmap string pyval,
    info = simulator ∨ info = hardware →
    BackendRecommender.integer_valued info ∧ BackendRecommender.float_safe info).
  { intros info [->| ->]; (split; [split; eexists; reflexivity|]);
      vm_compute; repeat split; discriminate. }
  destruct Hreturns as [recs Hrecs].
  { repeat (apply List.Forall_cons; [apply Hsafe; simpl; tauto|]).
    apply List.Forall_nil. }
  exists recs. split; [exact Hrecs|]. exact (Hsorted recs Hrecs).
Defined.

(* ===================================================================== *)
(** * Statuses whose qubit count is not an integer                        *)
(* ===================================================================== *)
(* ===================================================================== *)
(** * Statuses whose qubit count is not an integer                        *)
(* ===================================================================== *)

Lemma occurs_app c (s t : string) :
  occurs c (s +:+ t) = occurs c s || occurs c t.
Proof.
  induction s as [|a s IH]; simpl; [done|].
  by rewrite IH, orb_assoc.
Qed.

Lemma contains_occurs needle hay c :
  contains needle hay → occurs c needle = true → occurs c hay = true.
Proof.
  intros (pre & post & ->) Hc.
  rewrite !occurs_app, Hc. apply orb_true_iff. right. done.
Qed.

Lemma occurs_join c sep xs :
  occurs c sep = false → Forall (λ x, occurs c x = false) xs →
  occurs c (join sep xs) = false.
Proof.
  intros Hsep. induction 1 as [|x xs Hx Hxs IH]; [done|].
  destruct xs as [|y ys]; [done|].
  change (join sep (x :: y :: ys)) with (x +:+ sep +:+ join sep (y :: ys)).
  by rewrite !occurs_app, Hx, Hsep, IH.
Qed.

(** Decimal numerals consist of digits and a sign. *)
Lemma occurs_H_pretty_N_go (x : N) (s : string) :
  occurs "H" (pretty_N_go x s) = occurs "H" s.
Proof.
  revert s. induction (N.lt_wf_0 x) as [x _ IH]; intros s.
  destruct (decide (x = 0)%N) as [->|Hx]; [done|].
  rewrite pretty_N_go_step by lia.
  rewrite IH by (apply N.div_lt; lia).
  simpl. unfold pretty_N_char. by repeat case_match.
Qed.

Lemma occurs_H_pretty_Z (z : Z) : occurs "H" (pretty z) = false.
Proof.
  destruct z as [|x|x]; [done| |].
  - unfold pretty, pretty_Z, pretty, pretty_positive, pretty, pretty_N.
    case_decide; [done|]. by rewrite occurs_H_pretty_N_go.
  - unfold pretty, pretty_Z. rewrite occurs_app. simpl.
    unfold pretty, pretty_positive, pretty, pretty_N.
    case_decide; [done|]. by rewrite occurs_H_pretty_N_go.
Qed.

Lemma isinstance_int_false v : isinstance_int v = false → as_int v = None.
Proof. by destruct v. Qed.

(** C10.  For a status whose [pending_jobs] is an integer and whose
    [qubits] is present but not an integer (the string "Unknown", say),
    the scorer does not raise: it returns
    [100 - min(pending_jobs * 2, 50) + (10 if simulator else 0)] clamped to
    [0, 100], without any qubit bonus, and the reason it builds does not
    contain "High qubit count". *)
Theorem non_integer_qubits_no_bonus
    (name : string) (info : gmap string pyval) (p : Z) (v : pyval) (sc : Q) :
  dict_get_default "pending_jobs" (PInt 0) info = PInt p →
  info !! "qubits" = Some v →
  isinstance_int v = false →
  (∃ s, BackendRecommender.calculate_backend_score name info = Returns s ∧
        (s ==
         Qmax 0
           (Qmin
              (100 - inject_Z (Z.min (p * 2) 50)
               + (if truthy (dict_get_default "simulator" (PBool false) info)
                  then 10 else 0))
              100))%Q ∧
        (0 <= s <= 100)%Q) ∧
  (∃ r, BackendRecommender.get_recommendation_reason name info sc = Returns r ∧
        ¬ contains "High qubit count" r).
Proof.
  intros Hp Hq Hv. apply isinstance_int_false in Hv.
  assert (Hqubits : as_int (dict_get_default "qubits" (PInt 0) info) = None).
  { unfold dict_get_default. by rewrite Hq. }
  split.
  - rewrite calculate_backend_score_as_int, Hp. cbn [as_int].
    rewrite score_with_not_int by done.
    eexists. split; [reflexivity|]. split.
    + apply clamp_proper, inject_Z_base_score.
    + apply clamp_bounds.
  - rewrite (get_recommendation_reason_int_pending _ _ _ p Hp), Hqubits.
    eexists. split; [reflexivity|].
    intros Hin. apply (contains_occurs _ _ "H") in Hin; [|done].
    rewrite occurs_join in Hin; [done|done|].
    rewrite app_nil_r. apply Forall_app. split.
    + destruct (p =? 0); [by repeat constructor|].
      destruct (p <? 5); [by repeat constructor|].
      constructor; [|done]. by rewrite occurs_app, occurs_H_pretty_Z.
    + destruct (truthy _); by repeat constructor.
Qed.

Lemma non_integer_qubits_no_bonus_witness :
  let info : gmap string pyval :=
    {[ "operational" := PBool true; "pending_jobs" := PInt 7;
       "qubits" := PStr "Unknown"; "simulator" := PBool false ]} in
  ∃ s, BackendRecommender.calculate_backend_score "ibm_q" info = Returns s ∧
       (s == 86)%Q.
Proof.
  intros info.
  destruct (non_integer_qubits_no_bonus "ibm_q" info 7 (PStr "Unknown") 0)
    as ((s & Hs & Heq & _) & _); [reflexivity|reflexivity|reflexivity|].
  exists s. split; [exact Hs|].
  rewrite Heq. vm_compute. reflexivity.
Defined.

(** C10 as stated fails when [pending_jobs] is not a number either: for
    an operational status whose two counts are both the string "Unknown",
    as a status snapshot may carry them, doubling the queue length gives a
    string, comparing it with 50 is a type error, and the error leaves
    [get_recommendations].  (The dashboard replaces an unknown queue length
    by 0 before it calls the scorer.) *)
Lemma unknown_pending_jobs_counterexample :
  let info : gmap string pyval :=
    {[ "operational" := PBool true; "pending_jobs" := PStr "Unknown";
       "qubits" := PStr "Unknown"; "simulator" := PBool false ]} in
  truthy (dict_get_default "operational" (PBool false) info) = true ∧
  isinstance_int (dict_get_default "qubits" (PInt 0) info) = false ∧
  BackendRecommender.calculate_backend_score "ibm_q" info = Raises TypeError ∧
  raises (BackendRecommender.calculate_backend_score "ibm_q" info) ∧
  BackendRecommender.get_recommendations "alice" [("ibm_q", info)]
  = Raises TypeError.
Proof.
  intros info. repeat split; try reflexivity.
  exists TypeError. reflexivity.
Qed.

(* ===================================================================== *)
(** * The analytics fallback                                              *)
(* ===================================================================== *)

Section Analytics.

Import HistoricalAnalyzer.
Variable fromisoformat : string → option datetime.

(** Once the loop has counted a completed job, line 108 raises. *)
Lemma get_analytics_raises_when_completed user_id history st :
  visit_all fromisoformat user_id history (Locals [] [] 0 0%Q []) = Returns st →
  0 < completed_jobs st →
  get_analytics fromisoformat user_id history = Raises NameError.
Proof.
  intros Hloop Hdone. unfold get_analytics. rewrite Hloop. simpl.
  apply Z.ltb_lt in Hdone. by rewrite Hdone.
Qed.

(** Without a completed job the call returns, both rates zero. *)
Lemma get_analytics_returns_when_none_completed user_id history st :
  visit_all fromisoformat user_id history (Locals [] [] 0 0%Q []) = Returns st →
  completed_jobs st ≤ 0 →
  get_analytics fromisoformat user_id history =
  Returns
    (Analytics (Z.of_nat (length history)) (by_status st) (by_backend st) 0 0
       (take 10 (sort_reverse String.ltb activity_timestamp (recent st)))).
Proof.
  intros Hloop Hnone. unfold get_analytics. rewrite Hloop. simpl.
  apply Z.ltb_ge in Hnone. by rewrite Hnone.
Qed.

End Analytics.

(** C1, at the failing input.  A store that holds one job whose only event
    is a [status_change] to COMPLETED makes [get_analytics] raise
    [NameError]: the loop counts the job as completed, and the guard of the
    average on line 108 reads [completed_jops], a name bound nowhere.  The
    same happens under a user filter that the job passes. *)
Theorem get_analytics_completed_job_raises
    (isoformat : Q → string)
    (fromisoformat : string → option HistoricalAnalyzer.datetime) (now : Q) :
  let history :=
    HistoricalAnalyzer.record_job_event isoformat now "job-1" "status_change"
      None (Some {[ "status" := PStr "COMPLETED" ]}) [] in
  let history_of_alice :=
    HistoricalAnalyzer.record_job_event isoformat now "job-1" "status_change"
      None
      (Some {[ "status" := PStr "COMPLETED"; "user_id" := PStr "alice" ]}) [] in
  HistoricalAnalyzer.get_job_timeline "job-1" history =
    [HistoricalAnalyzer.Event "status_change" (isoformat now)
       {[ "status" := PStr "COMPLETED" ]}] ∧
  HistoricalAnalyzer.get_analytics fromisoformat None history
    = Raises NameError ∧
  HistoricalAnalyzer.get_analytics fromisoformat (Some "alice") history_of_alice
    = Raises NameError.
Proof. repeat split; reflexivity. Qed.

(** A second way out of the loop: the timestamps of the first [queued] and
    [running] events are parsed, and one that is not ISO 8601 raises. *)
Example get_analytics_malformed_timestamp
    (fromisoformat : string → option HistoricalAnalyzer.datetime) :
  fromisoformat "soon" = None →
  HistoricalAnalyzer.get_analytics fromisoformat None
    [("job-1", [HistoricalAnalyzer.Event "queued" "2024-01-01T00:00:00" ∅;
                HistoricalAnalyzer.Event "running" "soon" ∅])]
  = Raises ValueError.
Proof.
  intros Hbad. unfold HistoricalAnalyzer.get_analytics. simpl.
  unfold HistoricalAnalyzer.visit. simpl.
  unfold HistoricalAnalyzer.parse. by rewrite Hbad.
Qed.

(** Jobs with other events only, or with none, are tolerated. *)
Example get_analytics_partial_events :
  let history :=
    [("job-1", [HistoricalAnalyzer.Event "submitted" "2024-01-02T00:00:00" ∅]);
     ("job-2", []);
     ("job-3", [HistoricalAnalyzer.Event "status_change" "2024-01-03T00:00:00"
                  {[ "status" := PStr "QUEUED" ]}])] in
  HistoricalAnalyzer.get_analytics HistoricalAnalyzer.rejects_all None history
  = Returns
      (HistoricalAnalyzer.Analytics 3 [(PStr "QUEUED", 1)] [] 0 0
         [HistoricalAnalyzer.Activity "job-3" "status_change" "2024-01-03T00:00:00";
          HistoricalAnalyzer.Activity "job-1" "submitted" "2024-01-02T00:00:00"]).
Proof. vm_compute. reflexivity. Qed.

(* ===================================================================== *)
(** * Reading and marking notifications                                   *)
(* ===================================================================== *)

Section ReadFlags.

Import NotificationManager.

Lemma log_mark_as_read uid idx uid' store :
  log uid' (mark_as_read uid idx store) =
  if decide (uid = uid') then
    match idx with
    | Some i =>
        if (0 <=? i) && (i <? Z.of_nat (length (log uid store)))
        then alter set_read (Z.to_nat i) (log uid store)
        else log uid store
    | None => set_read <$> log uid store
    end
  else log uid' store.
Proof.
  unfold mark_as_read, log.
  destruct (decide (uid = uid')) as [<-|Hne].
  - destruct (store !! uid) as [l|] eqn:Hl; simpl.
    + destruct idx as [i|].
      * destruct ((0 <=? i) && (i <? Z.of_nat (length l)));
          [by rewrite lookup_insert_eq|by rewrite Hl].
      * by rewrite lookup_insert_eq.
    + rewrite Hl. destruct idx as [i|]; simpl; [|done].
      by destruct ((0 <=? i) && (i <? Z.of_nat 0)).
  - destruct (store !! uid) as [l|]; [|done].
    destruct idx as [i|].
    + destruct ((0 <=? i) && (i <? Z.of_nat (length l))); [|done].
      by rewrite lookup_insert_ne.
    + by rewrite lookup_insert_ne.
Qed.

Lemma filter_unread_set_read (l : list notification) :
  List.filter (λ n, negb (read n)) (set_read <$> l) = [].
Proof. induction l as [|n l IH]; simpl; done. Qed.

End ReadFlags.

(** X1.  [mark_as_read(user_id)] without an index marks every notification
    of that user as read and changes nothing else in them; the logs of the
    other users stay as they are, and the user's unread view is empty
    afterwards. *)
Theorem mark_as_read_all
    (uid uid' : string)
    (store : gmap string (list NotificationManager.notification)) :
  let store' := NotificationManager.mark_as_read uid None store in
  NotificationManager.log uid store'
    = NotificationManager.set_read <$> NotificationManager.log uid store ∧
  Forall (λ n, NotificationManager.read n = true)
    (NotificationManager.get_user_notifications uid false store') ∧
  NotificationManager.get_user_notifications uid true store' = [] ∧
  (uid ≠ uid' →
   NotificationManager.log uid' store' = NotificationManager.log uid' store).
Proof.
  intros store'. subst store'.
  assert (Hlog :
    NotificationManager.log uid (NotificationManager.mark_as_read uid None store)
    = NotificationManager.set_read <$> NotificationManager.log uid store).
  { by rewrite log_mark_as_read, decide_True. }
  split; [exact Hlog|]. split; [|split].
  - unfold NotificationManager.get_user_notifications.
    fold (NotificationManager.log uid
            (NotificationManager.mark_as_read uid None store)).
    rewrite Hlog. apply Forall_fmap, Forall_true. done.
  - unfold NotificationManager.get_user_notifications.
    fold (NotificationManager.log uid
            (NotificationManager.mark_as_read uid None store)).
    rewrite Hlog. apply filter_unread_set_read.
  - intros Hne. by rewrite log_mark_as_read, decide_False.
Qed.

Lemma mark_as_read_all_witness :
  let n := NotificationManager.Notification "alice" "t" "m" "ts" None false in
  let store : gmap string (list NotificationManager.notification) :=
    {[ "alice" := [n; n]; "bob" := [n] ]} in
  "alice" ≠ "bob" ∧
  NotificationManager.log "bob"
    (NotificationManager.mark_as_read "alice" None store)
  = NotificationManager.log "bob" store.
Proof.
  intros n store.
  assert (Hne : "alice" ≠ "bob") by discriminate.
  split; [exact Hne|].
  exact (proj2 (proj2 (proj2 (mark_as_read_all "alice" "bob" store))) Hne).
Defined.

(** X2.  [mark_as_read(user_id, index)] changes one flag at most: the entry
    at position [index] of that user's log becomes read when
    [0 <= index < len], and every other entry of every log is what it
    was.  An index out of range, a negative one included, and an unknown
    user change nothing. *)
Theorem mark_as_read_index
    (uid uid' : string) (i : Z) (j : nat)
    (store : gmap string (list NotificationManager.notification)) :
  let store' := NotificationManager.mark_as_read uid (Some i) store in
  NotificationManager.log uid' store' !! j =
    (if decide (uid = uid' ∧ 0 ≤ i ∧ Z.to_nat i = j)
     then NotificationManager.set_read
            <$> (NotificationManager.log uid' store !! j)
     else NotificationManager.log uid' store !! j) ∧
  ((i < 0 ∨ Z.of_nat (length (NotificationManager.log uid store)) ≤ i) →
   store' = store).
Proof.
  intros store'. subst store'. split.
  - rewrite log_mark_as_read.
    destruct (decide (uid = uid')) as [<-|Hne];
      [|by rewrite decide_False by tauto].
    destruct ((0 <=? i) && (i <? Z.of_nat _)) eqn:Hrange.
    + apply andb_true_iff in Hrange as [H0 Hlen].
      apply Z.leb_le in H0. apply Z.ltb_lt in Hlen.
      destruct (decide (Z.to_nat i = j)) as [<-|Hj].
      * rewrite decide_True by done. apply list_lookup_alter_eq.
      * rewrite decide_False by tauto. by apply list_lookup_alter_ne.
    + case_decide as Hc; [|done]. destruct Hc as (_ & H0 & <-).
      apply andb_false_iff in Hrange as [Hneg|Hbig].
      * apply Z.leb_gt in Hneg. lia.
      * apply Z.ltb_ge in Hbig.
        rewrite lookup_ge_None_2 by lia. done.
  - intros Hout. unfold NotificationManager.mark_as_read, NotificationManager.log in *.
    destruct (store !! uid) as [l|]; [|done]. simpl in Hout.
    destruct ((0 <=? i) && (i <? Z.of_nat (length l))) eqn:Hrange; [|done].
    apply andb_true_iff in Hrange as [H0 Hlen].
    apply Z.leb_le in H0. apply Z.ltb_lt in Hlen. lia.
Qed.

Lemma mark_as_read_index_witness :
  let n := NotificationManager.Notification "alice" "t" "m" "ts" None false in
  let store : gmap string (list NotificationManager.notification) :=
    {[ "alice" := [n; n] ]} in
  (-1 < 0 ∨ Z.of_nat (length (NotificationManager.log "alice" store)) ≤ -1) ∧
  NotificationManager.mark_as_read "alice" (Some (-1)) store = store.
Proof.
  intros n store.
  assert (Hout : -1 < 0 ∨
            Z.of_nat (length (NotificationManager.log "alice" store)) ≤ -1)
    by (left; lia).
  split; [exact Hout|].
  exact (proj2 (mark_as_read_index "alice" "alice" (-1) 0 store) Hout).
Defined.

Lemma slice_last_snoc_inv {A} (n : nat) (xs : list A) (x : A) :
  (0 < n)%nat → ∃ ys, slice_last n (xs ++ [x]) = ys ++ [x].
Proof.
  intros Hn. unfold slice_last. rewrite length_app. simpl.
  exists (drop (length xs + 1 - n) xs).
  rewrite drop_app. f_equal.
  replace (length xs + 1 - n - length xs)%nat with 0%nat by lia. done.
Qed.

Lemma log_send_notification isoformat now uid ttl msg info store uid' :
  NotificationManager.log uid'
    (NotificationManager.send_notification isoformat now uid ttl msg info store)
  = if decide (uid = uid')
    then slice_last 100
           (NotificationManager.log uid store ++
            [NotificationManager.Notification uid ttl msg (isoformat now)
               info false])
    else NotificationManager.log uid' store.
Proof.
  rewrite send_notification_capped. apply capped_push_lookup.
Qed.

(** X3.  Right after [send_notification] the new notification is the last
    entry of the user's log, in the full view and in the unread view, with
    its [read] flag off; what the other users see is unchanged. *)
Theorem send_notification_then_get
    (isoformat : Q → string) (now : Q) (uid ttl msg : string)
    (info : option (gmap string pyval))
    (store : gmap string (list NotificationManager.notification))
    (uid' : string) (unread_only : bool) :
  let n := NotificationManager.Notification uid ttl msg (isoformat now) info false in
  let store' :=
    NotificationManager.send_notification isoformat now uid ttl msg info store in
  last (NotificationManager.get_user_notifications uid unread_only store')
    = Some n ∧
  (uid ≠ uid' →
   NotificationManager.get_user_notifications uid' unread_only store'
   = NotificationManager.get_user_notifications uid' unread_only store).
Proof.
  intros n store'. subst store'. split.
  - unfold NotificationManager.get_user_notifications.
    fold (NotificationManager.log uid
            (NotificationManager.send_notification isoformat now uid ttl msg
               info store)).
    rewrite log_send_notification, decide_True by done. fold n.
    destruct (slice_last_snoc_inv 100 (NotificationManager.log uid store) n)
      as [ys ->]; [lia|].
    destruct unread_only.
    + rewrite List.filter_app. simpl. apply last_snoc.
    + apply last_snoc.
  - intros Hne. unfold NotificationManager.get_user_notifications.
    fold (NotificationManager.log uid'
            (NotificationManager.send_notification isoformat now uid ttl msg
               info store)).
    fold (NotificationManager.log uid' store).
    by rewrite log_send_notification, decide_False.
Qed.

Lemma send_notification_then_get_witness :
  let n := NotificationManager.Notification "bob" "t" "m" "ts" None true in
  let store : gmap string (list NotificationManager.notification) :=
    {[ "bob" := [n] ]} in
  "alice" ≠ "bob" ∧
  NotificationManager.get_user_notifications "bob" true
    (NotificationManager.send_notification QueuePredictor.epoch_seconds 5
       "alice" "Job done" "finished" None store)
  = NotificationManager.get_user_notifications "bob" true store.
Proof.
  intros n store.
  assert (Hne : "alice" ≠ "bob") by discriminate.
  split; [exact Hne|].
  exact (proj2 (send_notification_then_get QueuePredictor.epoch_seconds 5
                  "alice" "Job done" "finished" None store "bob" true) Hne).
Defined.

(** X4.  The cap survives every interleaving of the two mutators: after any
    sequence of [send_notification] and [mark_as_read] calls a log that
    started with at most 100 entries still has at most 100. *)
Theorem notification_log_bounded_under_all_calls
    (isoformat : Q → string)
    (store : gmap string (list NotificationManager.notification))
    (calls : list NotificationManager.call) (uid : string) :
  (length (NotificationManager.log uid store) ≤ 100)%nat →
  (length (NotificationManager.log uid
             (NotificationManager.run_calls isoformat calls store)) ≤ 100)%nat.
Proof.
  intros Hinit. induction calls as [|c calls IH] using rev_ind; [done|].
  unfold NotificationManager.run_calls. rewrite fold_left_app. simpl.
  fold (NotificationManager.run_calls isoformat calls store).
  destruct c as [c|u idx]; simpl.
  - rewrite log_send_notification. case_decide; [|done].
    rewrite length_slice_last. lia.
  - by rewrite mark_as_read_length.
Qed.

Lemma notification_log_bounded_under_all_calls_witness :
  let c := NotificationManager.Sending 0 "alice" "Job done" "finished" None in
  let calls :=
    replicate 101 (NotificationManager.SendNotification c)
    ++ [NotificationManager.MarkAsRead "alice" None;
        NotificationManager.SendNotification c] in
  (length (NotificationManager.log "alice" ∅) ≤ 100)%nat ∧
  (length (NotificationManager.log "alice"
             (NotificationManager.run_calls QueuePredictor.epoch_seconds
                calls ∅)) ≤ 100)%nat.
Proof.
  intros c calls.
  assert (H0 : (length (NotificationManager.log "alice" ∅) ≤ 100)%nat)
    by (vm_compute; lia).
  split; [exact H0|].
  exact (notification_log_bounded_under_all_calls QueuePredictor.epoch_seconds
           ∅ calls "alice" H0).
Defined.

(* ===================================================================== *)
(** * More on the queue predictor                                         *)
(* ===================================================================== *)

Lemma estimate_average_wait_samples t h h' :
  QueuePredictor.samples t h = QueuePredictor.samples t h' →
  QueuePredictor.estimate_average_wait t h
  = QueuePredictor.estimate_average_wait t h'.
Proof.
  intros Heq. rewrite !estimate_average_wait_unfold.
  unfold QueuePredictor.positive_queue_times. by rewrite Heq.
Qed.

Lemma estimate_start_time_samples strftime now jid t v h h' :
  QueuePredictor.samples t h = QueuePredictor.samples t h' →
  QueuePredictor.estimate_start_time strftime now jid t v h
  = QueuePredictor.estimate_start_time strftime now jid t v h'.
Proof.
  intros Heq. rewrite !estimate_start_time_unfold.
  unfold QueuePredictor.positive_run_times. by rewrite Heq.
Qed.

(** X5.  A completion recorded for one backend changes neither estimate of
    any other backend. *)
Theorem estimates_isolated_per_backend
    (isoformat strftime : Q → string) (now : Q) (jid b : string) (qt rt : num)
    (h : gmap string (list QueuePredictor.sample))
    (t : string) (now' : Q) (jid' : string) (v : pyval) :
  b ≠ t →
  let h' := QueuePredictor.record_job_completion isoformat now jid b qt rt h in
  QueuePredictor.estimate_average_wait t h'
    = QueuePredictor.estimate_average_wait t h ∧
  QueuePredictor.estimate_start_time strftime now' jid' t v h'
    = QueuePredictor.estimate_start_time strftime now' jid' t v h.
Proof.
  intros Hne h'. subst h'.
  assert (Hsame :
    QueuePredictor.samples t
      (QueuePredictor.record_job_completion isoformat now jid b qt rt h)
    = QueuePredictor.samples t h).
  { by rewrite samples_record_job_completion, decide_False. }
  split.
  - by apply estimate_average_wait_samples.
  - by apply estimate_start_time_samples.
Qed.

Lemma estimates_isolated_per_backend_witness :
  let h : gmap string (list QueuePredictor.sample) :=
    {[ "A" := [QueuePredictor.Sample "t1" "j1" (Int 30) (Int 10)] ]} in
  "B" ≠ "A" ∧
  QueuePredictor.estimate_average_wait "A"
    (QueuePredictor.record_job_completion QueuePredictor.epoch_seconds 7
       "j2" "B" (Int 500) (Int 50) h)
  = QueuePredictor.estimate_average_wait "A" h.
Proof.
  intros h.
  assert (Hne : "B" ≠ "A") by discriminate.
  split; [exact Hne|].
  exact (proj1 (estimates_isolated_per_backend QueuePredictor.epoch_seconds
                  QueuePredictor.epoch_seconds 7 "j2" "B" (Int 500) (Int 50) h
                  "A" 0 "j3" (PInt 1) Hne)).
Defined.

(** X6.  A queue length that is not a number (the string "Unknown" that a
    failed status lookup yields, or [None]) makes [estimate_start_time]
    raise [TypeError] as soon as the backend has positive run-time samples
    with an average, which is computed first; an average that overflows
    raises its [OverflowError] instead.  Without a positive sample the call
    still returns none. *)
Theorem estimate_start_time_non_numeric_queue
    (strftime : Q → string) (now : Q) (jid t : string) (v : pyval)
    (h : gmap string (list QueuePredictor.sample)) :
  as_int v = None →
  QueuePredictor.estimate_start_time strftime now jid t v h =
  match QueuePredictor.positive_run_times t h with
  | [] => Returns None
  | rts =>
      match mean rts with
      | Returns _ => Raises TypeError
      | Raises _ => Raises OverflowError
      end
  end.
Proof.
  intros Hv. rewrite estimate_start_time_unfold.
  destruct (QueuePredictor.positive_run_times t h) as [|r rts]; [done|].
  pose proof (mean_Raises (r :: rts)) as Hraises.
  destruct (mean (r :: rts)) as [avg|e]; cbn [mbind outcome_bind].
  - unfold QueuePredictor.mul_float. by rewrite Hv.
  - by rewrite (Hraises e).
Qed.

Lemma estimate_start_time_non_numeric_queue_witness :
  as_int (PStr "Unknown") = None ∧
  QueuePredictor.estimate_start_time QueuePredictor.epoch_seconds 1000 "j2" "A"
    (PStr "Unknown")
    {[ "A" := [QueuePredictor.Sample "t1" "j1" (Int 30) (Int 10)] ]}
  = Raises TypeError.
Proof.
  assert (Hv : as_int (PStr "Unknown") = None) by reflexivity.
  split; [exact Hv|].
  rewrite (estimate_start_time_non_numeric_queue QueuePredictor.epoch_seconds
             1000 "j2" "A" (PStr "Unknown") _ Hv).
  vm_compute. reflexivity.
Defined.

Lemma timedelta_seconds_nonneg w us :
  (0 <= w)%Q → timedelta_seconds (Finite w) = Returns us → 0 ≤ us.
Proof.
  intros Hw. unfold timedelta_seconds. rewrite (trunc_floor w Hw).
  destruct (_ || _); [done|]. intros [= <-].
  apply rne_nonneg.
  replace 0%Q with (0 + 0)%Q by reflexivity. apply Qplus_le_compat.
  - change 0%Q with (inject_Z 0). rewrite <- Zle_Qle.
    pose proof (Qfloor_nonneg w Hw). lia.
  - apply round64_nonneg. apply Qmult_le_0_compat; [done|].
    pose proof (Qfloor_le w). lra.
Qed.

(** X7.  An estimated start is never in the past: whenever
    [estimate_start_time] returns a timestamp, the queue length is a
    positive integer, the average of the positive run times is a finite
    positive float, the wait is their product in double precision (the
    queue length converted to a float first) and is strictly positive, and
    the timestamp renders [now] plus that wait taken to whole microseconds,
    which are not negative. *)
Theorem estimate_start_time_in_future
    (strftime : Q → string) (now : Q) (jid t : string) (v : pyval)
    (h : gmap string (list QueuePredictor.sample)) (s : string) :
  QueuePredictor.estimate_start_time strftime now jid t v h = Returns (Some s) →
  ∃ q avg wait us,
    as_int v = Some q ∧ 0 < q ∧
    mean (QueuePredictor.positive_run_times t h) = Returns (Finite avg) ∧
    (0 < avg)%Q ∧
    wait = round64 (round64 (inject_Z q) * avg) ∧ (0 < wait)%Q ∧
    timedelta_seconds (Finite wait) = Returns us ∧ 0 ≤ us ∧
    s = strftime (now + inject_Z us / 1000000)%Q.
Proof.
  rewrite estimate_start_time_unfold.
  pose proof (positive_run_times_pos t h) as Hpos.
  destruct (QueuePredictor.positive_run_times t h) as [|r rts] eqn:Hrts;
    [done|].
  destruct (mean (r :: rts)) as [avg|] eqn:Havg; [|done].
  cbn [mbind outcome_bind].
  destruct (QueuePredictor.mul_float v avg) as [w|] eqn:Hw; [|done].
  cbn [mbind outcome_bind].
  destruct (flt (Finite 0) w) eqn:Hgt; [|done].
  unfold QueuePredictor.start_after.
  destruct (timedelta_seconds w) as [us|] eqn:Hus; [|done].
  cbn [mbind outcome_bind].
  destruct (datetime_add now us) as [start|] eqn:Hstart; [|done].
  cbn [mbind outcome_bind]. intros [= <-].
  assert (Hnonneg : nonneg avg) by (by apply (mean_nonneg (r :: rts))).
  destruct (as_int v) as [q|] eqn:Hv;
    [|by unfold QueuePredictor.mul_float in Hw; rewrite Hv in Hw].
  destruct w as [wait| | |]; try done.
  assert (Hwait : (0 < wait)%Q) by (by apply Qltb_lt).
  assert (Hq : 0 < q).
  { destruct (Z.lt_ge_cases 0 q) as [Hq|Hq]; [done|].
    rewrite (mul_float_nonpos v q avg (Finite wait)) in Hgt; done. }
  unfold QueuePredictor.mul_float in Hw. rewrite Hv in Hw.
  destruct (float_of_int q) as [y|] eqn:Hy; [|done].
  apply float_of_int_Returns in Hy as [-> _].
  cbn [mbind outcome_bind] in Hw. injection Hw as Hw.
  destruct avg as [a| | |]; try done; cycle 1.
  { simpl in Hw. unfold scale_inf in Hw.
    destruct (Qeq_bool _ 0); [done|]. by destruct (xorb _ _). }
  simpl in Hnonneg. cbn [fmul] in Hw.
  apply to_float_Finite_rounded in Hw.
  assert (Ha : (0 < a)%Q).
  { apply Qle_lt_or_eq in Hnonneg as [Hlt|Heq]; [done|]. exfalso.
    rewrite (round64_proper _ 0%Q) in Hw by (rewrite <- Heq; ring).
    rewrite Hw in Hwait. discriminate. }
  exists q, a, wait, us. split; [done|]. split; [done|]. split; [done|].
  split; [done|]. split; [done|]. split; [done|]. split; [done|].
  split; [apply (timedelta_seconds_nonneg wait); [by apply Qlt_le_weak|done]|].
  unfold datetime_add in Hstart. destruct (_ || _); [done|].
  by injection Hstart as <-.
Qed.

Lemma estimate_start_time_in_future_witness :
  let h : gmap string (list QueuePredictor.sample) :=
    {[ "A" := [QueuePredictor.Sample "t1" "j1" (Int 30) (Int 10)] ]} in
  ∃ q avg wait us,
    as_int (PInt 3) = Some q ∧ 0 < q ∧
    mean (QueuePredictor.positive_run_times "A" h) = Returns (Finite avg) ∧
    (0 < avg)%Q ∧
    wait = round64 (round64 (inject_Z q) * avg) ∧ (0 < wait)%Q ∧
    timedelta_seconds (Finite wait) = Returns us ∧ 0 ≤ us ∧
    "1030" = QueuePredictor.epoch_seconds (1000 + inject_Z us / 1000000)%Q.
Proof.
  intros h.
  apply (estimate_start_time_in_future QueuePredictor.epoch_seconds 1000 "j2"
           "A" (PInt 3) h "1030").
  vm_compute. reflexivity.
Defined.

(** The estimated start can be the present: a wait of a tenth of a
    microsecond is positive and is no microsecond of a [timedelta]. *)
Example estimate_start_time_now (strftime : Q → string) :
  QueuePredictor.estimate_start_time strftime 1000 "j2" "A" (PInt 1)
    {[ "A" := [QueuePredictor.Sample "t1" "j1" (Int 30)
                 (literal (1 # 10000000))] ]}
  = Returns (Some (strftime (1000 + inject_Z 0 / 1000000)%Q)).
Proof. vm_compute. reflexivity. Qed.

Lemma filter_snoc_false {A} (f : A → bool) (xs : list A) (x : A) :
  f x = false → List.filter f (xs ++ [x]) = List.filter f xs.
Proof.
  intros Hx. rewrite List.filter_app. simpl. rewrite Hx. apply app_nil_r.
Qed.

(** X8.  Samples that are not positive do not count.  While a backend has
    fewer than 1000 samples, recording a completion whose [queue_time] is
    not positive leaves its average wait as it was, and one whose
    [run_time] is not positive leaves its start estimates as they were. *)
Theorem non_positive_samples_are_ignored
    (isoformat strftime : Q → string) (now : Q) (jid b : string) (qt rt : num)
    (h : gmap string (list QueuePredictor.sample))
    (now' : Q) (jid' : string) (v : pyval) :
  (length (QueuePredictor.samples b h) < 1000)%nat →
  let h' := QueuePredictor.record_job_completion isoformat now jid b qt rt h in
  (QueuePredictor.positive qt = false →
   QueuePredictor.estimate_average_wait b h'
   = QueuePredictor.estimate_average_wait b h) ∧
  (QueuePredictor.positive rt = false →
   QueuePredictor.estimate_start_time strftime now' jid' b v h'
   = QueuePredictor.estimate_start_time strftime now' jid' b v h).
Proof.
  intros Hlen h'. subst h'.
  assert (Hsamples :
    QueuePredictor.samples b
      (QueuePredictor.record_job_completion isoformat now jid b qt rt h)
    = QueuePredictor.samples b h
      ++ [QueuePredictor.Sample (isoformat now) jid qt rt]).
  { rewrite samples_record_job_completion, decide_True by done.
    apply slice_last_short. rewrite length_app. simpl. lia. }
  split; intros Hle.
  - rewrite !estimate_average_wait_unfold.
    unfold QueuePredictor.positive_queue_times. rewrite Hsamples.
    by rewrite filter_snoc_false.
  - rewrite !estimate_start_time_unfold.
    unfold QueuePredictor.positive_run_times. rewrite Hsamples.
    by rewrite filter_snoc_false.
Qed.

Lemma non_positive_samples_are_ignored_witness :
  let h : gmap string (list QueuePredictor.sample) :=
    {[ "A" := [QueuePredictor.Sample "t1" "j1" (Int 30) (Int 10)] ]} in
  (length (QueuePredictor.samples "A" h) < 1000)%nat ∧
  QueuePredictor.positive (Int 0) = false ∧
  QueuePredictor.estimate_average_wait "A"
    (QueuePredictor.record_job_completion QueuePredictor.epoch_seconds 7
       "j2" "A" (Int 0) (Int 5) h)
  = QueuePredictor.estimate_average_wait "A" h.
Proof.
  intros h.
  assert (Hlen : (length (QueuePredictor.samples "A" h) < 1000)%nat)
    by (vm_compute; lia).
  assert (Hle : QueuePredictor.positive (Int 0) = false) by reflexivity.
  split; [exact Hlen|]. split; [exact Hle|].
  exact (proj1 (non_positive_samples_are_ignored QueuePredictor.epoch_seconds
                  QueuePredictor.epoch_seconds 7 "j2" "A" (Int 0) (Int 5) h 0
                  "j3" (PInt 1) Hlen) Hle).
Defined.

(** X9.  Old history wears off.  Once a sequence of calls has recorded at
    least 1000 samples for a backend, the samples kept for it, and with
    them both estimates, are the same whatever the store held before. *)
Theorem estimates_forget_initial_store
    (isoformat strftime : Q → string)
    (calls : list QueuePredictor.completion) (t : string)
    (h0 h1 : gmap string (list QueuePredictor.sample))
    (now : Q) (jid : string) (v : pyval) :
  (1000 ≤ length (QueuePredictor.recorded isoformat t calls))%nat →
  QueuePredictor.samples t (QueuePredictor.run isoformat calls h0)
    = slice_last 1000 (QueuePredictor.recorded isoformat t calls) ∧
  QueuePredictor.estimate_average_wait t (QueuePredictor.run isoformat calls h0)
    = QueuePredictor.estimate_average_wait t
        (QueuePredictor.run isoformat calls h1) ∧
  QueuePredictor.estimate_start_time strftime now jid t v
    (QueuePredictor.run isoformat calls h0)
    = QueuePredictor.estimate_start_time strftime now jid t v
        (QueuePredictor.run isoformat calls h1).
Proof.
  intros Hmany.
  assert (Hkept : ∀ h,
    QueuePredictor.samples t (QueuePredictor.run isoformat calls h)
    = slice_last 1000 (QueuePredictor.recorded isoformat t calls)).
  { intros h. rewrite samples_run.
    destruct (QueuePredictor.recorded isoformat t calls) as [|s0 rest] eqn:Hrec;
      [simpl in Hmany; lia|].
    rewrite <- Hrec in *. by apply slice_last_app. }
  split; [apply Hkept|]. split.
  - apply estimate_average_wait_samples. by rewrite !Hkept.
  - apply estimate_start_time_samples. by rewrite !Hkept.
Qed.

Lemma estimates_forget_initial_store_witness :
  let c := QueuePredictor.Completion 0 "job" "A" (Int 30) (Int 10) in
  let calls := replicate 1000 c in
  let h1 : gmap string (list QueuePredictor.sample) :=
    {[ "A" := [QueuePredictor.Sample "t1" "j1" (Int 7000) (Int 10)] ]} in
  (1000 ≤ length (QueuePredictor.recorded QueuePredictor.epoch_seconds "A" calls))%nat ∧
  QueuePredictor.estimate_average_wait "A"
    (QueuePredictor.run QueuePredictor.epoch_seconds calls ∅)
  = QueuePredictor.estimate_average_wait "A"
      (QueuePredictor.run QueuePredictor.epoch_seconds calls h1).
Proof.
  intros c calls h1.
  assert (Hmany :
    (1000 ≤ length (QueuePredictor.recorded QueuePredictor.epoch_seconds "A"
                      calls))%nat) by (vm_compute; lia).
  split; [exact Hmany|].
  exact (proj1 (proj2 (estimates_forget_initial_store
                         QueuePredictor.epoch_seconds
                         QueuePredictor.epoch_seconds calls "A" ∅ h1 0 "j"
                         (PInt 1) Hmany))).
Defined.

Lemma Qfloor_lt_Z (x : Q) (n : Z) : (x < inject_Z n)%Q → Qfloor x < n.
Proof.
  intros Hx. rewrite Zlt_Qlt.
  apply Qle_lt_trans with x; [apply Qfloor_le|done].
Qed.

Lemma Qfloor_ge_Z (x : Q) (n : Z) : (inject_Z n <= x)%Q → n ≤ Qfloor x.
Proof.
  intros Hx. rewrite <- (Qfloor_Z n). by apply Qfloor_resp_le.
Qed.

(** The doubles below 3600 end one step of [2^-41] below it. *)
Lemma round64_below_3600 x :
  (round64 x < 3600)%Q → (round64 x <= 3600 - pow2 (-41))%Q.
Proof.
  intros Hlt.
  assert (Hstep : (2048 <= 3600 - pow2 (-41))%Q) by (vm_compute; discriminate).
  destruct (Qlt_le_dec 0 x) as [Hpos|Hneg]; cycle 1.
  { eapply Qle_trans; [by apply round64_nonpos|].
    eapply Qle_trans; [|exact Hstep]. discriminate. }
  rewrite round64_pos in * by done.
  destruct (Z_lt_le_dec (expo x) 11) as [He|He].
  { eapply Qle_trans; [by apply round_pos_upper|].
    eapply Qle_trans; [|exact Hstep].
    apply Qle_trans with (pow2 11); [apply pow2_le; unfold emin; lia|].
    vm_compute. discriminate. }
  destruct (Z_lt_le_dec 11 (expo x)) as [He'|He'].
  { exfalso. apply (Qlt_irrefl 3600).
    eapply Qlt_le_trans; [|exact (Qlt_le_weak _ _ Hlt)].
    eapply Qlt_le_trans; [|apply round_pos_lower; [done|unfold emin; lia]].
    apply Qlt_le_trans with (pow2 12); [reflexivity|].
    apply pow2_le. lia. }
  assert (E : expo x = 11) by lia.
  rewrite round_pos_eq in *. unfold ulp in *. rewrite E in *.
  change (Z.max 11 emin - 52) with (-41) in *.
  set (n := rne (x / pow2 (-41))) in *.
  assert (Hn : n < 3600 * 2 ^ 41).
  { rewrite Zlt_Qlt, inject_Z_mult.
    apply Qmult_lt_r with (z := pow2 (-41)); [apply pow2_pos|].
    eapply Qlt_le_trans; [exact Hlt|]. vm_compute. discriminate. }
  assert (Hn' : (inject_Z n <= inject_Z (3600 * 2 ^ 41 - 1))%Q)
    by (rewrite <- Zle_Qle; lia).
  apply Qmult_le_r with (z := pow2 (-41)) in Hn'; [|apply pow2_pos].
  eapply Qle_trans; [exact Hn'|]. vm_compute. discriminate.
Qed.

Lemma num_truediv_rounded a n m :
  1 ≤ n → num_truediv a (Int n) = Returns (Finite m) → ∃ x, m = round64 x.
Proof.
  intros Hn. unfold num_truediv. destruct a as [x|g].
  - destruct (n =? 0); [done|].
    destruct (to_float _) as [r| | |] eqn:Hr; try done.
    intros [= <-]. eexists. by apply to_float_Finite_rounded in Hr.
  - simpl. destruct (float_of_int n) as [fn|] eqn:Hfn; [|done]. simpl.
    apply float_of_int_Returns in Hfn as [-> _]. unfold fdiv.
    destruct (Qeq_bool _ 0); [done|].
    destruct g as [x| | |].
    + intros [= Hr]. eexists. by apply to_float_Finite_rounded in Hr.
    + by destruct (Qltb _ 0).
    + by destruct (Qltb _ 0).
    + done.
Qed.

Lemma mean_rounded xs m :
  xs ≠ [] → mean xs = Returns (Finite m) → ∃ x, m = round64 x.
Proof.
  intros Hne. unfold mean.
  destruct (num_sum xs) as [s|]; [|done]. simpl.
  apply num_truediv_rounded. destruct xs; [done|]. simpl. lia.
Qed.

(** X10.  The wait a backend shows is "Unknown" or a whole number with its
    unit, and the number fits the unit: 0 to 59 seconds, 1 to 59 minutes,
    or at least 1 hour. *)
Theorem estimate_average_wait_shape
    (t : string) (h : gmap string (list QueuePredictor.sample)) (s : string) :
  QueuePredictor.estimate_average_wait t h = Returns s →
  s = "Unknown" ∨
  ∃ n : Z,
    (0 ≤ n < 60 ∧ s = pretty n +:+ " seconds") ∨
    (1 ≤ n < 60 ∧ s = pretty n +:+ " minutes") ∨
    (1 ≤ n ∧ s = pretty n +:+ " hours").
Proof.
  rewrite estimate_average_wait_cases.
  pose proof (positive_queue_times_pos t h) as Hpos.
  destruct (QueuePredictor.positive_queue_times t h) as [|x qts];
    [intros [= <-]; by left|].
  assert (Hne : x :: qts ≠ []) by done.
  destruct (mean (x :: qts)) as [[m| | |]|e] eqn:Hmean; try done.
  intros [= <-]. right.
  assert (Hm : (0 <= m)%Q) by exact (mean_nonneg _ _ Hpos Hne Hmean).
  destruct (mean_rounded _ _ Hne Hmean) as [y ->].
  set (m := round64 y) in *.
  unfold QueuePredictor.shown_wait.
  destruct (Qlt_le_dec m 60) as [H60|H60].
  { exists (Qfloor m). left. split; [|done]. split.
    - by apply (Qfloor_ge_Z m 0).
    - by apply (Qfloor_lt_Z m 60). }
  destruct (Qlt_le_dec m 3600) as [H3600|H3600].
  { exists (Qfloor (round64 (m / 60))). right. left. split; [|done]. split.
    - apply (Qfloor_ge_Z _ 1).
      assert (E : (round64 (inject_Z 1) == inject_Z 1)%Q) by reflexivity.
      rewrite <- E. apply round64_mono.
      apply Qle_shift_div_l; [reflexivity|]. exact H60.
    - apply (Qfloor_lt_Z _ 60).
      apply Qle_lt_trans with (60 - pow2 (-47))%Q; [|reflexivity].
      assert (E : (60 - pow2 (-47)
                   == inject_Z (60 * 2 ^ 47 - 1) * pow2 (-47))%Q)
        by (vm_compute; reflexivity).
      rewrite E. rewrite <- (round64_dyadic (60 * 2 ^ 47 - 1) (-47));
        [|vm_compute; split; reflexivity|lia].
      apply round64_mono. rewrite <- E.
      apply Qle_shift_div_r; [reflexivity|].
      eapply Qle_trans; [apply round64_below_3600; exact H3600|].
      vm_compute. discriminate. }
  exists (Qfloor (round64 (m / 3600))). right. right. split; [|done].
  apply (Qfloor_ge_Z _ 1).
  assert (E : (round64 (inject_Z 1) == inject_Z 1)%Q) by reflexivity.
  rewrite <- E. apply round64_mono.
  apply Qle_shift_div_l; [reflexivity|]. exact H3600.
Qed.

Lemma estimate_average_wait_shape_witness :
  let h : gmap string (list QueuePredictor.sample) :=
    {[ "A" := [QueuePredictor.Sample "t1" "j1" (literal (35999 # 10)) (Int 10)] ]} in
  QueuePredictor.estimate_average_wait "A" h = Returns "59 minutes" ∧
  ("59 minutes" = "Unknown" ∨
   ∃ n : Z,
     (0 ≤ n < 60 ∧ "59 minutes" = pretty n +:+ " seconds") ∨
     (1 ≤ n < 60 ∧ "59 minutes" = pretty n +:+ " minutes") ∨
     (1 ≤ n ∧ "59 minutes" = pretty n +:+ " hours")).
Proof.
  intros h.
  assert (Hs : QueuePredictor.estimate_average_wait "A" h
               = Returns "59 minutes") by (vm_compute; reflexivity).
  split; [exact Hs|].
  exact (estimate_average_wait_shape "A" h "59 minutes" Hs).
Defined.

(* ===================================================================== *)
(** * More on the recommendation scorer                                   *)
(* ===================================================================== *)

(** X11.  Whatever a status holds, a score that [calculate_backend_score]
    returns lies between 0 and 100. *)
Theorem calculate_backend_score_in_range
    (name : string) (info : gmap string pyval) (s : Q) :
  BackendRecommender.calculate_backend_score name info = Returns s →
  (0 <= s <= 100)%Q.
Proof.
  rewrite calculate_backend_score_as_int.
  destruct (as_int _) as [p|]; [|done].
  apply score_with_bounds.
Qed.

Lemma calculate_backend_score_in_range_witness :
  let info : gmap string pyval :=
    {[ "pending_jobs" := PInt (-40); "qubits" := PInt 433;
       "simulator" := PBool true ]} in
  BackendRecommender.calculate_backend_score "ibm_q" info = Returns 100%Q ∧
  (0 <= 100 <= 100)%Q.
Proof.
  intros info.
  assert (Hs : BackendRecommender.calculate_backend_score "ibm_q" info
               = Returns 100%Q) by (vm_compute; reflexivity).
  split; [exact Hs|].
  exact (calculate_backend_score_in_range "ibm_q" info 100 Hs).
Defined.

(** How the scorer ends: a type error on a [pending_jobs] that is not a
    number, and otherwise a score, or the overflow of an integer too large
    for a float. *)
Lemma calculate_backend_score_outcome
    (name : string) (info : gmap string pyval) :
  match as_int (dict_get_default "pending_jobs" (PInt 0) info) with
  | None =>
      BackendRecommender.calculate_backend_score name info = Raises TypeError
  | Some _ =>
      match BackendRecommender.calculate_backend_score name info with
      | Returns _ => True
      | Raises e =>
          e = OverflowError ∧
          is_Some (as_int (dict_get_default "qubits" (PInt 0) info))
      end
  end.
Proof.
  rewrite calculate_backend_score_as_int.
  destruct (as_int (dict_get_default "pending_jobs" (PInt 0) info)) as [p|];
    [|done].
  destruct (BackendRecommender.score_with _ _) as [s|e] eqn:Hs; [done|].
  by apply score_with_Raises in Hs.
Qed.

Lemma get_recommendation_reason_outcome
    (name : string) (info : gmap string pyval) (sc : Q) :
  match as_int (dict_get_default "pending_jobs" (PInt 0) info) with
  | None =>
      BackendRecommender.get_recommendation_reason name info sc
      = Raises TypeError
  | Some _ =>
      ∃ r, BackendRecommender.get_recommendation_reason name info sc
           = Returns r
  end.
Proof.
  unfold BackendRecommender.get_recommendation_reason.
  destruct (dict_get_default "pending_jobs" (PInt 0) info) as [|b|z|str];
    simpl; try reflexivity.
  - unfold py_eqb. simpl. destruct b; simpl; by eexists.
  - unfold py_eqb. simpl. destruct (z =? 0); simpl; [by eexists|].
    destruct (z <? 5); simpl; by eexists.
Qed.



Lemma collect_outcome cache :
  match BackendRecommender.collect cache with
  | Returns _ =>
      Forall (λ item,
        truthy (dict_get_default "operational" (PBool false) item.2) = true →
        is_Some (as_int (dict_get_default "pending_jobs" (PInt 0) item.2)))
        cache
  | Raises e =>
      (e = TypeError ∧
       Exists (λ item,
         truthy (dict_get_default "operational" (PBool false) item.2) = true ∧
         as_int (dict_get_default "pending_jobs" (PInt 0) item.2) = None)
         cache) ∨
      (e = OverflowError ∧
       Exists (λ item,
         truthy (dict_get_default "operational" (PBool false) item.2) = true ∧
         ¬ BackendRecommender.float_safe item.2)
         cache)
  end.
Proof.
  induction cache as [|[name info] cache IH]; simpl; [constructor|].
  assert (Htail : ∀ e,
    (e = TypeError ∧
     Exists (λ item : string * gmap string pyval,
       truthy (dict_get_default "operational" (PBool false) item.2) = true ∧
       as_int (dict_get_default "pending_jobs" (PInt 0) item.2) = None)
       cache) ∨
    (e = OverflowError ∧
     Exists (λ item : string * gmap string pyval,
       truthy (dict_get_default "operational" (PBool false) item.2) = true ∧
       ¬ BackendRecommender.float_safe item.2)
       cache) →
    (e = TypeError ∧
     Exists (λ item : string * gmap string pyval,
       truthy (dict_get_default "operational" (PBool false) item.2) = true ∧
       as_int (dict_get_default "pending_jobs" (PInt 0) item.2) = None)
       ((name, info) :: cache)) ∨
    (e = OverflowError ∧
     Exists (λ item : string * gmap string pyval,
       truthy (dict_get_default "operational" (PBool false) item.2) = true ∧
       ¬ BackendRecommender.float_safe item.2)
       ((name, info) :: cache))).
  { intros e [[-> Hex]|[-> Hex]]; [left|right];
      (split; [done|by apply Exists_cons_tl]). }
  destruct (truthy (dict_get_default "operational" (PBool false) info))
    eqn:Hop; simpl.
  - pose proof (calculate_backend_score_outcome name info) as Hsc.
    pose proof (get_recommendation_reason_outcome name info) as Hrs.
    pose proof (calculate_backend_score_returns name info) as Hreturns.
    destruct (as_int (dict_get_default "pending_jobs" (PInt 0) info))
      as [p|] eqn:Hp.
    + destruct (BackendRecommender.calculate_backend_score name info)
        as [s|e] eqn:Hs; cbn [mbind outcome_bind].
      * destruct (Hrs s) as [r Hr]. rewrite Hr. cbn [mbind outcome_bind].
        destruct (BackendRecommender.collect cache) as [recs|e];
          cbn [mbind outcome_bind].
        -- constructor; [|done]. simpl. intros _. rewrite Hp. by eexists.
        -- by apply Htail.
      * destruct Hsc as [-> _]. right. split; [done|].
        apply Exists_cons_hd. simpl. split; [done|].
        intros Hsafe. destruct Hreturns as [s' Hs']; [by eexists|done|].
        congruence.
    + rewrite Hsc. cbn [mbind outcome_bind]. left.
      split; [done|]. apply Exists_cons_hd. simpl. by rewrite Hop, Hp.
  - destruct (BackendRecommender.collect cache) as [recs|e].
    + constructor; [|done]. simpl. rewrite Hop. done.
    + by apply Htail.
Qed.

(** X13.  [get_recommendations] returns only if every operational status
    of the snapshot has a numeric [pending_jobs] (or none at all), and it
    raises [TypeError] only if one has not.  The one other way to fail is
    the [OverflowError] of an operational status with an integer of more
    than 1000 bits: when every operational status is numeric and within
    that size, the call returns.  Statuses that are not operational are
    skipped unread: nothing in them can make the call fail. *)
Theorem get_recommendations_outcome
    (uid : string) (cache : list (string * gmap string pyval)) :
  let operational (item : string * gmap string pyval) :=
    truthy (dict_get_default "operational" (PBool false) item.2) = true in
  let numeric (item : string * gmap string pyval) :=
    is_Some (as_int (dict_get_default "pending_jobs" (PInt 0) item.2)) in
  ((∃ recs, BackendRecommender.get_recommendations uid cache = Returns recs)
   → Forall (λ item, operational item → numeric item) cache) ∧
  (BackendRecommender.get_recommendations uid cache = Raises TypeError
   → ¬ Forall (λ item, operational item → numeric item) cache) ∧
  (∀ e, BackendRecommender.get_recommendations uid cache = Raises e →
        e = TypeError ∨ e = OverflowError) ∧
  (Forall (λ item, operational item →
                   numeric item ∧ BackendRecommender.float_safe item.2) cache
   → ∃ recs, BackendRecommender.get_recommendations uid cache = Returns recs).
Proof.
  intros operational numeric. subst operational numeric.
  unfold BackendRecommender.get_recommendations.
  pose proof (collect_outcome cache) as Hout.
  destruct (BackendRecommender.collect cache) as [recs|e];
    cbn [mbind outcome_bind].
  - split; [done|]. split; [done|]. split; [done|]. intros _. by eexists.
  - split; [by intros [recs Hrecs]|]. split; [|split].
    + intros [= ->]. destruct Hout as [[_ Hex]|[? _]]; [|done].
      intros Hall. apply Exists_exists in Hex as (item & Hin & Hop & Hp).
      rewrite Forall_forall in Hall. specialize (Hall item Hin Hop).
      rewrite Hp in Hall. by destruct Hall.
    + intros e' [= <-]. destruct Hout as [[-> _]|[-> _]]; [by left|by right].
    + intros Hall. exfalso. rewrite Forall_forall in Hall.
      destruct Hout as [[_ Hex]|[_ Hex]];
        apply Exists_exists in Hex as (item & Hin & Hop & Hbad);
        destruct (Hall item Hin Hop) as [Hnum Hsafe].
      * rewrite Hbad in Hnum. by destruct Hnum.
      * done.
Qed.

Section Ranking.

Import BackendRecommender.

(** What the loop collects, entry by entry. *)
Lemma collect_elem_of cache recs r :
  collect cache = Returns recs → r ∈ recs →
  ∃ info reason,
    (name r, info) ∈ cache ∧
    truthy (dict_get_default "operational" (PBool false) info) = true ∧
    calculate_backend_score (name r) info = Returns (score r) ∧
    get_recommendation_reason (name r) info (score r) = Returns reason ∧
    r = Recommendation (name r)
          (dict_get_default "service_type" (PStr "unknown") info)
          (dict_get_default "qubits" (PStr "Unknown") info)
          (dict_get_default "pending_jobs" (PInt 0) info)
          (score r) reason.
Proof.
  revert recs. induction cache as [|[nm info] cache IH]; simpl; intros recs.
  - intros [= <-] Hin. by apply elem_of_nil in Hin.
  - destruct (truthy (dict_get_default "operational" (PBool false) info))
      eqn:Hop; simpl.
    + destruct (calculate_backend_score nm info) as [s|] eqn:Hs; [|done].
      simpl.
      destruct (get_recommendation_reason nm info s) as [rsn|] eqn:Hr; [|done].
      simpl. destruct (collect cache) as [rest|]; [|done]. simpl.
      intros [= <-] Hin. apply elem_of_cons in Hin as [->|Hin].
      * exists info, rsn. simpl. rewrite Hs, Hr, Hop.
        repeat split; try done. left.
      * destruct (IH rest eq_refl Hin) as (info' & rsn' & Hc & Hrest).
        exists info', rsn'. split; [by right|done].
    + intros Hrecs Hin.
      destruct (IH recs Hrecs Hin) as (info' & rsn' & Hc & Hrest).
      exists info', rsn'. split; [by right|done].
Qed.

Lemma filter_insert_desc_same_score (s : Q) x recs :
  List.filter (λ r, Qeq_bool (score r) s) (insert_desc Qltb score x recs) =
  List.filter (λ r, Qeq_bool (score r) s) (x :: recs).
Proof.
  induction recs as [|y recs IH]; [done|].
  simpl insert_desc. destruct (Qltb (score x) (score y)) eqn:Hlt; [|done].
  apply Qltb_lt in Hlt.
  simpl. simpl in IH. rewrite IH.
  destruct (Qeq_bool (score x) s) eqn:Hx, (Qeq_bool (score y) s) eqn:Hy;
    try done.
  apply Qeq_bool_iff in Hx, Hy. rewrite Hx, Hy in Hlt.
  by apply Qlt_irrefl in Hlt.
Qed.

Lemma filter_sort_reverse_same_score (s : Q) recs :
  List.filter (λ r, Qeq_bool (score r) s) (sort_reverse Qltb score recs) =
  List.filter (λ r, Qeq_bool (score r) s) recs.
Proof.
  induction recs as [|x recs IH]; [done|].
  simpl sort_reverse. rewrite filter_insert_desc_same_score.
  simpl. by rewrite IH.
Qed.

End Ranking.

Lemma get_recommendations_outcome_witness :
  let broken : gmap string pyval :=
    {[ "operational" := PBool true; "pending_jobs" := PStr "N/A" ]} in
  let fine : gmap string pyval :=
    {[ "operational" := PBool true; "pending_jobs" := PInt 3;
       "qubits" := PInt 27 ]} in
  BackendRecommender.get_recommendations "alice" [("ibm_q", broken)]
  = Raises TypeError ∧
  ∃ recs, BackendRecommender.get_recommendations "alice" [("ibm_q", fine)]
          = Returns recs.
Proof.
  intros broken fine. split; [vm_compute; reflexivity|].
  apply (proj2 (proj2 (proj2
           (get_recommendations_outcome "alice" [("ibm_q", fine)])))).
  apply List.Forall_cons; [|apply List.Forall_nil].
  intros _. split; [by eexists|].
  vm_compute. repeat split; discriminate.
Defined.

(** X14.  Nothing is recommended that the snapshot does not offer: every
    entry of the result names an operational status of the snapshot and
    carries that status's score, reason, queue length, qubit count and
    service type. *)
Theorem recommendations_come_from_operational_backends
    (uid : string) (cache : list (string * gmap string pyval))
    (recs : list BackendRecommender.recommendation)
    (r : BackendRecommender.recommendation) :
  BackendRecommender.get_recommendations uid cache = Returns recs →
  r ∈ recs →
  ∃ info,
    (BackendRecommender.name r, info) ∈ cache ∧
    truthy (dict_get_default "operational" (PBool false) info) = true ∧
    BackendRecommender.calculate_backend_score (BackendRecommender.name r) info
      = Returns (BackendRecommender.score r) ∧
    BackendRecommender.get_recommendation_reason (BackendRecommender.name r)
      info (BackendRecommender.score r)
      = Returns (BackendRecommender.recommendation_reason r) ∧
    BackendRecommender.queue_length r
      = dict_get_default "pending_jobs" (PInt 0) info ∧
    BackendRecommender.qubits r
      = dict_get_default "qubits" (PStr "Unknown") info ∧
    BackendRecommender.service_type r
      = dict_get_default "service_type" (PStr "unknown") info.
Proof.
  unfold BackendRecommender.get_recommendations.
  destruct (BackendRecommender.collect cache) as [all|] eqn:Hall; [|done].
  simpl. intros [= <-] Hin.
  assert (Hin' : r ∈ all).
  { rewrite <- (sort_reverse_perm all).
    rewrite <- (take_drop 3 (sort_reverse Qltb BackendRecommender.score all)).
    apply elem_of_app. by left. }
  destruct (collect_elem_of cache all r Hall Hin')
    as (info & rsn & Hc & Hop & Hs & Hr & Hrec).
  exists info. rewrite Hrec. simpl. rewrite Hrec in Hs, Hr. simpl in Hs, Hr.
  by repeat split.
Qed.

Lemma recommendations_come_from_operational_backends_witness :
  let up : gmap string pyval :=
    {[ "operational" := PBool true; "pending_jobs" := PInt 3;
       "qubits" := PInt 27 ]} in
  let down : gmap string pyval :=
    {[ "operational" := PBool false; "pending_jobs" := PInt 0;
       "qubits" := PInt 127 ]} in
  let r :=
    BackendRecommender.Recommendation "ibm_a" (PStr "unknown") (PInt 27)
      (PInt 3) (round64 (497 # 5)) "Short queue, High qubit count" in
  ∃ info,
    (BackendRecommender.name r, info) ∈ [("ibm_down", down); ("ibm_a", up)] ∧
    truthy (dict_get_default "operational" (PBool false) info) = true.
Proof.
  intros up down r.
  destruct (recommendations_come_from_operational_backends "alice"
              [("ibm_down", down); ("ibm_a", up)] [r] r)
    as (info & Hin & Hop & _).
  - vm_compute. reflexivity.
  - apply list_elem_of_In. left. reflexivity.
  - exists info. split; [exact Hin|exact Hop].
Defined.

(** X15.  The result is the top of the ranking: it has 3 entries, or as
    many as there are operational statuses if those are fewer, and no
    operational status that was left out scores higher than one that was
    returned. *)
Theorem recommendations_are_the_top_three
    (uid : string) (cache : list (string * gmap string pyval))
    (recs : list BackendRecommender.recommendation) :
  BackendRecommender.get_recommendations uid cache = Returns recs →
  ∃ all rest,
    BackendRecommender.collect cache = Returns all ∧
    all ≡ₚ recs ++ rest ∧
    length recs = (3 `min` length all)%nat ∧
    ∀ r r', r ∈ recs → r' ∈ rest →
      (BackendRecommender.score r' <= BackendRecommender.score r)%Q.
Proof.
  unfold BackendRecommender.get_recommendations.
  destruct (BackendRecommender.collect cache) as [all|] eqn:Hall; [|done].
  simpl. intros [= <-].
  set (sorted := sort_reverse Qltb BackendRecommender.score all).
  exists all, (drop 3 sorted). split; [done|]. split; [|split].
  - rewrite take_drop. symmetry. apply sort_reverse_perm.
  - rewrite length_take. unfold sorted.
    by rewrite (Permutation_length (sort_reverse_perm all)).
  - intros r r' Hr Hr'.
    pose proof (sort_reverse_sorted all) as Hsorted. fold sorted in Hsorted.
    unfold BackendRecommender.by_score_descending in Hsorted.
    rewrite <- (take_drop 3 sorted) in Hsorted.
    by apply (StronglySorted_app_1_elem_of _ _ _ r r' Hsorted).
Qed.

Lemma recommendations_are_the_top_three_witness :
  let status (p : Z) : gmap string pyval :=
    {[ "operational" := PBool true; "pending_jobs" := PInt p ]} in
  let cache := [("a", status 20); ("b", status 0); ("c", status 10);
                ("d", status 5)] in
  ∃ recs all rest,
    BackendRecommender.get_recommendations "alice" cache = Returns recs ∧
    BackendRecommender.collect cache = Returns all ∧
    all ≡ₚ recs ++ rest ∧ length recs = 3%nat.
Proof.
  intros status cache.
  destruct (BackendRecommender.get_recommendations "alice" cache)
    as [recs|] eqn:Hrecs; [|vm_compute in Hrecs; discriminate].
  destruct (recommendations_are_the_top_three "alice" cache recs Hrecs)
    as (all & rest & Hall & Hperm & Hlen & _).
  exists recs, all, rest. repeat split; try assumption.
  rewrite Hlen. vm_compute in Hall. injection Hall as <-. reflexivity.
Defined.

(** X16.  Ties go to the snapshot's order: among the statuses that reach
    the same score, the ones returned are the first of the snapshot, in
    snapshot order. *)
Theorem recommendations_keep_order_among_ties
    (uid : string) (cache : list (string * gmap string pyval))
    (recs all : list BackendRecommender.recommendation) (s : Q) :
  BackendRecommender.get_recommendations uid cache = Returns recs →
  BackendRecommender.collect cache = Returns all →
  List.filter (λ r, Qeq_bool (BackendRecommender.score r) s) recs
  `prefix_of`
  List.filter (λ r, Qeq_bool (BackendRecommender.score r) s) all.
Proof.
  unfold BackendRecommender.get_recommendations. intros Hrecs Hall.
  rewrite Hall in Hrecs. simpl in Hrecs. injection Hrecs as <-.
  rewrite <- (filter_sort_reverse_same_score s all).
  set (sorted := sort_reverse Qltb BackendRecommender.score all).
  rewrite <- (take_drop 3 sorted) at 2. rewrite List.filter_app.
  apply prefix_app_r. done.
Qed.

Lemma recommendations_keep_order_among_ties_witness :
  let status (p : Z) : gmap string pyval :=
    {[ "operational" := PBool true; "pending_jobs" := PInt p ]} in
  let cache := [("a", status 10); ("b", status 0); ("c", status 10);
                ("d", status 10)] in
  ∃ recs all,
    BackendRecommender.get_recommendations "alice" cache = Returns recs ∧
    BackendRecommender.collect cache = Returns all ∧
    BackendRecommender.name <$> recs = ["b"; "a"; "c"] ∧
    List.filter (λ r, Qeq_bool (BackendRecommender.score r) 80) recs
    `prefix_of`
    List.filter (λ r, Qeq_bool (BackendRecommender.score r) 80) all.
Proof.
  intros status cache.
  destruct (BackendRecommender.get_recommendations "alice" cache)
    as [recs|] eqn:Hrecs; [|vm_compute in Hrecs; discriminate].
  destruct (BackendRecommender.collect cache)
    as [all|] eqn:Hall; [|vm_compute in Hall; discriminate].
  exists recs, all. split; [reflexivity|]. split; [reflexivity|]. split.
  - vm_compute in Hrecs. injection Hrecs as <-. reflexivity.
  - exact (recommendations_keep_order_among_ties "alice" cache recs all 80
             Hrecs Hall).
Defined.

Lemma string_app_assoc (a b c : string) : (a +:+ b) +:+ c = a +:+ (b +:+ c).
Proof.
  induction a as [|x a IH]; [done|].
  change (String x ((a +:+ b) +:+ c) = String x (a +:+ (b +:+ c))).
  by rewrite IH.
Qed.

Lemma string_app_nil_r (a : string) : a +:+ "" = a.
Proof.
  induction a as [|x a IH]; [done|].
  change (String x (a +:+ "") = String x a). by rewrite IH.
Qed.

Lemma join_snoc sep xs y :
  xs ≠ [] → join sep (xs ++ [y]) = join sep xs +:+ sep +:+ y.
Proof.
  induction xs as [|x xs IH]; [done|]. intros _.
  destruct xs as [|x' xs]; [done|].
  change (join sep ((x :: x' :: xs) ++ [y]))
    with (x +:+ sep +:+ join sep ((x' :: xs) ++ [y])).
  rewrite IH by done.
  change (join sep (x :: x' :: xs)) with (x +:+ sep +:+ join sep (x' :: xs)).
  by rewrite !string_app_assoc.
Qed.

(** X17.  For a status with an integer queue length, the reason mentions
    "High qubit count" exactly when [qubits] is an integer above 10. *)
Theorem reason_mentions_high_qubit_count_iff
    (name : string) (info : gmap string pyval) (sc : Q) (p : Z) (r : string) :
  dict_get_default "pending_jobs" (PInt 0) info = PInt p →
  BackendRecommender.get_recommendation_reason name info sc = Returns r →
  (contains "High qubit count" r ↔
   ∃ q, as_int (dict_get_default "qubits" (PInt 0) info) = Some q ∧ 10 < q).
Proof.
  intros Hp. rewrite (get_recommendation_reason_int_pending _ _ _ p Hp).
  intros [= <-].
  set (first :=
    if p =? 0 then ["No jobs in queue"]
    else if p <? 5 then ["Short queue"]
    else [pretty p +:+ " jobs in queue"]).
  set (sim :=
    if truthy (dict_get_default "simulator" (PBool false) info)
    then ["Simulator (good for testing)"] else []).
  assert (Hfirst : Forall (λ x, occurs "H" x = false) first).
  { unfold first. destruct (p =? 0); [by repeat constructor|].
    destruct (p <? 5); [by repeat constructor|].
    constructor; [|done]. by rewrite occurs_app, occurs_H_pretty_Z. }
  assert (Hsim : Forall (λ x, occurs "H" x = false) sim).
  { unfold sim. destruct (truthy _); by repeat constructor. }
  assert (Hplain : ¬ contains "High qubit count" (join ", " (first ++ sim ++ []))).
  { intros Hin. apply (contains_occurs _ _ "H") in Hin; [|done].
    rewrite occurs_join in Hin; [done|done|].
    rewrite app_nil_r. by apply Forall_app. }
  destruct (as_int (dict_get_default "qubits" (PInt 0) info)) as [q|].
  - destruct (10 <? q) eqn:Hq.
    + apply Z.ltb_lt in Hq. split; [intros _; by exists q|]. intros _.
      rewrite app_assoc, join_snoc.
      * exists (join ", " (first ++ sim) +:+ ", "), "".
        by rewrite string_app_nil_r, string_app_assoc.
      * unfold first. destruct (p =? 0); [done|]. by destruct (p <? 5).
    + apply Z.ltb_ge in Hq. split; [done|].
      intros (q' & [= <-] & Hq'). lia.
  - split; [done|]. by intros (q' & [=] & _).
Qed.

Lemma reason_mentions_high_qubit_count_iff_witness :
  let info : gmap string pyval :=
    {[ "pending_jobs" := PInt 7; "qubits" := PInt 27 ]} in
  contains "High qubit count" "7 jobs in queue, High qubit count".
Proof.
  intros info.
  apply (reason_mentions_high_qubit_count_iff "ibm_q" info 0 7
           "7 jobs in queue, High qubit count");
    [reflexivity|vm_compute; reflexivity|].
  exists 27. split; [reflexivity|lia].
Defined.

(** X18.  The penalty and the bonus level off, and the simulator bonus
    never costs anything: a queue of 25 jobs or more is scored like one of
    25, whatever the call ends in; and between scores that the scorer
    returns, 100 qubits or more score like 100, and turning [simulator] on
    does not lower the score. *)
Theorem score_saturates
    (name : string) (info : gmap string pyval) (p q : Z) :
  25 ≤ p → 100 ≤ q →
  BackendRecommender.calculate_backend_score name
    (<["pending_jobs" := PInt p]> info)
  = BackendRecommender.calculate_backend_score name
      (<["pending_jobs" := PInt 25]> info) ∧
  (∀ s s',
     BackendRecommender.calculate_backend_score name
       (<["qubits" := PInt q]> info) = Returns s →
     BackendRecommender.calculate_backend_score name
       (<["qubits" := PInt 100]> info) = Returns s' → (s == s')%Q) ∧
  (∀ s s',
     BackendRecommender.calculate_backend_score name
       (<["simulator" := PBool false]> info) = Returns s →
     BackendRecommender.calculate_backend_score name
       (<["simulator" := PBool true]> info) = Returns s' → (s <= s')%Q).
Proof.
  intros Hp Hq. split; [|split].
  - rewrite !calculate_backend_score_as_int. unfold dict_get_default.
    rewrite !lookup_insert_eq, !lookup_insert_ne by done.
    change (default (PInt 0) (Some (PInt p))) with (PInt p).
    change (default (PInt 0) (Some (PInt 25))) with (PInt 25). cbn [as_int].
    f_equal. unfold BackendRecommender.base_score.
    by replace (Z.min (p * 2) 50) with (Z.min (25 * 2) 50) by lia.
  - intros s s'. rewrite !calculate_backend_score_as_int.
    unfold dict_get_default.
    rewrite !lookup_insert_eq, !lookup_insert_ne by done.
    change (default (PInt 0) (Some (PInt q))) with (PInt q).
    change (default (PInt 0) (Some (PInt 100))) with (PInt 100).
    destruct (as_int (default (PInt 0) (info !! "pending_jobs"))) as [p0|];
      [|done].
    pose proof (base_score_ge_50 p0
                  (truthy (default (PBool false) (info !! "simulator")))) as Hb.
    set (b := BackendRecommender.base_score p0 _) in *.
    intros Hs Hs'. apply Qle_antisym.
    + destruct (Z.eq_dec q 100) as [->|Hne].
      * rewrite Hs in Hs'. injection Hs' as <-. apply Qle_refl.
      * (* above 100 the bonus is the integer 20 *)
        rewrite (score_with_int b (PInt q) q eq_refl) in Hs.
        assert (Hquot : (101 # 5 <= inject_Z q / 5)%Q).
        { apply Qle_shift_div_l; [reflexivity|].
          change ((101 # 5) * 5)%Q with ((505 # 5))%Q.
          apply Qle_trans with (inject_Z 101); [discriminate|].
          rewrite <- Zle_Qle. lia. }
        pose proof (to_float_mono _ _ Hquot) as Hle.
        change (to_float (101 # 5)) with (Finite (round64 (101 # 5))) in Hle.
        destruct (to_float (inject_Z q / 5)) as [f| | |]; try done.
        simpl in Hle.
        assert (Hf : Qltb 20 f = true).
        { apply Qltb_lt. eapply Qlt_le_trans; [|exact Hle]. reflexivity. }
        rewrite Hf in Hs. injection Hs as <-.
        rewrite (score_with_int b (PInt 100) 100 eq_refl) in Hs'.
        change (to_float (inject_Z 100 / 5)) with (Finite 20) in Hs'.
        change (Qltb 20 20) with false in Hs'. cbn iota in Hs'.
        destruct (float_of_int b) as [y|] eqn:Hy; [|done].
        cbn [mbind outcome_bind] in Hs'. injection Hs' as <-.
        apply float_of_int_Returns in Hy as [-> _].
        destruct (Z_lt_le_dec b 80) as [Hsmall|Hlarge].
        -- assert (H53 : 2 ^ 53 = 9007199254740992) by reflexivity.
           destruct (to_float_Z (b + 20)) as (r & Hr & Er); [lia|].
           cbn [fadd].
           assert (E : (round64 (inject_Z b) + 20 == inject_Z (b + 20))%Q).
           { rewrite round64_Z by lia. rewrite inject_Z_plus. reflexivity. }
           rewrite (to_float_proper _ _ E), Hr. cbn [clamp_float].
           apply clamp_mono. rewrite Er. apply Qle_refl.
        -- rewrite clamp_ge_100
             by (change 100%Q with (inject_Z 100); rewrite <- Zle_Qle; lia).
           cbn [fadd].
           assert (Hsum : (100 <= round64 (inject_Z b) + 20)%Q).
           { apply Qle_trans with (80 + 20)%Q; [discriminate|].
             apply Qplus_le_l.
             assert (E : (round64 80 == 80)%Q) by reflexivity.
             rewrite <- E. apply round64_mono.
             change 80%Q with (inject_Z 80). by rewrite <- Zle_Qle. }
           pose proof (to_float_mono _ _ Hsum) as Hle'.
           change (to_float 100) with (Finite 100) in Hle'.
           apply clamp_float_mono in Hle'. exact Hle'.
    + eapply score_with_qubits_mono; [exact Hb|exact Hq|exact Hs'|exact Hs].
  - intros s s'. rewrite !calculate_backend_score_as_int.
    unfold dict_get_default.
    rewrite !lookup_insert_eq, !lookup_insert_ne by done.
    destruct (as_int (default (PInt 0) (info !! "pending_jobs"))) as [p0|];
      [|done].
    apply score_with_base_mono.
    unfold BackendRecommender.base_score. simpl. lia.
Qed.

Lemma score_saturates_witness :
  let info : gmap string pyval :=
    {[ "pending_jobs" := PInt 3; "qubits" := PInt 27 ]} in
  25 ≤ 400 ∧ 100 ≤ 127 ∧
  BackendRecommender.calculate_backend_score "ibm_q"
    (<["pending_jobs" := PInt 400]> info)
  = BackendRecommender.calculate_backend_score "ibm_q"
      (<["pending_jobs" := PInt 25]> info).
Proof.
  intros info.
  assert (H1 : 25 ≤ 400) by lia.
  assert (H2 : 100 ≤ 127) by lia.
  split; [exact H1|]. split; [exact H2|].
  exact (proj1 (score_saturates "ibm_q" info 400 127 H1 H2)).
Defined.

(* ===================================================================== *)
(** * More on the history store and its analytics                         *)
(* ===================================================================== *)

Lemma odict_set_keys {V} (k : string) (v : V) (d : list (string * V)) :
  (odict_set k v d).*1 = if decide (k ∈ d.*1) then d.*1 else d.*1 ++ [k].
Proof.
  induction d as [|[k0 v0] d IH]; [done|].
  cbn [odict_set]. destruct (decide (k = k0)) as [->|Hne].
  - rewrite !fmap_cons. cbn [fst]. rewrite decide_True by left. done.
  - rewrite !fmap_cons, IH. cbn [fst].
    destruct (decide (k ∈ d.*1)) as [Hin|Hnin].
    + rewrite decide_True by (by right). done.
    + rewrite decide_False; [done|].
      intros Hin. apply elem_of_cons in Hin as [?|?]; done.
Qed.

(** X19.  The store keeps one entry per job, in order of first
    appearance: [record_job_event] leaves the list of job ids as it is when
    the job is known and puts a new job at the end, so job ids never
    repeat and [total_jobs] counts distinct jobs. *)
Theorem record_job_event_keys
    (isoformat : Q → string) (now : Q) (jid ety : string)
    (ts : option string) (payload : option (gmap string pyval))
    (h : list (string * list HistoricalAnalyzer.event)) :
  let h' := HistoricalAnalyzer.record_job_event isoformat now jid ety ts payload h in
  h'.*1 = (if decide (jid ∈ h.*1) then h.*1 else h.*1 ++ [jid]) ∧
  (NoDup h.*1 → NoDup h'.*1).
Proof.
  intros h'. subst h'. unfold HistoricalAnalyzer.record_job_event.
  assert (Hkeys :
    (odict_set jid
       (default []
          (odict_get jid
             match odict_get jid h with
             | Some _ => h
             | None => odict_set jid [] h
             end) ++
        [HistoricalAnalyzer.Event ety
           match ts with
           | Some t => if decide (t = "") then isoformat now else t
           | None => isoformat now
           end (default ∅ payload)])
       match odict_get jid h with
       | Some _ => h
       | None => odict_set jid [] h
       end).*1
    = if decide (jid ∈ h.*1) then h.*1 else h.*1 ++ [jid]).
  { rewrite odict_set_keys.
    destruct (odict_get jid h) eqn:Hget; [done|].
    rewrite odict_set_keys.
    destruct (decide (jid ∈ h.*1)) as [Hin|Hnin].
    - by rewrite decide_True.
    - rewrite decide_True; [done|]. apply elem_of_app. right. left. }
  split; [exact Hkeys|].
  intros Hnd. rewrite Hkeys. case_decide as Hin; [done|].
  apply NoDup_app. split; [done|]. split.
  - intros x Hx Hx'. apply list_elem_of_singleton in Hx'. by subst.
  - apply NoDup_singleton.
Qed.

Lemma record_job_event_keys_witness :
  let h := [("job-1", [HistoricalAnalyzer.Event "queued" "t0" ∅])] in
  NoDup h.*1 ∧
  NoDup (HistoricalAnalyzer.record_job_event QueuePredictor.epoch_seconds 5
           "job-1" "running" None None h).*1.
Proof.
  intros h.
  assert (Hnd : NoDup h.*1) by (apply NoDup_singleton).
  split; [exact Hnd|].
  exact (proj2 (record_job_event_keys QueuePredictor.epoch_seconds 5 "job-1"
                  "running" None None h) Hnd).
Defined.

(** X20.  [get_analytics] never reports a rate: whenever it returns,
    [success_rate] and [average_queue_time] are both 0 and [total_jobs] is
    the number of jobs in the store, filtered by user or not. *)
Theorem get_analytics_rates_are_zero
    (fromisoformat : string → option HistoricalAnalyzer.datetime)
    (user_id : option string)
    (history : list (string * list HistoricalAnalyzer.event))
    (a : HistoricalAnalyzer.analytics) :
  HistoricalAnalyzer.get_analytics fromisoformat user_id history = Returns a →
  HistoricalAnalyzer.success_rate a = 0%Q ∧
  HistoricalAnalyzer.average_queue_time a = 0%Q ∧
  HistoricalAnalyzer.total_jobs a = Z.of_nat (length history).
Proof.
  unfold HistoricalAnalyzer.get_analytics.
  destruct (HistoricalAnalyzer.visit_all _ _ _ _) as [st|]; [|done]. simpl.
  destruct (0 <? HistoricalAnalyzer.completed_jobs st); [done|]. simpl.
  by intros [= <-].
Qed.

Lemma get_analytics_rates_are_zero_witness :
  let history :=
    [("job-1", [HistoricalAnalyzer.Event "status_change" "t1"
                  {[ "status" := PStr "RUNNING" ]}])] in
  ∃ a,
    HistoricalAnalyzer.get_analytics HistoricalAnalyzer.rejects_all None history
    = Returns a ∧
    HistoricalAnalyzer.success_rate a = 0%Q.
Proof.
  intros history.
  destruct (HistoricalAnalyzer.get_analytics HistoricalAnalyzer.rejects_all
              None history) as [a|] eqn:Ha; [|vm_compute in Ha; discriminate].
  exists a. split; [reflexivity|].
  exact (proj1 (get_analytics_rates_are_zero HistoricalAnalyzer.rejects_all
                  None history a Ha)).
Defined.

Section Visits.

Import HistoricalAnalyzer.
Variable fromisoformat : string → option datetime.

(** What one loop iteration that returns does to the counters. *)
Lemma visit_returns user_id jid events st st' :
  visit fromisoformat user_id jid events st = Returns st' →
  if filtered_out user_id events then st' = st
  else
    completed_jobs st' =
      completed_jobs st + (if latest_completed events then 1 else 0) ∧
    recent st' =
      recent st ++
      match last events with
      | Some e => [Activity jid (event_type e) (timestamp e)]
      | None => []
      end.
Proof.
  unfold visit, latest_completed.
  destruct (filtered_out user_id events); [by intros [= <-]|].
  destruct (last (List.filter _ events)) as [e|];
    destruct (head (List.filter
                      (λ e, String.eqb (event_type e) "queued") events));
    destruct (head (List.filter
                      (λ e, String.eqb (event_type e) "running") events));
    simpl;
    repeat match goal with
    | |- context [parse ?f ?s] => destruct (parse f s); simpl; [|done]
    | |- context [total_seconds_between ?a ?b] =>
        destruct (total_seconds_between a b); simpl; [|done]
    end;
    intros [= <-]; simpl; split; try done;
    try (by destruct (py_eqb _ _); [done|rewrite Z.add_0_r]);
    try (by rewrite Z.add_0_r); try (by rewrite app_nil_r);
    by destruct (last events); [|rewrite app_nil_r].
Qed.

End Visits.

Lemma string_compare_not_lt_trans (x y z : string) :
  String.compare x y ≠ Lt → String.compare y z ≠ Lt → String.compare x z ≠ Lt.
Proof.
  revert y z. induction x as [|a x IH]; intros [|b y] [|c z]; simpl; try done.
  change (Ascii.compare a b) with (N.compare (N_of_ascii a) (N_of_ascii b)).
  change (Ascii.compare b c) with (N.compare (N_of_ascii b) (N_of_ascii c)).
  change (Ascii.compare a c) with (N.compare (N_of_ascii a) (N_of_ascii c)).
  destruct (N.compare_spec (N_of_ascii a) (N_of_ascii b)) as [Hab|Hab|Hab];
    destruct (N.compare_spec (N_of_ascii b) (N_of_ascii c)) as [Hbc|Hbc|Hbc];
    destruct (N.compare_spec (N_of_ascii a) (N_of_ascii c)) as [Hac|Hac|Hac];
    try done; try lia.
  apply IH.
Qed.

Lemma string_ltb_false (x y : string) :
  String.ltb x y = false ↔ String.leb y x = true.
Proof.
  unfold String.ltb, String.leb. rewrite (String.compare_antisym y x).
  destruct (String.compare x y); simpl; split; done.
Qed.

Lemma string_leb_trans (x y z : string) :
  String.leb x y = true → String.leb y z = true → String.leb x z = true.
Proof.
  rewrite <- !string_ltb_false. unfold String.ltb. intros Hyx Hzy.
  pose proof (string_compare_not_lt_trans z y x) as Htrans.
  destruct (String.compare z x); try done.
  destruct Htrans; [by destruct (String.compare z y)|
                    by destruct (String.compare y x)|done].
Qed.

Section RecentActivity.

Import HistoricalAnalyzer.
Variable fromisoformat : string → option datetime.

Lemma insert_desc_activity_Forall (P : activity → Prop) x acts :
  P x → Forall P acts →
  Forall P (insert_desc String.ltb activity_timestamp x acts).
Proof.
  intros Hx. induction 1 as [|y acts Hy Hacts IH]; simpl.
  - by constructor.
  - destruct (String.ltb _ _); repeat constructor; done.
Qed.

Lemma insert_desc_activity_sorted x acts :
  newest_first acts →
  newest_first (insert_desc String.ltb activity_timestamp x acts).
Proof.
  unfold newest_first.
  induction 1 as [|y acts Hsorted IH Hy]; simpl.
  - repeat constructor.
  - destruct (String.ltb (activity_timestamp x) (activity_timestamp y))
      eqn:Hlt.
    + constructor; [done|]. apply insert_desc_activity_Forall; [|done].
      unfold String.ltb in Hlt. unfold String.leb.
      by destruct (String.compare (activity_timestamp x) (activity_timestamp y)).
    + apply string_ltb_false in Hlt. constructor; [by constructor|].
      constructor; [done|].
      eapply Forall_impl; [exact Hy|].
      intros z Hz. simpl in Hz. by eapply string_leb_trans.
Qed.

Lemma sort_reverse_activity_sorted acts :
  newest_first (sort_reverse String.ltb activity_timestamp acts).
Proof.
  induction acts as [|x acts IH]; simpl; [constructor|].
  by apply insert_desc_activity_sorted.
Qed.

Lemma sort_reverse_activity_perm (acts : list activity) :
  sort_reverse String.ltb activity_timestamp acts ≡ₚ acts.
Proof.
  induction acts as [|x acts IH]; simpl; [done|].
  rewrite <- IH at 2.
  generalize (sort_reverse String.ltb activity_timestamp acts).
  intros l. induction l as [|y l IHl]; simpl; [done|].
  destruct (String.ltb _ _); [|done].
  rewrite IHl. apply Permutation_swap.
Qed.

(** What the whole loop does to the counters when it returns. *)
Lemma visit_all_returns user_id items st st' :
  visit_all fromisoformat user_id items st = Returns st' →
  completed_jobs st' =
    completed_jobs st +
    Z.of_nat (length (List.filter
      (λ item, negb (filtered_out user_id item.2) && latest_completed item.2)
      items)) ∧
  recent st' =
    recent st ++
    (items ≫= λ item,
       if filtered_out user_id item.2 then []
       else match last item.2 with
            | Some e => [Activity item.1 (event_type e) (timestamp e)]
            | None => []
            end).
Proof.
  revert st. induction items as [|[jid events] items IH]; intros st; simpl.
  - intros [= <-]. rewrite Z.add_0_r, app_nil_r. done.
  - destruct (visit fromisoformat user_id jid events st) as [st1|] eqn:Hv;
      [|done].
    simpl. intros Hrest. apply IH in Hrest as [Hc Hr].
    apply visit_returns in Hv.
    destruct (filtered_out user_id events); simpl.
    + subst st1. done.
    + destruct Hv as [Hc1 Hr1]. rewrite Hc, Hc1, Hr, Hr1. split.
      * destruct (latest_completed events); simpl; lia.
      * by rewrite <- app_assoc.
Qed.

(** The loop returns when the timestamps it subtracts are well formed. *)
Lemma visit_all_total user_id items st :
  Forall (λ item, filtered_out user_id item.2 = false →
                  timestamps_subtract fromisoformat item.2) items →
  ∃ st', visit_all fromisoformat user_id items st = Returns st'.
Proof.
  intros Hok. revert st.
  induction Hok as [|[jid events] items Hitem _ IH]; intros st; simpl.
  - by eexists.
  - assert (Hv : ∃ st1, visit fromisoformat user_id jid events st = Returns st1).
    { unfold visit. simpl in Hitem.
      destruct (filtered_out user_id events); [by eexists|].
      specialize (Hitem eq_refl). unfold timestamps_subtract in Hitem.
      destruct (last (List.filter _ events)) as [e|];
        destruct (head (List.filter
                          (λ e, String.eqb (event_type e) "queued") events));
        destruct (head (List.filter
                          (λ e, String.eqb (event_type e) "running") events));
        simpl; try (by eexists);
        destruct Hitem as (a & b & Ha & Hb & Hab);
        unfold parse; rewrite Ha, Hb; simpl;
        unfold total_seconds_between; rewrite Hab, eqb_reflx; simpl;
        by eexists. }
    destruct Hv as [st1 ->]. simpl. apply IH.
Qed.

End RecentActivity.

Lemma filter_length_0_or_Exists {A} (f : A → bool) (xs : list A) :
  (length (List.filter f xs) = 0%nat ∧ Forall (λ x, f x = false) xs) ∨
  ((0 < length (List.filter f xs))%nat ∧ Exists (λ x, f x = true) xs).
Proof.
  induction xs as [|x xs IH]; simpl; [left; by split|].
  destruct (f x) eqn:Hx; simpl.
  - right. split; [lia|by apply Exists_cons_hd].
  - destruct IH as [[Hlen Hall]|[Hlen Hex]].
    + left. split; [done|by constructor].
    + right. split; [done|by apply Exists_cons_tl].
Qed.

(** X21.  The recent activity of a returned report has at most 10 entries,
    newest timestamp first (timestamps compared as strings), and each
    entry is the last event of a non-empty job of the store that passes
    the user filter. *)
Theorem recent_activity_newest_ten
    (fromisoformat : string → option HistoricalAnalyzer.datetime)
    (user_id : option string)
    (history : list (string * list HistoricalAnalyzer.event))
    (a : HistoricalAnalyzer.analytics) :
  HistoricalAnalyzer.get_analytics fromisoformat user_id history = Returns a →
  (length (HistoricalAnalyzer.recent_activity a) ≤ 10)%nat ∧
  HistoricalAnalyzer.newest_first (HistoricalAnalyzer.recent_activity a) ∧
  ∀ act, act ∈ HistoricalAnalyzer.recent_activity a →
    ∃ events e,
      (HistoricalAnalyzer.job_id act, events) ∈ history ∧
      HistoricalAnalyzer.filtered_out user_id events = false ∧
      last events = Some e ∧
      HistoricalAnalyzer.last_event act = HistoricalAnalyzer.event_type e ∧
      HistoricalAnalyzer.activity_timestamp act = HistoricalAnalyzer.timestamp e.
Proof.
  unfold HistoricalAnalyzer.get_analytics.
  destruct (HistoricalAnalyzer.visit_all _ _ _ _) as [st|] eqn:Hloop; [|done].
  simpl. destruct (0 <? HistoricalAnalyzer.completed_jobs st); [done|]. simpl.
  intros [= <-]. simpl.
  apply visit_all_returns in Hloop as [_ Hrecent]. simpl in Hrecent.
  split; [rewrite length_take; lia|]. split.
  - unfold HistoricalAnalyzer.newest_first.
    pose proof (sort_reverse_activity_sorted (HistoricalAnalyzer.recent st))
      as Hsorted.
    unfold HistoricalAnalyzer.newest_first in Hsorted.
    rewrite <- (take_drop 10 (sort_reverse _ _ _)) in Hsorted.
    by apply StronglySorted_app_1_l in Hsorted.
  - intros act Hact.
    assert (Hin : act ∈ HistoricalAnalyzer.recent st).
    { rewrite <- (sort_reverse_activity_perm (HistoricalAnalyzer.recent st)).
      rewrite <- (take_drop 10 (sort_reverse _ _ _)).
      apply elem_of_app. by left. }
    rewrite Hrecent in Hin. apply list_elem_of_bind in Hin
      as ([jid events] & Hin & Hitem). simpl in Hin.
    destruct (HistoricalAnalyzer.filtered_out user_id events) eqn:Hf;
      [by apply elem_of_nil in Hin|].
    destruct (last events) as [e|] eqn:Hlast; [|by apply elem_of_nil in Hin].
    apply list_elem_of_singleton in Hin as ->. simpl.
    by exists events, e.
Qed.

Lemma recent_activity_newest_ten_witness :
  let history :=
    [("job-1", [HistoricalAnalyzer.Event "submitted" "2024-01-02T00:00:00" ∅]);
     ("job-2", []);
     ("job-3", [HistoricalAnalyzer.Event "queued" "2024-01-03T00:00:00" ∅])] in
  ∃ a,
    HistoricalAnalyzer.get_analytics HistoricalAnalyzer.rejects_all None history
    = Returns a ∧
    HistoricalAnalyzer.job_id <$> HistoricalAnalyzer.recent_activity a
    = ["job-3"; "job-1"] ∧
    HistoricalAnalyzer.newest_first (HistoricalAnalyzer.recent_activity a).
Proof.
  intros history.
  destruct (HistoricalAnalyzer.get_analytics HistoricalAnalyzer.rejects_all
              None history) as [a|] eqn:Ha; [|vm_compute in Ha; discriminate].
  exists a. split; [reflexivity|]. split.
  - vm_compute in Ha. injection Ha as <-. reflexivity.
  - exact (proj1 (proj2 (recent_activity_newest_ten
                           HistoricalAnalyzer.rejects_all None history a Ha))).
Defined.

Lemma filtered_out_no_match (u : string) (events : list HistoricalAnalyzer.event) :
  u ≠ "" →
  Forall (λ e, py_eqb (dict_get_default "user_id" PNone
                         (HistoricalAnalyzer.data e)) (PStr u) = false) events →
  HistoricalAnalyzer.filtered_out (Some u) events = true.
Proof.
  intros Hu Hall. unfold HistoricalAnalyzer.filtered_out.
  rewrite decide_False by done.
  replace (List.filter _ events) with (@nil HistoricalAnalyzer.event); [done|].
  induction Hall as [|e events He _ IH]; simpl; [done|]. by rewrite He.
Qed.

Lemma visit_all_filtered
    (fromisoformat : string → option HistoricalAnalyzer.datetime)
    (u : string) (history : list (string * list HistoricalAnalyzer.event))
    (st : HistoricalAnalyzer.locals) :
  u ≠ "" →
  Forall (λ item,
    Forall (λ e, py_eqb (dict_get_default "user_id" PNone
                           (HistoricalAnalyzer.data e)) (PStr u) = false)
      item.2) history →
  HistoricalAnalyzer.visit_all fromisoformat (Some u) history st = Returns st.
Proof.
  intros Hu Hall. revert st.
  induction Hall as [|[jid events] items Hitem _ IH]; intros st; simpl;
    [done|].
  unfold HistoricalAnalyzer.visit.
  rewrite (filtered_out_no_match u events Hu Hitem). simpl. apply IH.
Qed.

(** X22.  A user filter matches on the [user_id] that events carry in their
    payload.  When no event of the store carries the requested user, as is
    the case for events recorded without one, every job is skipped and the
    report is empty: no breakdown, no activity, zero rates, while
    [total_jobs] still counts the whole store. *)
Theorem get_analytics_user_without_events
    (fromisoformat : string → option HistoricalAnalyzer.datetime)
    (u : string) (history : list (string * list HistoricalAnalyzer.event)) :
  u ≠ "" →
  Forall (λ item,
    Forall (λ e, py_eqb (dict_get_default "user_id" PNone
                           (HistoricalAnalyzer.data e)) (PStr u) = false)
      item.2) history →
  HistoricalAnalyzer.get_analytics fromisoformat (Some u) history =
  Returns (HistoricalAnalyzer.Analytics (Z.of_nat (length history)) [] [] 0 0 []).
Proof.
  intros Hu Hall. unfold HistoricalAnalyzer.get_analytics.
  rewrite (visit_all_filtered fromisoformat u history _ Hu Hall).
  simpl. reflexivity.
Qed.

Lemma get_analytics_user_without_events_witness :
  let history :=
    [("job-1", [HistoricalAnalyzer.Event "status_change" "t1"
                  {[ "status" := PStr "COMPLETED" ]}])] in
  "alice" ≠ "" ∧
  HistoricalAnalyzer.get_analytics HistoricalAnalyzer.rejects_all
    (Some "alice") history
  = Returns (HistoricalAnalyzer.Analytics 1 [] [] 0 0 []).
Proof.
  intros history.
  assert (Hu : "alice" ≠ "") by discriminate.
  split; [exact Hu|].
  apply (get_analytics_user_without_events HistoricalAnalyzer.rejects_all
           "alice" history Hu).
  repeat (apply List.Forall_cons || apply List.Forall_nil); reflexivity.
Defined.

(** X23.  With timestamps that subtract, the outcome of [get_analytics] is
    decided by the completed jobs alone: it returns a report when no job
    that passes the user filter has COMPLETED as its latest status, and
    raises [NameError] as soon as one has. *)
Theorem get_analytics_outcome
    (fromisoformat : string → option HistoricalAnalyzer.datetime)
    (user_id : option string)
    (history : list (string * list HistoricalAnalyzer.event)) :
  Forall (λ item,
    HistoricalAnalyzer.filtered_out user_id item.2 = false →
    HistoricalAnalyzer.timestamps_subtract fromisoformat item.2) history →
  match HistoricalAnalyzer.get_analytics fromisoformat user_id history with
  | Returns _ =>
      Forall (λ item,
        negb (HistoricalAnalyzer.filtered_out user_id item.2)
        && HistoricalAnalyzer.latest_completed item.2 = false) history
  | Raises e =>
      e = NameError ∧
      Exists (λ item,
        negb (HistoricalAnalyzer.filtered_out user_id item.2)
        && HistoricalAnalyzer.latest_completed item.2 = true) history
  end.
Proof.
  intros Hok.
  destruct (visit_all_total fromisoformat user_id history
              (HistoricalAnalyzer.Locals [] [] 0 0%Q []) Hok) as [st Hloop].
  pose proof (visit_all_returns _ _ _ _ _ Hloop) as [Hcount _].
  simpl in Hcount.
  unfold HistoricalAnalyzer.get_analytics. rewrite Hloop. simpl.
  destruct (filter_length_0_or_Exists
              (λ item : string * list HistoricalAnalyzer.event,
                 negb (HistoricalAnalyzer.filtered_out user_id item.2)
                 && HistoricalAnalyzer.latest_completed item.2) history)
    as [[Hlen Hall]|[Hlen Hex]].
  - rewrite Hlen in Hcount. rewrite Hcount. simpl. exact Hall.
  - destruct (0 <? HistoricalAnalyzer.completed_jobs st) eqn:Hpos.
    + simpl. split; [done|exact Hex].
    + apply Z.ltb_ge in Hpos. lia.
Qed.

Lemma get_analytics_outcome_witness :
  let history :=
    [("job-1", [HistoricalAnalyzer.Event "queued" "2024-01-01T00:00:00" ∅;
                HistoricalAnalyzer.Event "status_change" "2024-01-01T00:05:00"
                  {[ "status" := PStr "COMPLETED" ]}])] in
  HistoricalAnalyzer.get_analytics HistoricalAnalyzer.rejects_all None history
  = Raises NameError.
Proof.
  intros history.
  assert (Hok : Forall (λ item,
    HistoricalAnalyzer.filtered_out None item.2 = false →
    HistoricalAnalyzer.timestamps_subtract HistoricalAnalyzer.rejects_all item.2)
    history).
  { apply List.Forall_cons; [|apply List.Forall_nil]. intros _. exact I. }
  pose proof (get_analytics_outcome HistoricalAnalyzer.rejects_all None history
                Hok) as Hout.
  destruct (HistoricalAnalyzer.get_analytics HistoricalAnalyzer.rejects_all
              None history) as [a|e].
  - inversion Hout as [|? ? Hhead _]. vm_compute in Hhead. discriminate.
  - destruct Hout as [-> _]. reflexivity.
Defined.

(* ===================================================================== *)
(** * The callers in app.py                                               *)
(* ===================================================================== *)

Lemma counter_increment_sum (k : pyval) (d : list (pyval * Z)) :
  foldr Z.add 0 (counter_set k (counter_get k d + 1) d).*2
  = foldr Z.add 0 d.*2 + 1.
Proof.
  induction d as [|[k' n] d IH]; [done|].
  cbn [counter_set counter_get]. destruct (py_eqb k k').
  - rewrite !fmap_cons. cbn [foldr snd]. lia.
  - rewrite !fmap_cons. cbn [foldr snd]. rewrite IH. lia.
Qed.

Lemma tally_sum (keep : App.job_row → bool) (key : App.job_row → string)
    (jobs : list App.job_row) :
  foldr Z.add 0 (App.tally keep key jobs).*2
  = Z.of_nat (length (List.filter keep jobs)).
Proof.
  unfold App.tally.
  assert (Hgen : ∀ d,
    foldr Z.add 0
      (fold_left
         (λ d job,
            if keep job
            then counter_set (PStr (key job))
                   (counter_get (PStr (key job)) d + 1) d
            else d) jobs d).*2
    = foldr Z.add 0 d.*2 + Z.of_nat (length (List.filter keep jobs))).
  { induction jobs as [|j jobs IH]; intros d; simpl; [lia|].
    rewrite IH. destruct (keep j); simpl; [|done].
    rewrite counter_increment_sum. lia. }
  rewrite Hgen. simpl. lia.
Qed.

(** X24.  With at least one job to show, the analytics page reports from
    the job list alone and cannot fail: the history store is not read.
    The report counts every job once per breakdown (the status counts add
    up to [total_jobs], the backend counts to the jobs whose backend is
    known), its success rate lies between 0 and 100, and its recent
    activity is the first ten jobs of the list. *)
Theorem analytics_data_from_jobs
    (upper : string → string)
    (fromisoformat : string → option HistoricalAnalyzer.datetime)
    (user_id : option string) (jobs : list App.job_row)
    (history : list (string * list HistoricalAnalyzer.event)) :
  jobs ≠ [] →
  ∃ a,
    App.analytics_data upper fromisoformat user_id jobs history = Returns a ∧
    HistoricalAnalyzer.total_jobs a = Z.of_nat (length jobs) ∧
    (0 <= HistoricalAnalyzer.success_rate a <= 100)%Q ∧
    foldr Z.add 0 (HistoricalAnalyzer.jobs_by_status a).*2
      = Z.of_nat (length jobs) ∧
    foldr Z.add 0 (HistoricalAnalyzer.jobs_by_backend a).*2
      = Z.of_nat (length (List.filter
                            (λ j, negb (String.eqb (App.backend j) "Unknown"))
                            jobs)) ∧
    HistoricalAnalyzer.job_id <$> HistoricalAnalyzer.recent_activity a
      = App.job_id <$> take 10 jobs.
Proof.
  intros Hne. destruct jobs as [|j jobs]; [done|].
  eexists. split; [reflexivity|]. cbn [HistoricalAnalyzer.total_jobs
    HistoricalAnalyzer.success_rate HistoricalAnalyzer.jobs_by_status
    HistoricalAnalyzer.jobs_by_backend HistoricalAnalyzer.recent_activity].
  split; [done|]. split; [|split; [|split]].
  - set (n := length (j :: jobs)).
    set (c := length (List.filter _ (j :: jobs))).
    assert (Hc : (c ≤ n)%nat) by apply List.filter_length_le.
    assert (Hn : (0 < n)%nat) by (unfold n; simpl; lia).
    replace (0 <? Z.of_nat n) with true by (symmetry; apply Z.ltb_lt; lia).
    assert (Hpos : (0 < inject_Z (Z.of_nat n))%Q)
      by (rewrite <- (Zlt_Qlt 0); lia).
    set (r := round64 (inject_Z (Z.of_nat c) / inject_Z (Z.of_nat n))).
    assert (Hr0 : (0 <= r)%Q).
    { apply round64_nonneg. apply Qle_shift_div_l; [done|].
      rewrite Qmult_0_l. rewrite <- (Zle_Qle 0). lia. }
    assert (Hr1 : (r <= 1)%Q).
    { assert (E : (round64 (inject_Z 1) == 1)%Q) by reflexivity.
      rewrite <- E. apply round64_mono.
      apply Qle_shift_div_r; [done|]. rewrite Qmult_1_l.
      rewrite <- Zle_Qle. lia. }
    split.
    + apply round64_nonneg. apply Qmult_le_0_compat; done.
    + assert (E : (round64 100 == 100)%Q) by reflexivity.
      rewrite <- E at 2. apply round64_mono.
      apply Qle_trans with (1 * 100)%Q; [|done].
      apply Qmult_le_compat_r; done.
  - rewrite tally_sum. f_equal.
    replace (List.filter (λ _ : App.job_row, true) (j :: jobs))
      with (j :: jobs); [done|].
    generalize (j :: jobs). intros l.
    induction l as [|x l IH]; simpl; [done|by rewrite <- IH].
  - apply tally_sum.
  - rewrite <- list_fmap_compose. done.
Qed.

Lemma analytics_data_from_jobs_witness :
  let jobs :=
    [App.JobRow "j3" "ibm_a" "DONE" "2024-01-03 10:00:00";
     App.JobRow "j2" "Unknown" "QUEUED" "2024-01-02 10:00:00";
     App.JobRow "j1" "ibm_a" "ERROR" "2024-01-01 10:00:00"] in
  let history :=
    [("j0", [HistoricalAnalyzer.Event "status_change" "t"
               {[ "status" := PStr "COMPLETED" ]}])] in
  jobs ≠ [] ∧
  ∃ a,
    App.analytics_data App.already_upper HistoricalAnalyzer.rejects_all None
      jobs history = Returns a ∧
    HistoricalAnalyzer.total_jobs a = 3.
Proof.
  intros jobs history.
  assert (Hne : jobs ≠ []) by discriminate.
  split; [exact Hne|].
  destruct (analytics_data_from_jobs App.already_upper
              HistoricalAnalyzer.rejects_all None jobs history Hne)
    as (a & Ha & Htotal & _).
  exists a. split; [exact Ha|exact Htotal].
Defined.

Lemma odict_set_elem_of {V} (k k' : string) (v v' : V) (d : list (string * V)) :
  (k', v') ∈ odict_set k v d → (k', v') = (k, v) ∨ (k', v') ∈ d.
Proof.
  induction d as [|[k0 v0] d IH]; cbn [odict_set].
  - intros Hin. apply list_elem_of_singleton in Hin. by left.
  - destruct (decide (k = k0)) as [->|Hne]; intros Hin;
      apply elem_of_cons in Hin as [Heq|Hin].
    + by left.
    + right. by right.
    + right. rewrite Heq. left.
    + destruct (IH Hin) as [?|?]; [by left|]. right. by right.
Qed.

Lemma backend_status_dict_elem_of (backends : list App.backend_row) n info :
  (n, info) ∈ App.backend_status_dict backends →
  ∃ row, row ∈ backends ∧ n = App.row_name row ∧ info = App.status_of_row row.
Proof.
  unfold App.backend_status_dict.
  assert (Hgen : ∀ d,
    (n, info) ∈ fold_left
      (λ d backend, odict_set (App.row_name backend)
                      (App.status_of_row backend) d) backends d →
    (n, info) ∈ d ∨
    ∃ row, row ∈ backends ∧ n = App.row_name row ∧
           info = App.status_of_row row).
  { induction backends as [|b backends IH]; intros d; simpl; [by left|].
    intros Hin. destruct (IH _ Hin) as [Hd|(row & Hrow & Hrest)].
    - apply odict_set_elem_of in Hd as [[= -> ->]|Hd]; [|by left].
      right. exists b. split; [left|done].
    - right. exists row. split; [by right|done]. }
  intros Hin. destruct (Hgen [] Hin) as [Hnil|?]; [|done].
  by apply elem_of_nil in Hnil.
Qed.

(** X25.  On rows whose queue is an integer (of at most 1000 bits) or the
    string "Unknown", which is all that the status lookup produces, and
    whose qubit count is no integer or one of at most 1000 bits, the [try]
    of the dashboard's recommendation block never has to catch anything:
    the block ends with exactly what [get_recommendations] returns.  There
    are at most 3 recommendations, each is a row whose status text contains
    "Available", and a row with an unknown queue is ranked as if its queue
    were empty. *)
Theorem dashboard_recommendations_spec
    (u : string) (backends : list App.backend_row) :
  u ≠ "" →
  Forall (λ row,
    ((∃ z, App.row_queue row = PInt z ∧ - 2 ^ 1000 ≤ z) ∨
     App.row_queue row = PStr "Unknown") ∧
    match as_int (App.row_qubits row) with
    | Some q => - 2 ^ 1000 ≤ q ≤ 2 ^ 1000
    | None => True
    end) backends →
  BackendRecommender.get_recommendations u (App.backend_status_dict backends)
    = Returns (App.dashboard_recommendations (Some u) backends) ∧
  (length (App.dashboard_recommendations (Some u) backends) ≤ 3)%nat ∧
  ∀ r, r ∈ App.dashboard_recommendations (Some u) backends →
    ∃ row, row ∈ backends ∧
      App.row_name row = BackendRecommender.name r ∧
      App.str_in "Available" (App.row_status row) = true ∧
      (App.row_queue row = PStr "Unknown" →
       BackendRecommender.queue_length r = PInt 0).
Proof.
  intros Hu Hrows. unfold App.dashboard_recommendations.
  rewrite decide_False by done.
  pose proof (collect_outcome (App.backend_status_dict backends)) as Hout.
  unfold BackendRecommender.get_recommendations.
  destruct (BackendRecommender.collect (App.backend_status_dict backends))
    as [all|e] eqn:Hall.
  - simpl. split; [done|]. split; [rewrite length_take; lia|].
    intros r Hr.
    assert (Hin : r ∈ all).
    { rewrite <- (sort_reverse_perm all).
      rewrite <- (take_drop 3 (sort_reverse Qltb BackendRecommender.score all)).
      apply elem_of_app. by left. }
    destruct (collect_elem_of _ _ _ Hall Hin)
      as (info & rsn & Hc & Hop & _ & _ & Hrec).
    apply backend_status_dict_elem_of in Hc as (row & Hrow & Hname & ->).
    exists row. split; [done|]. split; [done|]. split.
    + revert Hop. unfold dict_get_default, App.status_of_row.
      rewrite lookup_insert_eq. done.
    + intros Hq. rewrite Hrec. simpl.
      unfold dict_get_default, App.status_of_row.
      rewrite lookup_insert_ne, lookup_insert_eq by done.
      by rewrite Hq.
  - exfalso.
    assert (Hrow : ∀ n info, (n, info) ∈ App.backend_status_dict backends →
      is_Some (as_int (dict_get_default "pending_jobs" (PInt 0) info)) ∧
      BackendRecommender.float_safe info).
    { intros n info Hin.
      apply backend_status_dict_elem_of in Hin as (row & Hrow & _ & ->).
      rewrite Forall_forall in Hrows.
      destruct (Hrows row Hrow) as [Hqueue Hqubits].
      assert (Hzero : - 2 ^ 1000 ≤ 0) by (apply Z.lt_le_incl; reflexivity).
      unfold BackendRecommender.float_safe, dict_get_default, App.status_of_row.
      rewrite (lookup_insert_ne _ "operational" "pending_jobs") by done.
      rewrite lookup_insert_eq.
      rewrite (lookup_insert_ne _ "operational" "qubits") by done.
      rewrite (lookup_insert_ne _ "pending_jobs" "qubits") by done.
      rewrite lookup_insert_eq.
      destruct Hqueue as [(z & -> & Hz)| ->]; by repeat split; try eexists. }
    destruct Hout as [[_ Hex]|[_ Hex]];
      apply Exists_exists in Hex as ([n info] & Hin & _ & Hbad);
      destruct (Hrow n info Hin) as [Hnum Hsafe]; simpl in Hbad.
    + rewrite Hbad in Hnum. by destruct Hnum.
    + done.
Qed.

Lemma dashboard_recommendations_spec_witness :
  let rows :=
    [App.BackendRow "ibm_a" (PInt 127) (PStr "Unknown") "Available" "public"
       (PBool false);
     App.BackendRow "ibm_b" (PStr "Unknown") (PInt 4) "Down" "public"
       (PBool false)] in
  "alice" ≠ "" ∧
  BackendRecommender.name <$> App.dashboard_recommendations (Some "alice") rows
  = ["ibm_a"] ∧
  (length (App.dashboard_recommendations (Some "alice") rows) ≤ 3)%nat.
Proof.
  intros rows.
  assert (Hu : "alice" ≠ "") by discriminate.
  assert (Hrows :
    Forall (λ row,
      ((∃ z, App.row_queue row = PInt z ∧ - 2 ^ 1000 ≤ z) ∨
       App.row_queue row = PStr "Unknown") ∧
      match as_int (App.row_qubits row) with
      | Some q => - 2 ^ 1000 ≤ q ≤ 2 ^ 1000
      | None => True
      end) rows).
  { apply List.Forall_cons.
    - split; [by right|]. vm_compute. split; discriminate.
    - apply List.Forall_cons; [|apply List.Forall_nil].
      split; [|exact I]. left. exists 4. split; [reflexivity|].
      vm_compute. discriminate. }
  split; [exact Hu|]. split; [vm_compute; reflexivity|].
  exact (proj1 (proj2 (dashboard_recommendations_spec "alice" rows Hu Hrows))).
Defined.

Lemma odict_get_elem_of {V} (k : string) (v : V) (d : list (string * V)) :
  odict_get k d = Some v → (k, v) ∈ d.
Proof.
  induction d as [|[k0 v0] d IH]; cbn [odict_get]; [done|].
  destruct (decide (k = k0)) as [->|Hne].
  - intros [= ->]. left.
  - intros Hget. right. by apply IH.
Qed.

Lemma odict_set_Forall {V} (P : string * V → Prop) k v (d : list (string * V)) :
  Forall P d → P (k, v) → Forall P (odict_set k v d).
Proof.
  intros Hd Hkv. induction Hd as [|[k0 v0] d Hhead Htail IH];
    cbn [odict_set]; [by repeat constructor|].
  destruct (decide (k = k0)) as [->|Hne]; constructor; done.
Qed.

Section Submissions.

Import HistoricalAnalyzer.
Variable isoformat : Q → string.
Variable fromisoformat : string → option datetime.

Lemma record_job_event_Forall (P : event → Prop) now jid ety ts payload h :
  Forall (λ item, Forall P item.2) h →
  P (Event ety
       (match ts with
        | Some t => if decide (t = "") then isoformat now else t
        | None => isoformat now
        end)
       (default ∅ payload)) →
  Forall (λ item, Forall P item.2)
    (record_job_event isoformat now jid ety ts payload h).
Proof.
  intros Hh Hev. unfold record_job_event.
  set (h1 := match odict_get jid h with
             | Some _ => h
             | None => odict_set jid [] h
             end).
  assert (Hh' : Forall (λ item : string * list event, Forall P item.2) h1).
  { unfold h1. destruct (odict_get jid h); [done|]. by apply odict_set_Forall. }
  clearbody h1.
  apply odict_set_Forall; [done|]. simpl.
  apply Forall_app. split; [|by repeat constructor].
  destruct (odict_get jid h1) as [l|] eqn:Hget; [|done]. simpl.
  apply odict_get_elem_of in Hget.
  rewrite Forall_forall in Hh'. by apply (Hh' (jid, l)).
Qed.

Lemma run_submissions_events subs :
  Forall (λ item, Forall App.submission_event item.2)
    (App.run_submissions isoformat subs []).
Proof.
  unfold App.run_submissions.
  assert (Hgen : ∀ h,
    Forall (λ item, Forall App.submission_event item.2) h →
    Forall (λ item, Forall App.submission_event item.2)
      (fold_left (λ h s, App.record_submission isoformat s h) subs h)).
  { induction subs as [|s subs IH]; intros h Hh; simpl; [done|].
    apply IH. destruct s; simpl; apply record_job_event_Forall; try done.
    - split; [by left|done].
    - split; [by right|done]. }
  apply Hgen. constructor.
Qed.

Lemma filter_event_type_nil (ety : string) events :
  ety ≠ "submitted_estimator" → ety ≠ "submitted_estimator_fallback" →
  Forall App.submission_event events →
  List.filter (λ e, String.eqb (event_type e) ety) events = [].
Proof.
  intros H1 H2. induction 1 as [|e events [Hty _] _ IH]; simpl; [done|].
  replace (String.eqb (event_type e) ety) with false; [done|].
  symmetry. apply String.eqb_neq. destruct Hty as [-> | ->]; done.
Qed.

(** On submission events an iteration only appends to the activity. *)
Lemma visit_submission_events user_id jid events st :
  Forall App.submission_event events →
  visit fromisoformat user_id jid events st =
  Returns
    (if filtered_out user_id events then st
     else Locals (by_status st) (by_backend st) (completed_jobs st)
            (total_queue_time st)
            (recent st ++
             match last events with
             | Some e => [Activity jid (event_type e) (timestamp e)]
             | None => []
             end)).
Proof.
  intros Hev. unfold visit.
  destruct (filtered_out user_id events); [done|].
  rewrite !(filter_event_type_nil _ events) by done. simpl.
  destruct (last events); [done|]. rewrite app_nil_r. by destruct st.
Qed.

Lemma visit_all_submission_events user_id items st :
  Forall (λ item, Forall App.submission_event item.2) items →
  ∃ st', visit_all fromisoformat user_id items st = Returns st' ∧
         by_status st' = by_status st ∧ by_backend st' = by_backend st ∧
         completed_jobs st' = completed_jobs st.
Proof.
  intros Hitems. revert st.
  induction Hitems as [|[jid events] items Hev _ IH]; intros st; simpl.
  - by eexists.
  - rewrite (visit_submission_events _ _ _ _ Hev). simpl.
    destruct (IH (if filtered_out user_id events then st
                  else Locals (by_status st) (by_backend st)
                         (completed_jobs st) (total_queue_time st)
                         (recent st ++
                          match last events with
                          | Some e => [Activity jid (event_type e) (timestamp e)]
                          | None => []
                          end)))
      as (st' & Hloop & Hs & Hb & Hc).
    exists st'. split; [done|].
    destruct (filtered_out user_id events); done.
Qed.

End Submissions.

(** X26.  In this application the history store only ever receives the two
    submission events, none of them a status change and none carrying a
    user.  On such a store [get_analytics] never raises, for any user
    filter: the misspelled guard of line 108 is never reached.  The report
    has empty breakdowns and zero rates, and for a named user it has no
    activity either. *)
Theorem get_analytics_on_recorded_submissions
    (isoformat : Q → string)
    (fromisoformat : string → option HistoricalAnalyzer.datetime)
    (subs : list App.submission) (user_id : option string) :
  let history := App.run_submissions isoformat subs [] in
  ∃ a,
    HistoricalAnalyzer.get_analytics fromisoformat user_id history = Returns a ∧
    HistoricalAnalyzer.jobs_by_status a = [] ∧
    HistoricalAnalyzer.jobs_by_backend a = [] ∧
    HistoricalAnalyzer.success_rate a = 0%Q ∧
    HistoricalAnalyzer.average_queue_time a = 0%Q ∧
    (∀ u, user_id = Some u → u ≠ "" →
          HistoricalAnalyzer.recent_activity a = []).
Proof.
  intros history.
  pose proof (run_submissions_events isoformat subs) as Hev.
  fold history in Hev.
  destruct (visit_all_submission_events fromisoformat user_id history
              (HistoricalAnalyzer.Locals [] [] 0 0%Q []) Hev)
    as (st & Hloop & Hs & Hb & Hc).
  simpl in Hs, Hb, Hc.
  unfold HistoricalAnalyzer.get_analytics. rewrite Hloop. simpl.
  rewrite Hc. simpl. eexists. split; [reflexivity|]. simpl.
  split; [done|]. split; [done|]. split; [done|]. split; [done|].
  intros u -> Hu.
  rewrite (visit_all_filtered fromisoformat u history) in Hloop.
  - by injection Hloop as <-.
  - done.
  - eapply Forall_impl; [exact Hev|]. intros item Hitem.
    eapply Forall_impl; [exact Hitem|]. intros e [_ Hnone].
    unfold dict_get_default. by rewrite Hnone.
Qed.

Lemma get_analytics_on_recorded_submissions_witness :
  let subs :=
    [App.Estimator 5 "job-1" "ibm_a" "bell" (PInt 100) "ZZ";
     App.EstimatorFallback 9 "job-2" "ibm_a" "ghz" (PInt 50)] in
  ∃ a,
    HistoricalAnalyzer.get_analytics HistoricalAnalyzer.rejects_all
      (Some "alice")
      (App.run_submissions QueuePredictor.epoch_seconds subs [])
    = Returns a ∧
    HistoricalAnalyzer.recent_activity a = [].
Proof.
  intros subs.
  destruct (get_analytics_on_recorded_submissions QueuePredictor.epoch_seconds
              HistoricalAnalyzer.rejects_all subs (Some "alice"))
    as (a & Ha & _ & _ & _ & _ & Hrecent).
  exists a. split; [exact Ha|].
  apply (Hrecent "alice"); [reflexivity|discriminate].
Defined.
